(** * Activity-stream ingestion service: embedding and verified properties

    A shallow embedding of the index-lifecycle engine of the activity-stream
    service (core/app/app_elasticsearch.py, core/app/app_outgoing.py,
    core/app/app_utils.py and the signer of core/app.py), with the
    properties of its specification stated and proved over it, followed by
    the start-up of the ingestion, the read side of the search gateway, the
    loop and the dictionary helpers of the first layout (core/app.py,
    core/app_utils.py) and a helper of the tests (core/tests_utils.py), with
    further properties read off the code.

    Conventions.
    - A Python [str] is a [string]: one [ascii] per code point, which covers
      the code points below 256.  [bytes] values are [string]s as well, one
      [ascii] per byte.
    - Python integers are [Z] (or [N] where the source cannot go negative).
    - Awaited calls (HTTP, key-value store, sleeps) are steps of a state and
      exception monad over an explicit [world]. *)

From Stdlib Require Import ZArith NArith List Bool Ascii String Lia.
From Stdlib Require Import DecimalString Decimal.
From stdpp Require Import gmap strings list sorting.

Local Open Scope Z_scope.

(* ===================================================================== *)
(** * Python strings *)
(* ===================================================================== *)

Module PyStr.

(** [str.startswith]: [startswith s pre] is [s.startswith(pre)]. *)
Fixpoint startswith (s pre : string) : bool :=
  match pre with
  | EmptyString => true
  | String a pre' =>
      match s with
      | EmptyString => false
      | String b s' => Ascii.eqb a b && startswith s' pre'
      end
  end.

(** [needle in hay] on strings: some suffix of [hay] starts with [needle]. *)
Fixpoint str_in (needle hay : string) : bool :=
  startswith hay needle ||
  match hay with
  | EmptyString => false
  | String _ hay' => str_in needle hay'
  end.

(** [c in s] for a single character. *)
Fixpoint has_char (c : ascii) (s : string) : bool :=
  match s with
  | EmptyString => false
  | String a s' => Ascii.eqb c a || has_char c s'
  end.

(** [sep.join(parts)]. *)
Fixpoint join (sep : string) (parts : list string) : string :=
  match parts with
  | [] => EmptyString
  | [p] => p
  | p :: ps => p +:+ sep +:+ join sep ps
  end.

(** [s.count(c)] for a single character. *)
Fixpoint count_char (c : ascii) (s : string) : nat :=
  match s with
  | EmptyString => O
  | String a s' => (if Ascii.eqb c a then 1 else 0)%nat + count_char c s'
  end.

(** [s.endswith(c)] for a single character. *)
Fixpoint ends_with_char (c : ascii) (s : string) : bool :=
  match s with
  | EmptyString => false
  | String a EmptyString => Ascii.eqb c a
  | String _ s' => ends_with_char c s'
  end.

(** [str(n)] for a non-negative integer. *)
Definition str_of_N (n : N) : string :=
  NilZero.string_of_uint (N.to_uint n).

(** [str(z)] for an integer. *)
Definition str_of_Z (z : Z) : string :=
  NilZero.string_of_int (Z.to_int z).

(** [s.zfill(w)]-style left padding with zeros, as the [%0wd] formats do for
    a non-negative number. *)
Definition zfill (w : nat) (s : string) : string :=
  String.concat EmptyString (repeat "0"%string (w - String.length s)) +:+ s.

Definition hex_digit (n : N) : ascii :=
  match n with
  | 0%N => "0" | 1%N => "1" | 2%N => "2" | 3%N => "3" | 4%N => "4"
  | 5%N => "5" | 6%N => "6" | 7%N => "7" | 8%N => "8" | 9%N => "9"
  | 10%N => "a" | 11%N => "b" | 12%N => "c" | 13%N => "d" | 14%N => "e"
  | _ => "f"
  end%char.

(** [bytes.hex()]: two lowercase hexadecimal digits per byte. *)
Fixpoint hex (bs : string) : string :=
  match bs with
  | EmptyString => EmptyString
  | String b bs' =>
      let n := N_of_ascii b in
      String (hex_digit (n / 16)) (String (hex_digit (n mod 16)) (hex bs'))
  end.

End PyStr.

Import PyStr.

(** [flatten] of app_utils.py: concatenation of the sublists, in order. *)
Definition flatten {A : Type} (list_to_flatten : list (list A)) : list A :=
  List.concat list_to_flatten.

(* ===================================================================== *)
(** * Index names (app_elasticsearch.py) *)
(* ===================================================================== *)

Definition ALIAS : string := "activities".

(** What [get_new_index_name] reads from its environment: the local date,
    the whole seconds of the local timestamp and five random bytes. *)
Record date := { year : N; month : N; day : N }.

Record name_env := {
  env_today : date;
  env_timestamp : N;
  env_urandom : string      (* [os.urandom(5)] *)
}.

(** [datetime.date.isoformat]: [YYYY-MM-DD]. *)
Definition isoformat (d : date) : string :=
  zfill 4 (str_of_N (year d)) +:+ "-" +:+ zfill 2 (str_of_N (month d))
    +:+ "-" +:+ zfill 2 (str_of_N (day d)).

Definition get_new_index_name (env : name_env) (feed_unique_id : string) : string :=
  let today := isoformat (env_today env) in
  let now := str_of_N (env_timestamp env) in
  let unique := hex (env_urandom env) in
  ALIAS +:+ "__" +:+
  "feed_id_" +:+ feed_unique_id +:+ "__" +:+
  "date_" +:+ today +:+ "__" +:+
  "timestamp_" +:+ now +:+ "__" +:+
  "batch_id_" +:+ unique +:+ "__".

(** The substring [indexes_matching_feed] looks for. *)
Definition feed_marker (feed_unique_id : string) : string :=
  ALIAS +:+ "__feed_id_" +:+ feed_unique_id +:+ "__".

Definition indexes_matching_feed (index_names : list string) (feed_unique_id : string)
  : list string :=
  List.filter (fun index_name => str_in (feed_marker feed_unique_id) index_name)
    index_names.

Definition indexes_matching_feeds (index_names feed_unique_ids : list string)
  : list string :=
  flatten (List.map (fun feed_unique_id =>
                       indexes_matching_feed index_names feed_unique_id)
             feed_unique_ids).

Definition indexes_matching_no_feeds (index_names feed_unique_ids : list string)
  : list string :=
  let indexes_matching := indexes_matching_feeds index_names feed_unique_ids in
  List.filter (fun index_name =>
                 negb (bool_decide (index_name ∈ indexes_matching)))
    index_names.

(* ===================================================================== *)
(** * JSON values and [json.dumps] *)
(* ===================================================================== *)

(** Python values that [json.dumps] serialises here: a [dict] keeps its
    insertion order and has string keys.  Floats do not occur in the model. *)
#[warnings="-register-all"]
Inductive json :=
| JNull
| JBool (b : bool)
| JInt (z : Z)
| JStr (s : string)
| JList (xs : list json)
| JDict (items : list (string * json)).

Module Json.

Definition quote : ascii := "034"%char.
Definition backslash : ascii := "\"%char.
Definition newline : ascii := "010"%char.

(** One character under [ensure_ascii=True]: quote and backslash are
    escaped, the usual short escapes are used, and anything outside
    [' '..'~'] becomes [\u00xx]. *)
Definition escape_char (c : ascii) : string :=
  let n := N_of_ascii c in
  if Ascii.eqb c quote then String backslash (String quote EmptyString)
  else if Ascii.eqb c backslash then String backslash (String backslash EmptyString)
  else if (n =? 10)%N then String backslash "n"
  else if (n =? 13)%N then String backslash "r"
  else if (n =? 9)%N then String backslash "t"
  else if (n =? 8)%N then String backslash "b"
  else if (n =? 12)%N then String backslash "f"
  else if ((n <? 32) || (126 <? n))%N then
    String backslash ("u00" +:+ String (hex_digit (n / 16))
                                 (String (hex_digit (n mod 16)) EmptyString))
  else String c EmptyString.

Fixpoint escape (s : string) : string :=
  match s with
  | EmptyString => EmptyString
  | String c s' => escape_char c +:+ escape s'
  end.

(** [encode_basestring_ascii]. *)
Definition encode_str (s : string) : string :=
  String quote (escape s +:+ String quote EmptyString).

(** The encoder proper, writing the members of a [dict] in the order they
    are stored. *)
Fixpoint render (v : json) : string :=
  match v with
  | JNull => "null"
  | JBool true => "true"
  | JBool false => "false"
  | JInt z => str_of_Z z
  | JStr s => encode_str s
  | JList xs => "[" +:+ join ", " (List.map render xs) +:+ "]"
  | JDict items =>
      "{" +:+ join ", " (List.map (fun kv => encode_str (fst kv) +:+ ": " +:+ render (snd kv))
                           items) +:+ "}"
  end.

(** Order of the members of a [dict] under [sort_keys=True]: by key. *)
Definition key_le (a b : string * json) : Prop := String.le (fst a) (fst b).

Global Instance key_le_dec : RelDecision key_le.
Proof. intros a b. unfold key_le. apply _. Defined.

Definition sort_items (items : list (string * json)) : list (string * json) :=
  merge_sort key_le items.

(** [sort_keys=True] sorts the members of every [dict], at every depth. *)
Fixpoint sort_keys (v : json) : json :=
  match v with
  | JList xs => JList (List.map sort_keys xs)
  | JDict items =>
      JDict (sort_items (List.map (fun kv => (fst kv, sort_keys (snd kv))) items))
  | _ => v
  end.

(** [json.dumps(v)] and [json.dumps(v, sort_keys=True)]. *)
Definition dumps (v : json) : string := render v.
Definition dumps_sorted (v : json) : string := render (sort_keys v).

(** Every [dict] inside [v] stores its members in key order. *)
Fixpoint keys_sorted (v : json) : Prop :=
  match v with
  | JList xs => (fix all (l : list json) : Prop :=
                   match l with [] => True | x :: l' => keys_sorted x /\ all l' end) xs
  | JDict items =>
      Sorted key_le items /\
      (fix all (l : list (string * json)) : Prop :=
         match l with [] => True | kv :: l' => keys_sorted (snd kv) /\ all l' end) items
  | _ => True
  end.

(** [dict] access as the code uses it. *)
Definition get (key : string) (v : json) : option json :=
  match v with
  | JDict items => snd <$> List.find (fun kv => String.eqb (fst kv) key) items
  | _ => None
  end.

Definition items (v : json) : option (list (string * json)) :=
  match v with
  | JDict kvs => Some kvs
  | _ => None
  end.

(** Truth value of a Python value. *)
Definition truthy (v : json) : bool :=
  match v with
  | JNull => false
  | JBool b => b
  | JInt z => negb (z =? 0)
  | JStr s => negb (String.eqb s EmptyString)
  | JList xs => negb (bool_decide (xs = []))
  | JDict kvs => match kvs with [] => false | _ => true end
  end.

End Json.

(** [str.encode('utf-8')] on code points below 256: one byte below 128, two
    bytes from 128 on. *)
Definition utf8_char (c : ascii) : string :=
  let n := N_of_ascii c in
  if (n <? 128)%N then String c EmptyString
  else String (ascii_of_N (192 + n / 64))
         (String (ascii_of_N (128 + n mod 64)) EmptyString).

Fixpoint utf8_encode (s : string) : string :=
  match s with
  | EmptyString => EmptyString
  | String c s' => utf8_char c +:+ utf8_encode s'
  end.

(** * The bulk body *)

(** One entry of the list [es_bulk] receives. *)
Record bulk_item := {
  action_and_metadata : json;
  source : json
}.

(** The two lines an item contributes. *)
Definition bulk_lines (item : bulk_item) : list string :=
  [Json.dumps_sorted (action_and_metadata item); Json.dumps_sorted (source item)].

(** [es_bulk(feed)] of core/app.py: the body as a string. *)
Definition es_bulk_str (items : list bulk_item) : string :=
  join (String Json.newline EmptyString) (flatten (List.map bulk_lines items))
    +:+ String Json.newline EmptyString.

(** [es_bulk_contents] of core/app/app_elasticsearch.py: the same, encoded. *)
Definition es_bulk_contents (items : list bulk_item) : string :=
  utf8_encode (es_bulk_str items).

(* ===================================================================== *)
(** * Awaited calls: a state and exception monad over the world *)
(* ===================================================================== *)

(** Exceptions the code raises or lets through. *)
Inductive exn :=
| Exception (text : string)
| ESMetricsUnavailable
| CancelledError
| KeyError
| TypeError
| ValueError
| IndexError
| UnboundLocalError.

Global Instance exn_eq_dec : EqDecision exn.
Proof. solve_decision. Defined.

(** How a coroutine ends: it returns, raises, or is still running when the
    fuel of the model runs out. *)
Inductive outcome (A : Type) :=
| Ret (a : A)
| Raise (e : exn)
| Hang.
Arguments Ret {A} a.
Arguments Raise {A} e.
Arguments Hang {A}.

(** The payload of a backend request, kept in the form the code builds it
    from; [payload_bytes] gives the bytes that go on the wire. *)
Inductive payload :=
| Empty
| JsonBody (v : json)
| NdJson (items : list bulk_item).

Definition payload_bytes (p : payload) : string :=
  match p with
  | Empty => EmptyString
  | JsonBody v => utf8_encode (Json.dumps v)
  | NdJson items => es_bulk_contents items
  end.

Record es_req := {
  rq_method : string;
  rq_path : string;
  rq_query : list (string * string);
  rq_headers : list (string * string);
  rq_payload : payload
}.

(** The awaits of the program. *)
Inductive call :=
| CallEs (rq : es_req)
| CallFeed (href : string) (headers : list (string * string))
| CallKvSet (key : string)
| CallKvGet (key : string)
| CallSleep (seconds : Z).

(** Ghost program counter of [ingest_feed_full]: the statement group being
    executed, named as the specification names them. *)
Inductive stage :=
| StInit | StScrub | StCreate | StPageLoop | StRefresh | StCutover | StRecordCursor.

Global Instance stage_eq_dec : EqDecision stage.
Proof. solve_decision. Defined.

Definition before_cutover (st : stage) : bool :=
  match st with
  | StCutover | StRecordCursor => false
  | _ => true
  end.

(** What the environment decides at one await: whether the await itself
    raises (a cancellation, a connection error), the status the peer answers
    with, and the data it reports. *)
Record env_step := {
  e_throw : option exn;
  e_status : Z;
  e_text : string;
  e_count : Z;
  e_max_published : option Z;
  e_page : option json
}.

(** A metric child is addressed by the metric's name and its label values. *)
Definition metric_key : Type := string * list string.

(** A value of the key-value store.  [generate_latest(registry)] is kept as
    the registry it serialises. *)
Inductive kv_value :=
| KvStr (s : string)
| KvSnapshot (registry : gmap metric_key Z).

Record world := {
  w_es : gmap string (list string);   (* backend: index name to its aliases *)
  w_kv : gmap string kv_value;        (* key-value store *)
  w_registry : gmap metric_key Z;     (* metrics registry of the process *)
  w_env : nat -> call -> env_step;    (* the environment's decisions *)
  w_clock : nat -> Z;                 (* [time.time()] after so many awaits *)
  w_name_env : nat -> name_env;       (* date, timestamp and random bytes *)
  w_trace : list call;                (* awaits so far, newest first *)
  w_stage : stage                     (* ghost *)
}.

Definition M (A : Type) : Type := world -> outcome A * world.

Definition ret {A} (a : A) : M A := fun w => (Ret a, w).
Definition raise {A} (e : exn) : M A := fun w => (Raise e, w).
Definition hang {A} : M A := fun w => (Hang, w).

Definition bind {A B} (m : M A) (k : A -> M B) : M B :=
  fun w =>
    match m w with
    | (Ret a, w') => k a w'
    | (Raise e, w') => (Raise e, w')
    | (Hang, w') => (Hang, w')
    end.

Declare Scope m_scope.
Delimit Scope m_scope with M.
Notation "x <- m ;; k" := (bind m (fun x => k))
  (at level 100, m at next level, right associativity) : m_scope.
Notation "m ;;; k" := (bind m (fun _ => k))
  (at level 100, right associativity) : m_scope.
Local Open Scope m_scope.

(** [try: m  except ESMetricsUnavailable: pass]. *)
Definition except_metrics_unavailable (m : M unit) : M unit :=
  fun w =>
    match m w with
    | (Raise ESMetricsUnavailable, w') => (Ret tt, w')
    | r => r
    end.

(** [for x in xs: body(x)]. *)
Fixpoint for_each {A} (xs : list A) (body : A -> M unit) : M unit :=
  match xs with
  | [] => ret tt
  | x :: xs' => body x ;;; for_each xs' body
  end.

(** A value that may be missing: [None] raises [e]. *)
Definition lift_option {A} (e : exn) (o : option A) : M A :=
  match o with
  | Some a => ret a
  | None => raise e
  end.

Definition set_trace (t : list call) (w : world) : world :=
  {| w_es := w_es w; w_kv := w_kv w; w_registry := w_registry w;
     w_env := w_env w; w_clock := w_clock w;
     w_name_env := w_name_env w; w_trace := t; w_stage := w_stage w |}.
Definition set_es (es : gmap string (list string)) (w : world) : world :=
  {| w_es := es; w_kv := w_kv w; w_registry := w_registry w;
     w_env := w_env w; w_clock := w_clock w;
     w_name_env := w_name_env w; w_trace := w_trace w; w_stage := w_stage w |}.
Definition set_kv (kv : gmap string kv_value) (w : world) : world :=
  {| w_es := w_es w; w_kv := kv; w_registry := w_registry w;
     w_env := w_env w; w_clock := w_clock w;
     w_name_env := w_name_env w; w_trace := w_trace w; w_stage := w_stage w |}.
Definition set_registry (r : gmap metric_key Z) (w : world) : world :=
  {| w_es := w_es w; w_kv := w_kv w; w_registry := r;
     w_env := w_env w; w_clock := w_clock w;
     w_name_env := w_name_env w; w_trace := w_trace w; w_stage := w_stage w |}.
Definition set_stage (st : stage) (w : world) : world :=
  {| w_es := w_es w; w_kv := w_kv w; w_registry := w_registry w;
     w_env := w_env w; w_clock := w_clock w;
     w_name_env := w_name_env w; w_trace := w_trace w; w_stage := st |}.

(** One await: the call is recorded and the environment's decision for it
    is read; the await raises when the environment says so. *)
Definition await (c : call) : M env_step :=
  fun w =>
    let e := w_env w (length (w_trace w)) c in
    let w' := set_trace (c :: w_trace w) w in
    match e_throw e with
    | Some ex => (Raise ex, w')
    | None => (Ret e, w')
    end.

(** [int(time.time())]. *)
Definition time_now : M Z :=
  fun w => (Ret (w_clock w (length (w_trace w))), w).

(** Ghost: entering a statement group of [ingest_feed_full]. *)
Definition enter (st : stage) : M unit :=
  fun w => (Ret tt, set_stage st w).

(* ===================================================================== *)
(** * The search backend, as the engine sees it *)
(* ===================================================================== *)

(** The backend is outside the program.  Its state is the set of indexes
    with the aliases of each; a request that the environment answers with
    status 200 is carried out on that state, any other status leaves it as
    it is.  Counts and aggregation values are the environment's. *)
Module Backend.

Record response := {
  status : Z;
  body : json;       (* what [results.json()] gives *)
  text : string      (* what [results.text()] gives *)
}.

(** Index patterns: [*] stands for any run of characters. *)
Fixpoint glob (p : string) : string -> bool :=
  match p with
  | EmptyString => fun s => match s with EmptyString => true | _ => false end
  | String c p' =>
      if Ascii.eqb c "*" then
        fix skip (s : string) : bool :=
          glob p' s || match s with
                       | EmptyString => false
                       | String _ s' => skip s'
                       end
      else
        fun s => match s with
                 | EmptyString => false
                 | String d s' => Ascii.eqb c d && glob p' s'
                 end
  end.

Definition endswith (s suf : string) : bool :=
  (String.length suf <=? String.length s)%nat &&
  String.eqb (String.substring (String.length s - String.length suf)
                (String.length suf) s) suf.

(** The body of [GET /_aliases]. *)
Definition listing (st : gmap string (list string)) : json :=
  JDict (List.map (fun entry : string * list string =>
                     (fst entry,
                      JDict [("aliases",
                              JDict (List.map (fun a : string => (a, JDict [])) (snd entry)))]))
           (map_to_list st)).

Definition str_field (key : string) (v : json) : option string :=
  match Json.get key v with
  | Some (JStr s) => Some s
  | _ => None
  end.

(** One action of [POST /_aliases]. *)
Definition alias_action (st : gmap string (list string)) (act : json)
  : gmap string (list string) :=
  match Json.get "remove" act, Json.get "add" act with
  | Some r, _ =>
      match str_field "index" r, str_field "alias" r with
      | Some p, Some a =>
          map_imap (fun name aliases =>
                      Some (if glob p name
                            then List.filter (fun x => negb (String.eqb x a)) aliases
                            else aliases)) st
      | _, _ => st
      end
  | None, Some r =>
      match str_field "index" r, str_field "alias" r with
      | Some p, Some a =>
          map_imap (fun name aliases =>
                      Some (if glob p name && negb (bool_decide (a ∈ aliases))
                            then a :: aliases
                            else aliases)) st
      | _, _ => st
      end
  | None, None => st
  end.

Definition alias_actions (st : gmap string (list string)) (p : payload)
  : gmap string (list string) :=
  match p with
  | JsonBody v =>
      match Json.get "actions" v with
      | Some (JList acts) => List.fold_left alias_action acts st
      | _ => st
      end
  | _ => st
  end.

Definition index_of_path (path : string) : string :=
  match path with
  | String "/" name => name
  | _ => path
  end.

Definition ok (b : json) : response := {| status := 200; body := b; text := EmptyString |}.
Definition failed (s : Z) : response := {| status := s; body := JNull; text := EmptyString |}.

(** A request carried out. *)
Definition serve (st : gmap string (list string)) (e : env_step) (rq : es_req)
  : gmap string (list string) * response :=
  let name := index_of_path (rq_path rq) in
  if String.eqb (rq_method rq) "GET" then
    if String.eqb (rq_path rq) "/_aliases" then (st, ok (listing st))
    else if endswith (rq_path rq) "/_count" then
      (st, ok (JDict [("count", JInt (e_count e))]))
    else
      (st, ok (JDict [("aggregations",
                 JDict [("verifier_activities",
                   JDict [("max_published",
                     JDict [("value", match e_max_published e with
                                      | Some v => JInt v
                                      | None => JNull
                                      end)])])])]))
  else if String.eqb (rq_method rq) "DELETE" then
    match st !! name with
    | Some _ => (delete name st, ok (JDict []))
    | None => (st, failed 404)
    end
  else if String.eqb (rq_method rq) "PUT" then
    match st !! name with
    | Some _ => (st, failed 400)
    | None => (<[name := []]> st, ok (JDict []))
    end
  else if String.eqb (rq_method rq) "POST" && String.eqb (rq_path rq) "/_aliases" then
    (alias_actions st (rq_payload rq), ok (JDict []))
  else (st, ok (JDict [])).

End Backend.

Import Backend.

(* ===================================================================== *)
(** * Search gateway (app_elasticsearch.py) *)
(* ===================================================================== *)

Definition json_headers : list (string * string) := [("Content-Type", "application/json")].

(** [es_request].  The signature headers of [aws_auth_headers] and the
    assembly of the URL are left out; the response is read in full before
    it is returned. *)
Definition es_request (method path : string) (query headers : list (string * string))
    (payload : payload) : M response :=
  let rq := {| rq_method := method; rq_path := path; rq_query := query;
               rq_headers := headers; rq_payload := payload |} in
  (e <- await (CallEs rq);;
   fun w =>
     if e_status e =? 200 then
       let '(st', r) := serve (w_es w) e rq in (Ret r, set_es st' w)
     else
       (Ret {| status := e_status e; body := JNull; text := e_text e |}, w))%M.

Definition es_request_non_200_exception (method path : string)
    (query headers : list (string * string)) (payload : payload) : M response :=
  (results <- es_request method path query headers payload;;
   if negb (status results =? 200) then raise (Exception (text results))
   else ret results)%M.

(** Some metrics may be unavailable since they query newly created indexes. *)
Definition es_maybe_unvailable_metrics (method path : string)
    (query headers : list (string * string)) (payload : payload) : M response :=
  (results <- es_request method path query headers payload;;
   if status results =? 503 then raise ESMetricsUnavailable
   else if negb (status results =? 200) then raise (Exception (text results))
   else ret results)%M.

(** The two comprehensions of [get_old_index_names]: the names that start
    with [activities_], split on whether [index_details['aliases']] is
    empty.  [None] stands for the [KeyError] of a missing [aliases]. *)
Fixpoint select_indexes (want_alias : bool) (indexes : list (string * json))
  : option (list string) :=
  match indexes with
  | [] => Some []
  | (index_name, index_details) :: rest =>
      if startswith index_name (ALIAS +:+ "_") then
        match Json.get "aliases" index_details, select_indexes want_alias rest with
        | Some aliases, Some names =>
            Some (if Bool.eqb (Json.truthy aliases) want_alias
                  then index_name :: names else names)
        | _, _ => None
        end
      else select_indexes want_alias rest
  end.

Definition get_old_index_names : M (list string * list string) :=
  (results <- es_request_non_200_exception "GET" "/_aliases" [] json_headers Empty;;
   indexes <- lift_option TypeError (Json.items (body results));;
   without_alias <- lift_option KeyError (select_indexes false indexes);;
   with_alias <- lift_option KeyError (select_indexes true indexes);;
   ret (without_alias, with_alias))%M.

(** The action list of the cutover. *)
Definition alias_actions_json (remove_pattern index_name : string) : json :=
  JDict [("actions",
          JList [JDict [("remove", JDict [("index", JStr remove_pattern);
                                          ("alias", JStr ALIAS)])];
                 JDict [("add", JDict [("index", JStr index_name);
                                       ("alias", JStr ALIAS)])]])].

Definition add_remove_aliases_atomically (index_name feed_unique_id : string) : M unit :=
  let remove_pattern := ALIAS +:+ "__feed_id_" +:+ feed_unique_id +:+ "__*" in
  let actions := JsonBody (alias_actions_json remove_pattern index_name) in
  (es_request_non_200_exception "POST" "/_aliases" [] json_headers actions;;;
   ret tt)%M.

Definition delete_indexes (index_names : list string) : M unit :=
  for_each index_names (fun index_name =>
    (es_request_non_200_exception "DELETE" ("/" +:+ index_name) [] json_headers Empty;;;
     ret tt)%M).

Definition index_definition : json :=
  JDict [("settings",
          JDict [("index", JDict [("number_of_shards", JInt 4);
                                  ("number_of_replicas", JInt 1);
                                  ("refresh_interval", JInt (-1))])])].

Definition create_index (index_name : string) : M unit :=
  (es_request_non_200_exception "PUT" ("/" +:+ index_name) [] json_headers
     (JsonBody index_definition);;;
   ret tt)%M.

Definition refresh_index (index_name : string) : M unit :=
  (es_request_non_200_exception "POST" ("/" +:+ index_name +:+ "/_refresh") []
     json_headers Empty;;;
   ret tt)%M.

Definition es_bulk (items : list bulk_item) : M unit :=
  match items with
  | [] => ret tt
  | _ =>
      (es_request_non_200_exception "POST" "/_bulk" []
         [("Content-Type", "application/x-ndjson")] (NdJson items);;;
       ret tt)%M
  end.

(** [(await result.json())['count']]. *)
Definition count_of (results : response) : M Z :=
  match Json.get "count" (body results) with
  | Some (JInt n) => ret n
  | Some _ => raise TypeError
  | None => raise KeyError
  end.

Definition count_query : list (string * string) := [("ignore_unavailable", "true")].

(** This metric is expected to be available. *)
Definition es_searchable_total : M Z :=
  (searchable_result <- es_request_non_200_exception "GET" ("/" +:+ ALIAS +:+ "/_count")
                          count_query json_headers Empty;;
   count_of searchable_result)%M.

Definition es_nonsearchable_total : M Z :=
  (nonsearchable_result <- es_maybe_unvailable_metrics "GET"
                             ("/" +:+ ALIAS +:+ "_*,-*" +:+ ALIAS +:+ "/_count")
                             count_query json_headers Empty;;
   count_of nonsearchable_result)%M.

Definition feed_nonsearchable_path (feed_id : string) : string :=
  "/" +:+ ALIAS +:+ "__feed_id_" +:+ feed_id +:+ "__*,-*" +:+ ALIAS +:+ "/_count".
Definition feed_total_path (feed_id : string) : string :=
  "/" +:+ ALIAS +:+ "__feed_id_" +:+ feed_id +:+ "__*/_count".

Definition es_feed_activities_total (feed_id : string) : M (Z * Z) :=
  (nonsearchable_result <- es_maybe_unvailable_metrics "GET"
                             (feed_nonsearchable_path feed_id)
                             count_query json_headers Empty;;
   nonsearchable <- count_of nonsearchable_result;;
   total_result <- es_maybe_unvailable_metrics "GET" (feed_total_path feed_id)
                     count_query json_headers Empty;;
   total <- count_of total_result;;
   let searchable := Z.max (total - nonsearchable) 0 in
   ret (searchable, nonsearchable))%M.

Definition verification_query : json :=
  JDict [("size", JInt 0);
         ("aggs", JDict [("verifier_activities",
            JDict [("filter", JDict [("term",
                      JDict [("object.type",
                              JStr "dit:activityStreamVerificationFeed:Verifier")])]);
                   ("aggs", JDict [("max_published",
                      JDict [("max", JDict [("field", JStr "published")])])])])])].

(** [result_dict['aggregations']['verifier_activities']['max_published']['value']],
    divided by 1000 and truncated, with [None] for the [KeyError] or
    [TypeError] of the lookup and of the division.  The value is taken as a
    whole number of milliseconds. *)
Definition max_published_of (result_dict : json) : option Z :=
  match Json.get "aggregations" result_dict with
  | Some a =>
      match Json.get "verifier_activities" a with
      | Some v =>
          match Json.get "max_published" v with
          | Some m =>
              match Json.get "value" m with
              | Some (JInt ms) => Some (Z.quot ms 1000)
              | _ => None
              end
          | None => None
          end
      | None => None
      end
  | None => None
  end.

Definition es_min_verification_age : M Z :=
  (result <- es_request_non_200_exception "GET" ("/" +:+ ALIAS +:+ "/_search")
               count_query json_headers (JsonBody verification_query);;
   match max_published_of (body result) with
   | Some max_published =>
       now <- time_now;;
       ret (now - max_published)
   | None =>
       (* If there aren't any activities yet, don't error *)
       raise ESMetricsUnavailable
   end)%M.

(* ===================================================================== *)
(** * Collaborators that are outside the files at hand *)
(* ===================================================================== *)

(** A feed, with the four capabilities of a feed adapter.  [next_href]
    gives [None] for a page with no next page; [convert_to_bulk_es] gives
    [None] where the adapter raises on a page it cannot read. *)
Record feed := {
  unique_id : string;
  seed : string;
  polling_page_interval : Z;
  exception_intervals : list Z;
  auth_headers : string -> list (string * string);
  next_href : json -> option string;
  convert_to_bulk_es : json -> list string -> option (list bulk_item)
}.

(** Truth value of an href: [None] and the empty string end a page walk. *)
Definition href_truthy (href : option string) : option string :=
  match href with
  | Some h => if String.eqb h EmptyString then None else Some h
  | None => None
  end.

Definition FEED_UPDATES_SEED_URL (feed_id : string) : string :=
  "feed_updates_seed_url:" +:+ feed_id.
Definition FEED_UPDATES_URL (feed_id : string) : string :=
  "feed_updates_url:" +:+ feed_id.
Definition NOT_SET : string := "__NOT_SET__".

(** A write to the key-value store. *)
Definition kv_set (key : string) (v : kv_value) : M unit :=
  (await (CallKvSet key);;;
   fun w => (Ret tt, set_kv (<[key := v]> (w_kv w)) w))%M.

(** Modelled from the spec: [set_feed_updates_seed_url_init] of app_redis
    writes the unset sentinel under [feed_updates_seed_url:<id>]. *)
Definition set_feed_updates_seed_url_init (feed_id : string) : M unit :=
  kv_set (FEED_UPDATES_SEED_URL feed_id) (KvStr NOT_SET).

(** Modelled from the spec: [set_feed_updates_seed_url] of app_redis writes
    the updates seed under [feed_updates_seed_url:<id>]. *)
Definition set_feed_updates_seed_url (feed_id updates_href : string) : M unit :=
  kv_set (FEED_UPDATES_SEED_URL feed_id) (KvStr updates_href).

(** Modelled from the spec: [set_feed_updates_url] of app_redis writes the
    href the last updates pass stopped at under [feed_updates_url:<id>]. *)
Definition set_feed_updates_url (feed_id updates_href : string) : M unit :=
  kv_set (FEED_UPDATES_URL feed_id) (KvStr updates_href).

(** Modelled from the spec: [get_feed_updates_url] of app_redis loads
    [feed_updates_url:<id>] if present, else [feed_updates_seed_url:<id>];
    with neither set it waits and retries, which in a run of one coroutine
    never ends. *)
Definition get_feed_updates_url (feed_id : string) : M string :=
  (await (CallKvGet (FEED_UPDATES_URL feed_id));;;
   fun w =>
     match w_kv w !! FEED_UPDATES_URL feed_id with
     | Some (KvStr href) => (Ret href, w)
     | _ =>
         match w_kv w !! FEED_UPDATES_SEED_URL feed_id with
         | Some (KvStr href) =>
             if String.eqb href NOT_SET then (Hang, w) else (Ret href, w)
         | _ => (Hang, w)
         end
     end)%M.

(** Modelled from the spec: [redis_set_metrics] of app_redis stores the
    serialised registry under [metrics]. *)
Definition redis_set_metrics (snapshot : gmap metric_key Z) : M unit :=
  kv_set "metrics" (KvSnapshot snapshot).

(** [generate_latest(metrics_registry)]. *)
Definition generate_latest : M (gmap metric_key Z) :=
  fun w => (Ret (w_registry w), w).

(** Modelled from the spec: [sleep] of app_utils sleeps for the interval. *)
Definition sleep (interval : Z) : M unit :=
  (await (CallSleep interval);;; ret tt)%M.

(** [asyncio.sleep]. *)
Definition asyncio_sleep (interval : Z) : M unit :=
  (await (CallSleep interval);;; ret tt)%M.

(** [metric.labels] applied to the label values: the child of the metric for these label
    values, created at zero the first time it is asked for. *)
Definition labels (metric : string) (label_values : list string) : M metric_key :=
  fun w =>
    let key := (metric, label_values) in
    match w_registry w !! key with
    | Some _ => (Ret key, w)
    | None => (Ret key, set_registry (<[key := 0]> (w_registry w)) w)
    end.

(** [child.set(value)]. *)
Definition gauge_set (child : metric_key) (value : Z) : M unit :=
  fun w => (Ret tt, set_registry (<[child := value]> (w_registry w)) w).

(* ===================================================================== *)
(** * Ingestion engine and metrics sampler (app_outgoing.py) *)
(* ===================================================================== *)

Definition EXCEPTION_INTERVALS : list Z := [1; 2; 4; 8; 16; 32; 64].
Definition METRICS_INTERVAL : Z := 1.
Definition UPDATES_INTERVAL : Z := 1.

Definition feed_unique_ids (feed_endpoints : list feed) : list string :=
  List.map unique_id feed_endpoints.

Definition get_feed_contents (href : string) (headers : list (string * string))
  : M (option json) :=
  (result <- await (CallFeed href headers);;
   if negb (e_status result =? 200) then raise (Exception (e_text result))
   else ret (e_page result))%M.

(** One page: pull, parse, convert, push.  The feed lock is held around the
    fetch only; one coroutine alone never waits for it. *)
Definition ingest_feed_page (feed : feed) (index_names : list string) (href : string)
  : M (option string) :=
  (feed_contents <- get_feed_contents href (auth_headers feed href);;
   feed_parsed <- lift_option ValueError feed_contents;;
   es_bulk_items <- lift_option KeyError (convert_to_bulk_es feed feed_parsed index_names);;
   es_bulk es_bulk_items;;;
   ret (next_href feed feed_parsed))%M.

(** [while href: updates_href = href; href = await ingest_feed_page(...);
    await sleep(...)] of the full ingest.  [updates_href] is [None] while
    the variable is unbound. *)
Fixpoint full_page_loop (fuel : nat) (feed : feed) (index_name : string)
    (href updates_href : option string) : M (option string) :=
  match href_truthy href with
  | None => ret updates_href
  | Some h =>
      match fuel with
      | O => hang
      | S fuel' =>
          (next <- ingest_feed_page feed [index_name] h;;
           sleep (polling_page_interval feed);;;
           full_page_loop fuel' feed index_name next (Some h))%M
      end
  end.

Definition new_index_name (feed_unique_id : string) : M string :=
  fun w => (Ret (get_new_index_name (w_name_env w (length (w_trace w))) feed_unique_id), w).

Definition ingest_feed_full (fuel : nat) (feed : feed) : M unit :=
  (enter StInit;;;
   set_feed_updates_seed_url_init (unique_id feed);;;
   enter StScrub;;;
   names <- get_old_index_names;;
   let indexes_without_alias := fst names in
   let indexes_to_delete := indexes_matching_feeds indexes_without_alias [unique_id feed] in
   delete_indexes indexes_to_delete;;;
   enter StCreate;;;
   index_name <- new_index_name (unique_id feed);;
   create_index index_name;;;
   enter StPageLoop;;;
   updates_href <- full_page_loop fuel feed index_name (Some (seed feed)) None;;
   enter StRefresh;;;
   refresh_index index_name;;;
   enter StCutover;;;
   add_remove_aliases_atomically index_name (unique_id feed);;;
   enter StRecordCursor;;;
   updates_href <- lift_option UnboundLocalError updates_href;;
   set_feed_updates_seed_url (unique_id feed) updates_href)%M.

(** The page walk of the updates ingest: no sleep between pages. *)
Fixpoint updates_page_loop (fuel : nat) (feed : feed) (index_names : list string)
    (href updates_href : option string) : M (option string) :=
  match href_truthy href with
  | None => ret updates_href
  | Some h =>
      match fuel with
      | O => hang
      | S fuel' =>
          (next <- ingest_feed_page feed index_names h;;
           updates_page_loop fuel' feed index_names next (Some h))%M
      end
  end.

Definition ingest_feed_updates (fuel : nat) (feed : feed) : M unit :=
  (href <- get_feed_updates_url (unique_id feed);;
   names <- get_old_index_names;;
   let indexes_without_alias := fst names in
   let indexes_with_alias := snd names in
   (* We deliberatly ingest into both the live and ingesting indexes *)
   let indexes_to_ingest_into :=
     indexes_matching_feeds (indexes_without_alias ++ indexes_with_alias)
       [unique_id feed] in
   updates_href <- updates_page_loop fuel feed indexes_to_ingest_into (Some href) None;;
   for_each (indexes_matching_feeds indexes_with_alias [unique_id feed]) refresh_index;;;
   updates_href <- lift_option UnboundLocalError updates_href;;
   set_feed_updates_url (unique_id feed) updates_href;;;
   sleep UPDATES_INTERVAL)%M.

(** What a caller passes by position. *)
Inductive argument :=
| ArgLogger
| ArgSession
| ArgEndpoint
| ArgString (s : string).

(** The call [f(arguments)] of an [async def f(parameters)] whose
    parameters have no default and that takes neither [*args] nor
    [**kwargs]: Python binds the arguments to the parameters when the call
    is evaluated, before any of the body runs, and raises [TypeError] when
    there are more or fewer arguments than parameters.  When they bind, the
    value of the call is the coroutine [body], which runs when awaited. *)
Definition call_async {A} (parameters : list string) (arguments : list argument)
    (body : M A) : M (M A) :=
  if (length arguments =? length parameters)%nat then ret body else raise TypeError.

Definition set_metric_if_can (metric : string) (label_values : list string)
    (get_value_coroutine : M Z) : M unit :=
  except_metrics_unavailable
    (child <- labels metric label_values;;
     value <- get_value_coroutine;;
     gauge_set child value)%M.

(** The body of the loop over the feeds in [poll_metrics].
    [es_feed_activities_total] is declared with the parameters [session],
    [es_endpoint] and [feed_id], and is called with the logger before
    them. *)
Definition poll_feed_metrics (feed_id : string) : M unit :=
  except_metrics_unavailable
    (totals_coroutine <- call_async ["session"; "es_endpoint"; "feed_id"]
                           [ArgLogger; ArgSession; ArgEndpoint; ArgString feed_id]
                           (es_feed_activities_total feed_id);;
     totals <- totals_coroutine;;
     let searchable := fst totals in
     let nonsearchable := snd totals in
     child <- labels "elasticsearch_feed_activities_total" [feed_id; "searchable"];;
     gauge_set child searchable;;;
     child <- labels "elasticsearch_feed_activities_total" [feed_id; "nonsearchable"];;
     gauge_set child nonsearchable)%M.

(** [poll_metrics].  [es_searchable_total], [es_nonsearchable_total] and
    [es_min_verification_age] are declared with the parameters [session] and
    [es_endpoint], without the decorator that gives the other functions of
    the gateway their logger, and are called with the logger before them.
    The arguments of [set_metric_if_can] are evaluated before it is
    called. *)
Definition poll_metrics (feed_endpoints : list feed) : M unit :=
  (searchable_coroutine <- call_async ["session"; "es_endpoint"]
                             [ArgLogger; ArgSession; ArgEndpoint] es_searchable_total;;
   searchable <- searchable_coroutine;;
   child <- labels "elasticsearch_activities_total" ["searchable"];;
   gauge_set child searchable;;;
   get_value_coroutine <- call_async ["session"; "es_endpoint"]
                            [ArgLogger; ArgSession; ArgEndpoint] es_nonsearchable_total;;
   set_metric_if_can "elasticsearch_activities_total" ["nonsearchable"]
     get_value_coroutine;;;
   get_value_coroutine <- call_async ["session"; "es_endpoint"]
                            [ArgLogger; ArgSession; ArgEndpoint] es_min_verification_age;;
   set_metric_if_can "elasticsearch_activities_age_minimum_seconds" ["verification"]
     get_value_coroutine;;;
   let feed_ids := feed_unique_ids feed_endpoints in
   for_each feed_ids poll_feed_metrics;;;
   snapshot <- generate_latest;;
   redis_set_metrics snapshot;;;
   sleep METRICS_INTERVAL)%M.

(* ===================================================================== *)
(** * Supervisor (app_utils.py) *)
(* ===================================================================== *)

(** [l[i]], with Python's negative indexes; [None] is [IndexError]. *)
Definition py_index {A} (l : list A) (i : Z) : option A :=
  let n := Z.of_nat (length l) in
  if (0 <=? i) && (i <? n) then l !! Z.to_nat i
  else if (- n <=? i) && (i <? 0) then l !! Z.to_nat (i + n)
  else None.

(** How one turn of the [while True] ends: the loop goes round again with
    the counter it then has, or it breaks. *)
Inductive loop_step :=
| Again (num_exceptions_in_chain : Z)
| Break.

(** The body of the loop of [async_repeat_until_cancelled].  The log line
    and the report to the error tracker of the handler are left out. *)
Definition loop_body (exception_intervals : list Z) (coroutine : M unit)
    (num_exceptions_in_chain : Z) : M loop_step :=
  fun w =>
    match coroutine w with
    | (Ret _, w1) => (Ret (Again 0), w1)
    | (Raise CancelledError, w1) => (Ret Break, w1)
    | (Raise _, w1) =>
        let interval_index :=
          Z.min num_exceptions_in_chain (Z.of_nat (length exception_intervals) - 1) in
        match py_index exception_intervals interval_index with
        | None => (Raise IndexError, w1)
        | Some exception_interval =>
            match asyncio_sleep exception_interval w1 with
            | (Ret _, w2) => (Ret (Again (num_exceptions_in_chain + 1)), w2)
            | (Raise CancelledError, w2) => (Ret Break, w2)
            | (Raise e, w2) => (Raise e, w2)
            | (Hang, w2) => (Hang, w2)
            end
        end
    | (Hang, w1) => (Hang, w1)
    end.

Fixpoint repeat_from (fuel : nat) (exception_intervals : list Z) (coroutine : M unit)
    (num_exceptions_in_chain : Z) : M unit :=
  match fuel with
  | O => hang
  | S fuel' =>
      (step <- loop_body exception_intervals coroutine num_exceptions_in_chain;;
       match step with
       | Again n => repeat_from fuel' exception_intervals coroutine n
       | Break => ret tt
       end)%M
  end.

Definition async_repeat_until_cancelled (fuel : nat) (exception_intervals : list Z)
    (coroutine : M unit) : M unit :=
  repeat_from fuel exception_intervals coroutine 0.

(* ===================================================================== *)
(** * The SigV4 signer of core/app.py *)
(* ===================================================================== *)

Record datetime := {
  dt_year : N; dt_month : N; dt_day : N;
  dt_hour : N; dt_minute : N; dt_second : N
}.

(** What a call of the signer finds around it: the clock, and the rest of
    the process state, none of which it reads. *)
Record signer_env := {
  utcnow : datetime;
  se_entropy : string;
  se_environ : list (string * string);
  se_calls_so_far : nat
}.

(** [now.strftime('%Y%m%d')] and [now.strftime('%Y%m%dT%H%M%SZ')]. *)
Definition strftime_date (now : datetime) : string :=
  zfill 4 (str_of_N (dt_year now)) +:+ zfill 2 (str_of_N (dt_month now))
    +:+ zfill 2 (str_of_N (dt_day now)).

Definition strftime_amz (now : datetime) : string :=
  strftime_date now +:+ "T" +:+ zfill 2 (str_of_N (dt_hour now))
    +:+ zfill 2 (str_of_N (dt_minute now)) +:+ zfill 2 (str_of_N (dt_second now))
    +:+ "Z".

Section Signer.

(** [hashlib.sha256(data).digest()] and [hmac.new(key, msg, sha256).digest()],
    on bytes. *)
Variable sha256 : string -> string.
Variable hmac_sha256 : string -> string -> string.

Definition nl : string := String Json.newline EmptyString.

Definition es_bulk_auth_headers (env : signer_env)
    (access_key secret_key region host path payload : string)
  : list (string * string) :=
  let service := "es" in
  let method := "POST" in
  let signed_headers := "content-type;host;x-amz-date" in
  let algorithm := "AWS4-HMAC-SHA256" in
  let now := utcnow env in
  let amzdate := strftime_amz now in
  let datestamp := strftime_date now in
  let credential_scope :=
    datestamp +:+ "/" +:+ region +:+ "/" +:+ service +:+ "/aws4_request" in
  let canonical_request :=
    let canonical_uri := path in
    let canonical_querystring := EmptyString in
    let canonical_headers :=
      "content-type:application/x-ndjson" +:+ nl +:+
      "host:" +:+ host +:+ nl +:+ "x-amz-date:" +:+ amzdate +:+ nl in
    let payload_hash := hex (sha256 payload) in
    method +:+ nl +:+ canonical_uri +:+ nl +:+ canonical_querystring +:+ nl +:+
    canonical_headers +:+ nl +:+ signed_headers +:+ nl +:+ payload_hash in
  let sign := fun (key msg : string) => hmac_sha256 key (utf8_encode msg) in
  let string_to_sign :=
    algorithm +:+ nl +:+ amzdate +:+ nl +:+ credential_scope +:+ nl +:+
    hex (sha256 (utf8_encode canonical_request)) in
  let date_key := sign (utf8_encode ("AWS4" +:+ secret_key)) datestamp in
  let region_key := sign date_key region in
  let service_key := sign region_key service in
  let request_key := sign service_key "aws4_request" in
  let signature := hex (sign request_key string_to_sign) in
  [("x-amz-date", amzdate);
   ("Authorization",
    algorithm +:+ " Credential=" +:+ access_key +:+ "/" +:+ credential_scope +:+ ", " +:+
    "SignedHeaders=" +:+ signed_headers +:+ ", Signature=" +:+ signature)].

End Signer.

(** [headers[name]]. *)
Definition header (name : string) (headers : list (string * string)) : option string :=
  snd <$> List.find (fun kv => String.eqb (fst kv) name) headers.

(* ===================================================================== *)
(** * Vocabulary of the properties *)
(* ===================================================================== *)

(** A string with no newline in it. *)
Abbreviation nl_free s := (has_char Json.newline s = false).

(** A [GET] of a count, as the sampler issues it. *)
Definition count_request (path : string) : call :=
  CallEs {| rq_method := "GET"; rq_path := path; rq_query := count_query;
            rq_headers := json_headers; rq_payload := Empty |}.

(** The request of the cutover. *)
Definition aliases_request (remove_pattern index_name : string) : call :=
  CallEs {| rq_method := "POST"; rq_path := "/_aliases"; rq_query := [];
            rq_headers := json_headers;
            rq_payload := JsonBody (alias_actions_json remove_pattern index_name) |}.

(** The requests of the gateway, as they appear in the trace. *)
Definition listing_request : call :=
  CallEs {| rq_method := "GET"; rq_path := "/_aliases"; rq_query := [];
            rq_headers := json_headers; rq_payload := Empty |}.

Definition bulk_request (items : list bulk_item) : call :=
  CallEs {| rq_method := "POST"; rq_path := "/_bulk"; rq_query := [];
            rq_headers := [("Content-Type", "application/x-ndjson")];
            rq_payload := NdJson items |}.

(** A fetch of a page of a feed. *)
Definition is_fetch (c : call) : bool :=
  match c with
  | CallFeed _ _ => true
  | _ => false
  end.

(** An alias operation: a [POST] to [/_aliases]. *)
Definition is_alias_post (c : call) : bool :=
  match c with
  | CallEs rq => String.eqb (rq_method rq) "POST" && String.eqb (rq_path rq) "/_aliases"
  | _ => false
  end.

(** A bulk request. *)
Definition is_bulk_post (c : call) : bool :=
  match c with
  | CallEs rq => String.eqb (rq_method rq) "POST" && String.eqb (rq_path rq) "/_bulk"
  | _ => false
  end.

(** An await that is neither a fetch nor a bulk request. *)
Definition quiet (c : call) : Prop := is_fetch c = false /\ is_bulk_post c = false.

(** From [w] to [w'] the trace grew by awaits that all satisfy [P]. *)
Definition trace_extends (P : call -> Prop) (w w' : world) : Prop :=
  exists new, w_trace w' = new ++ w_trace w /\ Forall P new.

(** The indexes that are in an alias, with the aliases of each, are the same
    in [w] and [w']. *)
Definition same_aliased (w w' : world) : Prop :=
  forall index_name aliases, aliases <> [] ->
    (w_es w' !! index_name = Some aliases <-> w_es w !! index_name = Some aliases).

(** Between [w] and [w'] no alias operation was issued, and the indexes
    that are in an alias are the same. *)
Definition alias_untouched (w w' : world) : Prop :=
  trace_extends (fun c => is_alias_post c = false) w w' /\ same_aliased w w'.

(** A bulk request of an updates pass of [feed] carries the conversion of a
    page for the index names [targets]. *)
Definition bulk_fans_out_to (feed : feed) (targets : list string) (c : call) : Prop :=
  is_bulk_post c = true ->
  exists page items,
    c = CallEs {| rq_method := "POST"; rq_path := "/_bulk"; rq_query := [];
                  rq_headers := [("Content-Type", "application/x-ndjson")];
                  rq_payload := NdJson items |} /\
    convert_to_bulk_es feed page targets = Some items.

(** What a fetch of a page of [feed], answered this way, gives to post for
    the index names [targets]: the conversion of the page, when the fetch
    went through with status 200, the page could be read and converted, and
    the conversion is not empty. *)
Definition page_to_post (feed : feed) (targets : list string) (answer : env_step)
  : option (list bulk_item) :=
  match e_throw answer with
  | Some _ => None
  | None =>
      if e_status answer =? 200 then
        match e_page answer with
        | Some page =>
            match convert_to_bulk_es feed page targets with
            | Some (item :: items) => Some (item :: items)
            | _ => None
            end
        | None => None
        end
      else None
  end.

(** [fanned_out feed targets env n calls]: in [calls], awaits in the order
    they were made, the first of them the await number [n] of a run in the
    environment [env], every fetch is of a page of [feed]; a fetch whose
    answer gives items to post for [targets] is followed at once by the bulk
    request that carries them, and there is no other bulk request. *)
Inductive fanned_out (feed : feed) (targets : list string) (env : nat -> call -> env_step)
  : nat -> list call -> Prop :=
| fanned_done n :
    fanned_out feed targets env n []
| fanned_other n c calls :
    is_fetch c = false -> is_bulk_post c = false ->
    fanned_out feed targets env (S n) calls ->
    fanned_out feed targets env n (c :: calls)
| fanned_nothing n href calls :
    page_to_post feed targets (env n (CallFeed href (auth_headers feed href))) = None ->
    fanned_out feed targets env (S n) calls ->
    fanned_out feed targets env n (CallFeed href (auth_headers feed href) :: calls)
| fanned_items n href items calls :
    page_to_post feed targets (env n (CallFeed href (auth_headers feed href))) = Some items ->
    fanned_out feed targets env (S (S n)) calls ->
    fanned_out feed targets env n
      (CallFeed href (auth_headers feed href) :: bulk_request items :: calls).

(** The environment is the same in [w] and [w']. *)
Definition same_env (w w' : world) : Prop := w_env w' = w_env w.

(** From [w] to [w'] the environment is the same, and the awaits made in
    between fan the pages of [feed] out to [targets]. *)
Definition pages_posted (feed : feed) (targets : list string) (w w' : world) : Prop :=
  w_env w' = w_env w /\
  exists new,
    w_trace w' = new ++ w_trace w /\
    fanned_out feed targets (w_env w) (length (w_trace w)) (List.rev new).

(** The index names a listing of the backend [st] gives: those that start
    with [activities_] and have an alias ([want_alias]) or have none. *)
Definition listed (st : gmap string (list string)) (want_alias : bool) : list string :=
  match Json.items (listing st) with
  | Some indexes => default [] (select_indexes want_alias indexes)
  | None => []
  end.

(** [keeps R m]: whatever [m] does and however it ends, the world it leaves
    is related by [R] to the world it started in. *)
Definition keeps (R : world -> world -> Prop) {A} (m : M A) : Prop :=
  forall w, R w (snd (m w)).

(** [hoare R I m Q]: started in a world where [I] holds, [m] leaves a world
    related by [R] to it, and when it returns [a] in [w'], [Q a w'] holds. *)
Definition hoare (R : world -> world -> Prop) (I : world -> Prop) {A} (m : M A)
    (Q : A -> world -> Prop) : Prop :=
  forall w, I w ->
    R w (snd (m w)) /\ forall a w', m w = (Ret a, w') -> Q a w'.

(** The answer of the environment to a call is [200] with this count. *)
Definition answers_count (e : env_step) (n : Z) : Prop :=
  e_throw e = None /\ e_status e = 200 /\ e_count e = n.

(** The answer of the environment to a call is the status [503]. *)
Definition answers_503 (e : env_step) : Prop :=
  e_throw e = None /\ e_status e = 503.

(** An environment in which every await goes through: status 200, with the
    given count. *)
Definition calm_env (count : nat -> Z) : nat -> call -> env_step :=
  fun n _ => {| e_throw := None; e_status := 200; e_text := EmptyString;
                e_count := count n; e_max_published := None; e_page := None |}.

(** A world to run examples in: the given backend and environment, an empty
    store, an empty registry and no history. *)
Definition world_of (es : gmap string (list string)) (env : nat -> call -> env_step)
  : world :=
  {| w_es := es; w_kv := ∅; w_registry := ∅; w_env := env;
     w_clock := fun _ => 1520400000;
     w_name_env := fun _ => {| env_today := {| year := 2018; month := 3; day := 7 |};
                               env_timestamp := 1520400000;
                               env_urandom := "abcde" |};
     w_trace := []; w_stage := StInit |}.

(** The stage of [w'] is at or past the cutover if that of [w] is. *)
Definition stays_late (w w' : world) : Prop :=
  before_cutover (w_stage w) = false -> before_cutover (w_stage w') = false.

(** Modelled from the spec: the activity-stream adapter of app_feeds, for
    the examples.  [next_href] is the page's [next_url] if it has one, and
    [convert_to_bulk_es] gives one index action per activity of
    [orderedItems] and per index name. *)
Definition example_next_href (page : json) : option string :=
  match Json.get "next_url" page with
  | Some (JStr href) => Some href
  | _ => None
  end.

Definition example_convert (page : json) (index_names : list string)
  : option (list bulk_item) :=
  match Json.get "orderedItems" page with
  | Some (JList activities) =>
      Some (flatten (List.map (fun activity =>
              List.map (fun index_name =>
                {| action_and_metadata :=
                     JDict [("index", JDict [("_id", default JNull (Json.get "id" activity));
                                             ("_index", JStr index_name);
                                             ("_type", JStr "_doc")])];
                   source := activity |}) index_names) activities))
  | _ => None
  end.

Definition example_feed : feed :=
  {| unique_id := "F1"; seed := "http://feed/1"; polling_page_interval := 0;
     exception_intervals := EXCEPTION_INTERVALS;
     auth_headers := fun _ => [("Authorization", "Hawk")];
     next_href := example_next_href;
     convert_to_bulk_es := example_convert |}.

(** The two pages of the example feed: [a] and [b], then [c]. *)
Definition example_page1 : json :=
  JDict [("orderedItems", JList [JDict [("id", JStr "a")]; JDict [("id", JStr "b")]]);
         ("next_url", JStr "http://feed/2")].
Definition example_page2 : json :=
  JDict [("orderedItems", JList [JDict [("id", JStr "c")]])].

(** An environment that serves the example feed and answers every request
    with 200, but for the await number [fail_at], answered with 500. *)
Definition example_env (fail_at : nat) : nat -> call -> env_step :=
  fun n c =>
    {| e_throw := None;
       e_status := if (n =? fail_at)%nat then 500 else 200;
       e_text := "boom"; e_count := 0; e_max_published := None;
       e_page := match c with
                 | CallFeed "http://feed/1" _ => Some example_page1
                 | CallFeed _ _ => Some example_page2
                 | _ => None
                 end |}.

(** A backend with one live index of feed [F1]. *)
Definition example_backend : gmap string (list string) :=
  {[ "activities__feed_id_F1__old"%string := ["activities"%string] ]}.

(** How a run of the task ended, in a turn of the supervisor's loop that
    another turn follows. *)
Inductive turn :=
| Fails (e : exn)
| Returns.

(** [turns_from s c k w turns k' w']: started in [w] with [k] failures in a
    row behind it, the task [c] runs once for each entry of [turns] and ends
    as the entry says, with no cancellation.  After a failure, the [j]-th in
    a row, a sleep of [s[min(j-1, len(s)-1)]] seconds goes through before
    the next run; after a return the next run follows at once.  In the end
    the task has failed [k'] times in a row and the world is [w']. *)
Fixpoint turns_from (s : list Z) (c : M unit) (k : nat) (w : world) (turns : list turn)
    (k' : nat) (w' : world) : Prop :=
  match turns with
  | [] => k' = k /\ w' = w
  | Fails e :: rest =>
      e <> CancelledError /\
      exists w1 interval w2,
        c w = (Raise e, w1) /\
        py_index s (Z.min (Z.of_nat (S k) - 1) (Z.of_nat (length s) - 1)) = Some interval /\
        asyncio_sleep interval w1 = (Ret tt, w2) /\
        turns_from s c (S k) w2 rest k' w'
  | Returns :: rest =>
      exists w1, c w = (Ret tt, w1) /\ turns_from s c 0 w1 rest k' w'
  end.

(** A task for the examples: it fails, but for the run that starts after
    two awaits, which sleeps and returns. *)
Definition example_task : M unit :=
  fun w =>
    if (length (w_trace w) =? 2)%nat then sleep 5 w
    else raise (Exception "boom") w.




(** Answers for a sampling pass: every request is answered with 200 and the
    count 7, but for the count of the documents of feed [F1] outside the
    alias, answered with 503. *)
Definition example_answers : call -> env_step :=
  fun c =>
    {| e_throw := None;
       e_status := match c with
                   | CallEs rq =>
                       if String.eqb (rq_path rq) (feed_nonsearchable_path "F1")
                       then 503 else 200
                   | _ => 200
                   end;
       e_text := "unavailable"; e_count := 7; e_max_published := None;
       e_page := None |}.

(* ===================================================================== *)
(** * The rest of the engine: start-up, the read side, the first layout *)
(* ===================================================================== *)

(** ** Start-up of the ingestion (app_outgoing.py) *)

(** [ingest_feeds]: the indexes that belong to no configured feed are
    deleted, then the loops of the feeds are started.  The
    [asyncio.gather] of the supervised loops is [feed_loops]; what matters
    here is what happens before it starts. *)
Definition ingest_feeds (feed_endpoints : list feed) (feed_loops : M unit) : M unit :=
  let all_feed_ids := feed_unique_ids feed_endpoints in
  (names <- get_old_index_names;;
   let indexes_without_alias := fst names in
   let indexes_with_alias := snd names in
   let indexes_to_delete :=
     indexes_matching_no_feeds (indexes_without_alias ++ indexes_with_alias)
       all_feed_ids in
   delete_indexes indexes_to_delete;;;
   feed_loops)%M.

(** ** The read side of the search gateway (app_elasticsearch.py) *)

(** [v[key]] for a string key: [KeyError] on a dict without the key,
    [TypeError] on a value that cannot be subscripted by a string. *)
Definition subscript (v : json) (key : string) : M json :=
  match v with
  | JDict _ => lift_option KeyError (Json.get key v)
  | _ => raise TypeError
  end.

(** [v.get(key, d)].  On a value that is no dict Python raises
    [AttributeError]; [exn] has no name for it and the model raises
    [TypeError] there. *)
Definition dict_get_default (v : json) (key : string) (d : json) : M json :=
  match v with
  | JDict _ => ret (default d (Json.get key v))
  | _ => raise TypeError
  end.

(** [for item in v]: the members of a list, the keys of a dict, the
    characters of a string; [None] is the [TypeError] of a value that is not
    iterable. *)
Definition iterate (v : json) : option (list json) :=
  match v with
  | JList xs => Some xs
  | JDict kvs => Some (List.map (fun kv => JStr (fst kv)) kvs)
  | JStr s => Some (List.map (fun c => JStr (String c EmptyString)) (list_ascii_of_string s))
  | _ => None
  end.

(** [[item['_source'] for item in items]]. *)
Fixpoint sources_of (items : list json) : M (list json) :=
  match items with
  | [] => ret []
  | item :: rest =>
      (s <- subscript item "_source";;
       ss <- sources_of rest;;
       ret (s :: ss))%M
  end.

Definition AS_CONTEXT : json :=
  JList [JStr "https://www.w3.org/ns/activitystreams";
         JDict [("dit", JStr "https://www.trade.gov.uk/ns/activitystreams/v1")]].

Definition activities (elasticsearch_reponse : json)
    (to_public_scroll_url : json -> M string) : M json :=
  (hits_object <- subscript elasticsearch_reponse "hits";;
   elasticsearch_hits <- dict_get_default hits_object "hits" (JList []);;
   private_scroll_id <- subscript elasticsearch_reponse "_scroll_id";;
   next_dict <- (if Json.truthy elasticsearch_hits
                 then (url <- to_public_scroll_url private_scroll_id;;
                       ret [("next"%string, JStr url)])
                 else ret []);;
   items <- lift_option TypeError (iterate elasticsearch_hits);;
   ordered_items <- sources_of items;;
   ret (JDict ([("@context"%string, AS_CONTEXT);
                ("orderedItems"%string, JList ordered_items);
                ("type"%string, JStr "Collection")] ++ next_dict)))%M.

(** ** core/app.py: the loop around a feed in the first layout *)

Module CoreApp.

Definition POLLING_INTERVAL : Z := 5.
Definition EXCEPTION_INTERVAL : Z := 60.

(** [repeat_even_on_exception]: whatever the run of the coroutine did, the
    [finally] clause sleeps, and the loop goes round.  The log lines are
    left out. *)
Fixpoint repeat_even_on_exception (fuel : nat) (never_ending_coroutine : M unit)
  : M unit :=
  match fuel with
  | O => hang
  | S fuel' =>
      fun w =>
        match never_ending_coroutine w with
        | (Hang, w1) => (Hang, w1)
        | (_, w1) =>
            (asyncio_sleep EXCEPTION_INTERVAL;;;
             repeat_even_on_exception fuel' never_ending_coroutine)%M w1
        end
  end.

End CoreApp.

(** ** core/app_utils.py: dictionaries *)

Module CoreAppUtils.

(** [str.lower] on the code points below 256: the letters [A-Z] and the
    capital letters of Latin-1 ([U+00C0] to [U+00DE] but for the
    multiplication sign) move up by 32. *)
Definition lower_char (c : ascii) : ascii :=
  let n := N_of_ascii c in
  if ((65 <=? n) && (n <=? 90))%N then ascii_of_N (n + 32)
  else if ((192 <=? n) && (n <=? 222) && negb (n =? 215))%N then ascii_of_N (n + 32)
  else c.

Fixpoint lower (s : string) : string :=
  match s with
  | EmptyString => EmptyString
  | String c s' => String (lower_char c) (lower s')
  end.

(** [sub_dict_lower]: [None] is the [KeyError] of a key that [super_dict]
    does not have. *)
Definition sub_dict_lower {V} (super_dict : gmap string V) (keys : list string)
  : option (gmap string V) :=
  List.fold_left
    (fun acc key =>
       match acc, super_dict !! key with
       | Some d, Some v => Some (<[lower key := v]> d)
       | _, _ => None
       end)
    keys (Some ∅).

(** [extract_keys]: the values of [keys], in order, and the dictionary
    without them.  [None] is the [KeyError] of a key that [dictionary] does
    not have. *)
Definition extract_keys {V} (dictionary : gmap string V) (keys : list string)
  : option (gmap string V * list V) :=
  match mapM (fun key => dictionary !! key) keys with
  | Some extracted =>
      let without_keys :=
        filter (fun kv => fst kv ∉ keys) dictionary in
      Some (without_keys, extracted)
  | None => None
  end.

End CoreAppUtils.

(** ** core/tests_utils.py: collecting until a condition holds *)

Module TestsUtils.

(** The state [append_until] closes over: the list [all_data] and the
    future, whose result, once set, is that list. *)
Record collector (A : Type) := {
  all_data : list A;
  future_done : bool
}.
Arguments all_data {A} c.
Arguments future_done {A} c.

Definition append_until {A} : collector A :=
  {| all_data := []; future_done := false |}.

(** [append(data)]; [None] is the [InvalidStateError] of
    [future.set_result] on a future that is done, which leaves the state as
    it was. *)
Definition append {A} (condition : list A -> bool) (data : A) (c : collector A)
  : option (collector A) :=
  let c1 := if future_done c then c
            else {| all_data := all_data c ++ [data]; future_done := false |} in
  if condition (all_data c1) then
    if future_done c1 then None
    else Some {| all_data := all_data c1; future_done := true |}
  else Some c1.

(** A run of calls of [append], each called from the event loop, which
    logs what a callback raises and goes on. *)
Definition appends {A} (condition : list A -> bool) (datas : list A) (c : collector A)
  : collector A :=
  List.fold_left (fun c data => default c (append condition data c)) datas c.

End TestsUtils.

(* ===================================================================== *)
(** * Vocabulary of the further properties *)
(* ===================================================================== *)

(** More requests of the gateway, as they appear in the trace. *)
Definition delete_request (index_name : string) : call :=
  CallEs {| rq_method := "DELETE"; rq_path := "/" +:+ index_name; rq_query := [];
            rq_headers := json_headers; rq_payload := Empty |}.

(** The requests for the deletion of [index_names], made one after the
    other from [w], all return, and leave [w']. *)
Fixpoint deletes_return (index_names : list string) (w w' : world) : Prop :=
  match index_names with
  | [] => w' = w
  | index_name :: rest =>
      exists results w1,
        es_request_non_200_exception "DELETE" ("/" +:+ index_name) [] json_headers Empty w =
          (Ret results, w1) /\
        deletes_return rest w1 w'
  end.

Definition refresh_request (index_name : string) : call :=
  CallEs {| rq_method := "POST"; rq_path := "/" +:+ index_name +:+ "/_refresh";
            rq_query := []; rq_headers := json_headers; rq_payload := Empty |}.

(** [s.isascii()]. *)
Fixpoint ascii_only (s : string) : bool :=
  match s with
  | EmptyString => true
  | String c s' => (N_of_ascii c <? 128)%N && ascii_only s'
  end.

(** A call that is a refresh of one of [targets], or no refresh at all. *)
Definition refreshes_only (targets : list string) (c : call) : Prop :=
  forall rq, c = CallEs rq -> rq_method rq = "POST"%string ->
    endswith (rq_path rq) "/_refresh" = true ->
    exists index_name, index_name ∈ targets /\ c = refresh_request index_name.

(** A feed with an empty seed, for the examples. *)
Definition example_feed_no_seed : feed :=
  {| unique_id := "F1"; seed := EmptyString; polling_page_interval := 0;
     exception_intervals := EXCEPTION_INTERVALS;
     auth_headers := fun _ => [("Authorization", "Hawk")];
     next_href := example_next_href;
     convert_to_bulk_es := example_convert |}.

Definition create_request (index_name : string) : call :=
  CallEs {| rq_method := "PUT"; rq_path := "/" +:+ index_name; rq_query := [];
            rq_headers := json_headers; rq_payload := JsonBody index_definition |}.

(** The href of the newest fetch of a feed page in a trace. *)
Fixpoint last_fetch (trace : list call) : option string :=
  match trace with
  | [] => None
  | CallFeed href _ :: _ => Some href
  | _ :: older => last_fetch older
  end.

(** A call that neither creates nor deletes an index nor touches an
    alias. *)
Definition leaves_index_set (c : call) : bool :=
  match c with
  | CallEs rq =>
      negb (String.eqb (rq_method rq) "DELETE") &&
      negb (String.eqb (rq_method rq) "PUT") &&
      negb (is_alias_post c)
  | _ => true
  end.

(** The stage and the key-value store are the same in [w] and [w']. *)
Definition same_stage_kv (w w' : world) : Prop :=
  w_stage w' = w_stage w /\ w_kv w' = w_kv w.

(** A computation that, started before the cursor stage with the seed
    cursor of the feed still unset, can end raising in the cursor stage in
    one way only: with [UnboundLocalError], the request of the cutover being
    the newest await and the seed cursor still unset. *)
Definition late_raise_is_unbound (feed_id : string) {A} (c : M A) : Prop :=
  forall w e w',
    w_stage w <> StRecordCursor ->
    w_kv w !! FEED_UPDATES_SEED_URL feed_id = Some (KvStr NOT_SET) ->
    c w = (Raise e, w') -> w_stage w' = StRecordCursor ->
    e = UnboundLocalError /\
    (exists index_name,
       hd_error (w_trace w') =
         Some (aliases_request ("activities__feed_id_" +:+ feed_id +:+ "__*") index_name)) /\
    w_kv w' !! FEED_UPDATES_SEED_URL feed_id = Some (KvStr NOT_SET).

(* ===================================================================== *)
(** * Properties *)
(* ===================================================================== *)

Local Open Scope m_scope.

(* String concatenation computes on a constructor in what follows. *)
Local Arguments String.append !s1 s2 : simpl nomatch.

(** ** Strings *)

Section StringFacts.

Implicit Types (a b s t : string) (c : ascii).

Lemma append_assoc a b s : (a +:+ b) +:+ s = a +:+ (b +:+ s).
Proof. induction a as [|x a IH]; simpl; [reflexivity | now rewrite IH]. Qed.

Lemma has_char_app c a b : has_char c (a +:+ b) = has_char c a || has_char c b.
Proof.
  induction a as [|x a IH]; simpl; [reflexivity|].
  rewrite IH. now rewrite orb_assoc.
Qed.

Lemma count_char_app c a b :
  count_char c (a +:+ b) = (count_char c a + count_char c b)%nat.
Proof. induction a as [|x a IH]; simpl; [reflexivity | rewrite IH; lia]. Qed.

Lemma startswith_app a s t : startswith (a +:+ s) (a +:+ t) = startswith s t.
Proof.
  induction a as [|x a IH]; simpl; [reflexivity|].
  now rewrite Ascii.eqb_refl.
Qed.






Lemma hex_digit_not c n :
  has_char c "0123456789abcdef" = false -> Ascii.eqb c (hex_digit n) = false.
Proof.
  intros H. simpl in H.
  repeat (apply orb_false_iff in H as [? H]).
  destruct n as [|p]; [assumption|].
  do 4 (try destruct p as [p|p|]; try assumption).
Qed.

Lemma has_char_hex c s :
  has_char c "0123456789abcdef" = false -> has_char c (hex s) = false.
Proof.
  intros H. induction s as [|x s IH]; simpl; [reflexivity|].
  now rewrite !hex_digit_not, IH.
Qed.

Lemma has_char_uint c (u : Decimal.uint) :
  has_char c "0123456789" = false -> has_char c (NilEmpty.string_of_uint u) = false.
Proof.
  intros H. simpl in H. repeat (apply orb_false_iff in H as [? H]).
  induction u; simpl; rewrite ?IHu; try reflexivity;
    match goal with |- ?x || false = false => rewrite orb_false_r; assumption end.
Qed.




End StringFacts.

(** ** Index names and the feed marker *)

Lemma has_char_cons c a s : has_char c (String a s) = Ascii.eqb c a || has_char c s.
Proof. reflexivity. Qed.

Lemma startswith_cons x y s t :
  startswith (String y s) (String x t) = Ascii.eqb x y && startswith s t.
Proof. reflexivity. Qed.








(** ** JSON rendering and the bulk body *)

Section JsonFacts.

(** Induction over a JSON value, with the hypotheses for the members of a
    list and of a dictionary. *)
Lemma json_ind_nested (P : json -> Prop) :
  P JNull -> (forall b, P (JBool b)) -> (forall z, P (JInt z)) ->
  (forall s, P (JStr s)) ->
  (forall xs, Forall P xs -> P (JList xs)) ->
  (forall items, Forall (fun kv => P (snd kv)) items -> P (JDict items)) ->
  forall v, P v.
Proof.
  intros Hnull Hbool Hint Hstr Hlist Hdict.
  fix IH 1. intros [ | b | z | s | xs | items].
  - exact Hnull.
  - apply Hbool.
  - apply Hint.
  - apply Hstr.
  - apply Hlist. induction xs as [|x xs IHxs]; constructor; [apply IH | exact IHxs].
  - apply Hdict. induction items as [|[k x] items IHitems]; constructor;
      [apply IH | exact IHitems].
Qed.

Lemma escape_char_nl_free c : nl_free (Json.escape_char c).
Proof. destruct c as [[] [] [] [] [] [] [] []]; reflexivity. Qed.

Lemma escape_nl_free s : nl_free (Json.escape s).
Proof.
  induction s as [|c s IH]; [reflexivity|].
  cbn [Json.escape]. now rewrite has_char_app, escape_char_nl_free, IH.
Qed.

Lemma encode_str_nl_free s : nl_free (Json.encode_str s).
Proof.
  unfold Json.encode_str. rewrite has_char_cons, has_char_app, escape_nl_free.
  reflexivity.
Qed.

Lemma str_of_Z_nl_free z : nl_free (str_of_Z z).
Proof.
  unfold str_of_Z, NilZero.string_of_int.
  destruct (Z.to_int z) as [u | u].
  - unfold NilZero.string_of_uint. destruct u; try (apply has_char_uint; reflexivity).
    reflexivity.
  - rewrite has_char_cons. unfold NilZero.string_of_uint.
    destruct u; try (rewrite has_char_uint by reflexivity; reflexivity).
    reflexivity.
Qed.

Lemma join_nl_free sep parts :
  nl_free sep -> Forall (fun p => nl_free p) parts -> nl_free (join sep parts).
Proof.
  intros Hsep H. induction H as [|p ps Hp Hps IH]; [reflexivity|].
  destruct ps as [|q ps]; [exact Hp|].
  change (join sep (p :: q :: ps)) with (p +:+ sep +:+ join sep (q :: ps)).
  now rewrite !has_char_app, Hp, Hsep, IH.
Qed.

Lemma render_nl_free v : nl_free (Json.render v).
Proof.
  induction v as [ | [] | z | s | xs IH | items IH] using json_ind_nested;
    try reflexivity.
  - apply str_of_Z_nl_free.
  - apply encode_str_nl_free.
  - cbn [Json.render]. rewrite !has_char_app, join_nl_free; try reflexivity.
    apply Forall_map. exact IH.
  - cbn [Json.render]. rewrite !has_char_app, join_nl_free; try reflexivity.
    apply Forall_map. eapply Forall_impl; [exact IH|].
    intros [k x] Hx. cbn [fst snd] in *.
    now rewrite !has_char_app, encode_str_nl_free, Hx.
Qed.

Lemma count_char_absent c s : has_char c s = false -> count_char c s = O.
Proof.
  induction s as [|a s IH]; [reflexivity|].
  rewrite has_char_cons. intros [Ha Hs]%orb_false_iff.
  cbn [count_char]. now rewrite Ha, IH.
Qed.

(** Joining [n] lines free of the separator character puts [n - 1] of it in
    the result. *)
Lemma count_join_lines c parts :
  Forall (fun p => has_char c p = false) parts ->
  count_char c (join (String c EmptyString) parts) = (length parts - 1)%nat.
Proof.
  intros H. induction H as [|p ps Hp Hps IH]; [reflexivity|].
  destruct ps as [|q ps].
  - cbn. now apply count_char_absent.
  - change (join (String c EmptyString) (p :: q :: ps))
      with (p +:+ String c EmptyString +:+ join (String c EmptyString) (q :: ps)).
    rewrite !count_char_app, IH, (count_char_absent _ _ Hp).
    cbn [count_char length]. rewrite Ascii.eqb_refl. lia.
Qed.

Lemma utf8_char_newlines c :
  count_char Json.newline (utf8_char c) = count_char Json.newline (String c EmptyString).
Proof. destruct c as [[] [] [] [] [] [] [] []]; reflexivity. Qed.

Lemma utf8_encode_newlines s :
  count_char Json.newline (utf8_encode s) = count_char Json.newline s.
Proof.
  induction s as [|c s IH]; [reflexivity|].
  cbn [utf8_encode]. rewrite count_char_app, utf8_char_newlines, IH.
  cbn [count_char]. lia.
Qed.

Lemma utf8_encode_app s t : utf8_encode (s +:+ t) = utf8_encode s +:+ utf8_encode t.
Proof.
  induction s as [|c s IH]; [reflexivity|].
  cbn [utf8_encode String.append]. now rewrite IH, append_assoc.
Qed.

Lemma ends_with_char_app c s : ends_with_char c (s +:+ String c EmptyString) = true.
Proof.
  induction s as [|a s IH]; cbn [String.append ends_with_char].
  - apply Ascii.eqb_refl.
  - destruct s; [cbn; apply Ascii.eqb_refl | exact IH].
Qed.

(** The members of a dictionary, as [keys_sorted] asks of them. *)
Lemma keys_sorted_list xs :
  Json.keys_sorted (JList xs) <-> Forall Json.keys_sorted xs.
Proof.
  cbn [Json.keys_sorted]. induction xs as [|x xs IH].
  - split; [constructor | trivial].
  - rewrite Forall_cons, <- IH. reflexivity.
Qed.

Lemma keys_sorted_dict items :
  Json.keys_sorted (JDict items) <->
  Sorted Json.key_le items /\ Forall (fun kv => Json.keys_sorted (snd kv)) items.
Proof.
  cbn [Json.keys_sorted].
  assert (E : (fix all (l : list (string * json)) : Prop :=
                 match l with
                 | [] => True
                 | kv :: l' => Json.keys_sorted (snd kv) /\ all l'
                 end) items <-> Forall (fun kv => Json.keys_sorted (snd kv)) items).
  { induction items as [|kv items IH].
    - split; [constructor | trivial].
    - rewrite Forall_cons, <- IH. reflexivity. }
  rewrite E. reflexivity.
Qed.

Global Instance key_le_total : Total Json.key_le.
Proof. intros a b. unfold Json.key_le. apply total, _. Qed.

(** [sort_keys] leaves every dictionary of the value in key order. *)
Lemma sort_keys_sorted v : Json.keys_sorted (Json.sort_keys v).
Proof.
  induction v as [ | b | z | s | xs IH | items IH] using json_ind_nested;
    try exact I.
  - cbn [Json.sort_keys]. apply keys_sorted_list, Forall_map. exact IH.
  - cbn [Json.sort_keys]. apply keys_sorted_dict. split.
    + apply Sorted_merge_sort, _.
    + unfold Json.sort_items. rewrite merge_sort_Permutation.
      apply Forall_map. eapply Forall_impl; [exact IH|]. intros [k x] Hx. exact Hx.
Qed.

End JsonFacts.

(** ** The body that [es_bulk] sends *)

Lemma bulk_lines_render items :
  flatten (List.map bulk_lines items) =
  List.map Json.render
    (flatten (List.map (fun item => [Json.sort_keys (action_and_metadata item);
                                     Json.sort_keys (source item)]) items)).
Proof.
  unfold flatten. induction items as [|item items IH]; [reflexivity|].
  cbn [List.map List.concat]. rewrite IH. reflexivity.
Qed.

Lemma bulk_lines_length items :
  length (flatten (List.map bulk_lines items)) = (2 * length items)%nat.
Proof.
  unfold flatten. induction items as [|item items IH]; [reflexivity|].
  cbn [List.map List.concat length bulk_lines app]. rewrite IH. lia.
Qed.

Lemma bulk_lines_nl_free items :
  Forall (fun p => has_char Json.newline p = false) (flatten (List.map bulk_lines items)).
Proof.
  unfold flatten. induction items as [|item items IH]; [constructor|].
  cbn [List.map List.concat bulk_lines app].
  repeat constructor; try apply render_nl_free. exact IH.
Qed.

(** Every request the gateway makes is one await, recorded in the trace. *)
Lemma es_request_trace method path query headers payload w :
  w_trace (snd (es_request method path query headers payload w)) =
  CallEs {| rq_method := method; rq_path := path; rq_query := query;
            rq_headers := headers; rq_payload := payload |} :: w_trace w.
Proof.
  unfold es_request, bind, await.
  destruct (e_throw _); [reflexivity|].
  destruct (e_status _ =? 200); [|reflexivity].
  destruct (serve _ _ _). reflexivity.
Qed.

Lemma non_200_trace method path query headers payload w :
  w_trace (snd (es_request_non_200_exception method path query headers payload w)) =
  CallEs {| rq_method := method; rq_path := path; rq_query := query;
            rq_headers := headers; rq_payload := payload |} :: w_trace w.
Proof.
  unfold es_request_non_200_exception, bind.
  pose proof (es_request_trace method path query headers payload w) as H.
  destruct (es_request method path query headers payload w) as [[r | e | ] w'];
    cbn [snd] in *; try exact H.
  destruct (negb _); exact H.
Qed.

(** C1, as the claim states it, fails: one item gives two newlines, not
    three. *)
Lemma bulk_body_newlines_counterexample :
  ~ (forall items : list bulk_item, items <> [] ->
       count_char Json.newline (es_bulk_contents items) = (2 * length items + 1)%nat).
Proof.
  intros H.
  specialize (H [{| action_and_metadata := JDict [("index", JDict [("_index", JStr "i");
                                                                    ("_id", JStr "a")])];
                    source := JDict [("id", JStr "a")] |}]).
  assert (Hne : forall x : bulk_item, [x] <> []) by discriminate.
  specialize (H (Hne _)). vm_compute in H. discriminate.
Qed.

(** C1 (amended): for a non-empty list of [n] items, [es_bulk] sends one
    request to [/_bulk] whose body has exactly [2n] newlines and ends with a
    newline, and whose lines are the items' action and source objects, in
    order, each rendered with the keys of every dictionary sorted. *)
Theorem bulk_body_format (items : list bulk_item) (w : world) :
  items <> [] ->
  let body := es_bulk_contents items in
  (exists rq, w_trace (snd (es_bulk items w)) = CallEs rq :: w_trace w /\
              rq_method rq = "POST"%string /\ rq_path rq = "/_bulk"%string /\
              payload_bytes (rq_payload rq) = body) /\
  count_char Json.newline body = (2 * length items)%nat /\
  ends_with_char Json.newline body = true /\
  body = utf8_encode (es_bulk_str items) /\
  exists lines,
    lines = flatten (List.map (fun item => [Json.sort_keys (action_and_metadata item);
                                            Json.sort_keys (source item)]) items) /\
    Forall Json.keys_sorted lines /\
    es_bulk_str items =
      join (String Json.newline EmptyString) (List.map Json.render lines)
        +:+ String Json.newline EmptyString.
Proof.
  intros Hne body. repeat split.
  - destruct items as [|item items]; [congruence|].
    eexists. split.
    { unfold es_bulk, bind.
      pose proof (non_200_trace "POST" "/_bulk" [] [("Content-Type", "application/x-ndjson")]
                    (NdJson (item :: items)) w) as H.
      destruct (es_request_non_200_exception _ _ _ _ _ w) as [[r | e | ] w'];
        cbn [snd ret] in *; exact H. }
    repeat split; reflexivity.
  - unfold body, es_bulk_contents, es_bulk_str.
    rewrite utf8_encode_newlines, count_char_app, count_join_lines
      by apply bulk_lines_nl_free.
    rewrite bulk_lines_length. cbn [count_char]. rewrite Ascii.eqb_refl.
    destruct items; [congruence|]. cbn [length]. lia.
  - unfold body, es_bulk_contents, es_bulk_str.
    rewrite utf8_encode_app. apply ends_with_char_app.
  - eexists. split; [reflexivity|]. split.
    + unfold flatten. induction items as [|item items' IH]; [constructor|].
      cbn [List.map List.concat app]. repeat constructor; try apply sort_keys_sorted.
      destruct items' as [|i2 items'']; [constructor|]. apply IH. discriminate.
    + unfold es_bulk_str. now rewrite bulk_lines_render.
Qed.

Lemma bulk_body_format_witness :
  let items := [{| action_and_metadata := JDict [("index", JDict [("_index", JStr "i");
                                                                   ("_id", JStr "a")])];
                   source := JDict [("type", JStr "Create"); ("id", JStr "a")] |}] in
  items <> [] /\
  count_char Json.newline (es_bulk_contents items) = (2 * length items)%nat.
Proof.
  intros items.
  assert (Hne : items <> []) by discriminate.
  split; [exact Hne|].
  exact (proj1 (proj2 (bulk_body_format items
    {| w_es := ∅; w_kv := ∅; w_registry := ∅;
       w_env := fun _ _ => {| e_throw := None; e_status := 200; e_text := EmptyString;
                              e_count := 0; e_max_published := None; e_page := None |};
       w_clock := fun _ => 0;
       w_name_env := fun _ => {| env_today := {| year := 2018; month := 3; day := 7 |};
                                 env_timestamp := 0; env_urandom := EmptyString |};
       w_trace := []; w_stage := StInit |} Hne))).
Defined.

(** ** The monad *)

Lemma set_es_same w : set_es (w_es w) w = w.
Proof. destruct w; reflexivity. Qed.

Lemma bind_ret_inv {A B} (m : M A) (k : A -> M B) w b w' :
  bind m k w = (Ret b, w') ->
  exists a w1, m w = (Ret a, w1) /\ k a w1 = (Ret b, w').
Proof.
  unfold bind. destruct (m w) as [[a | e | ] w1]; intros H; try discriminate.
  eauto.
Qed.

Lemma bind_raise_inv {A B} (m : M A) (k : A -> M B) w e w' :
  bind m k w = (Raise e, w') ->
  m w = (Raise e, w') \/ exists a w1, m w = (Ret a, w1) /\ k a w1 = (Raise e, w').
Proof.
  unfold bind. destruct (m w) as [[a | e1 | ] w1]; intros H; try discriminate.
  - right. eauto.
  - left. congruence.
Qed.

Lemma bind_step {A B} (m : M A) (k : A -> M B) w a w1 :
  m w = (Ret a, w1) -> bind m k w = k a w1.
Proof. intros H. unfold bind. now rewrite H. Qed.

Lemma bind_raise_step {A B} (m : M A) (k : A -> M B) w e w1 :
  m w = (Raise e, w1) -> bind m k w = (Raise e, w1).
Proof. intros H. unfold bind. now rewrite H. Qed.

Lemma bind_cases {A B} (m : M A) (k : A -> M B) w :
  bind m k w =
  match m w with
  | (Ret a, w1) => k a w1
  | (Raise e, w1) => (Raise e, w1)
  | (Hang, w1) => (Hang, w1)
  end.
Proof. reflexivity. Qed.

(** A served [GET] leaves the backend as it is. *)
Lemma serve_get_state st e path query headers payload :
  fst (serve st e {| rq_method := "GET"; rq_path := path; rq_query := query;
                     rq_headers := headers; rq_payload := payload |}) = st.
Proof.
  unfold serve. cbn [rq_method rq_path String.eqb Ascii.eqb Bool.eqb].
  destruct (String.eqb path "/_aliases"); [reflexivity|].
  destruct (endswith path "/_count"); reflexivity.
Qed.

(** ** The cutover request *)

(** C3: for every feed id and every new index name, the cutover is one
    request, a [POST] to [/_aliases], whose action list removes the pattern
    [activities__feed_id_<id>__*] from the alias [activities] and adds the
    new index to it; nothing else is awaited. *)
Theorem cutover_is_one_request (index_name feed_unique_id : string) (w : world) :
  w_trace (snd (add_remove_aliases_atomically index_name feed_unique_id w)) =
    aliases_request ("activities__feed_id_" +:+ feed_unique_id +:+ "__*") index_name
      :: w_trace w /\
  alias_actions_json ("activities__feed_id_" +:+ feed_unique_id +:+ "__*") index_name =
    JDict [("actions",
            JList [JDict [("remove",
                           JDict [("index", JStr ("activities__feed_id_" +:+ feed_unique_id
                                                    +:+ "__*"));
                                  ("alias", JStr "activities")])];
                   JDict [("add",
                           JDict [("index", JStr index_name);
                                  ("alias", JStr "activities")])]])].
Proof.
  split; [|reflexivity].
  unfold add_remove_aliases_atomically, bind.
  pose proof (non_200_trace "POST" "/_aliases" [] json_headers
                (JsonBody (alias_actions_json
                             (ALIAS +:+ "__feed_id_" +:+ feed_unique_id +:+ "__*")
                             index_name)) w) as H.
  destruct (es_request_non_200_exception _ _ _ _ _ w) as [[r | e | ] w'];
    cbn [snd ret] in *; exact H.
Qed.

(** ** Counts *)

Lemma length_app s t : String.length (s +:+ t) = (String.length s + String.length t)%nat.
Proof. induction s as [|c s IH]; cbn [String.append String.length]; [reflexivity | now rewrite IH]. Qed.

Lemma substring_all t : String.substring 0 (String.length t) t = t.
Proof. induction t as [|c t IH]; cbn [String.length String.substring]; [reflexivity | now rewrite IH]. Qed.

Lemma substring_tail s t :
  String.substring (String.length s) (String.length t) (s +:+ t) = t.
Proof.
  induction s as [|c s IH]; cbn [String.append String.length String.substring].
  - apply substring_all.
  - exact IH.
Qed.

Lemma endswith_app s suf : endswith (s +:+ suf) suf = true.
Proof.
  unfold endswith. rewrite length_app.
  replace (String.length s + String.length suf - String.length suf)%nat
    with (String.length s) by lia.
  rewrite substring_tail, String.eqb_refl.
  apply andb_true_iff. split; [|reflexivity]. apply Nat.leb_le. lia.
Qed.

Lemma count_path_not_aliases path :
  endswith path "/_count" = true -> String.eqb path "/_aliases" = false.
Proof.
  intros H. destruct (String.eqb_spec path "/_aliases") as [-> | _]; [|reflexivity].
  vm_compute in H. discriminate.
Qed.

(** What a count through [es_maybe_unvailable_metrics] comes to, by the
    answer of the environment. *)
Lemma maybe_unavailable_count_ok path n w :
  endswith path "/_count" = true ->
  answers_count (w_env w (length (w_trace w)) (count_request path)) n ->
  bind (es_maybe_unvailable_metrics "GET" path count_query json_headers Empty) count_of w
  = (Ret n, set_trace (count_request path :: w_trace w) w).
Proof.
  intros Hpath (Hthrow & Hstatus & Hcount).
  unfold es_maybe_unvailable_metrics, es_request, bind, await, count_request in *.
  rewrite Hthrow, Hstatus. cbn [Z.eqb Pos.eqb].
  unfold serve. cbn [rq_method rq_path String.eqb Ascii.eqb Bool.eqb].
  rewrite (count_path_not_aliases _ Hpath), Hpath.
  cbn. rewrite Hcount. reflexivity.
Qed.

Lemma maybe_unavailable_count_503 path w :
  answers_503 (w_env w (length (w_trace w)) (count_request path)) ->
  bind (es_maybe_unvailable_metrics "GET" path count_query json_headers Empty) count_of w
  = (Raise ESMetricsUnavailable, set_trace (count_request path :: w_trace w) w).
Proof.
  intros (Hthrow & Hstatus).
  unfold es_maybe_unvailable_metrics, es_request, bind, await, count_request in *.
  rewrite Hthrow, Hstatus. reflexivity.
Qed.

Lemma non_200_count_ok path n w :
  endswith path "/_count" = true ->
  answers_count (w_env w (length (w_trace w)) (count_request path)) n ->
  bind (es_request_non_200_exception "GET" path count_query json_headers Empty) count_of w
  = (Ret n, set_trace (count_request path :: w_trace w) w).
Proof.
  intros Hpath (Hthrow & Hstatus & Hcount).
  unfold es_request_non_200_exception, es_request, bind, await, count_request in *.
  rewrite Hthrow, Hstatus. cbn [Z.eqb Pos.eqb].
  unfold serve. cbn [rq_method rq_path String.eqb Ascii.eqb Bool.eqb].
  rewrite (count_path_not_aliases _ Hpath), Hpath.
  cbn. rewrite Hcount. reflexivity.
Qed.

Lemma bind_assoc {A B C} (m : M A) (k : A -> M B) (h : B -> M C) w :
  bind (bind m k) h w = bind m (fun a => bind (k a) h) w.
Proof. unfold bind. destruct (m w) as [[a | e | ] w1]; reflexivity. Qed.

Lemma feed_paths_count feed_id :
  endswith (feed_nonsearchable_path feed_id) "/_count" = true /\
  endswith (feed_total_path feed_id) "/_count" = true.
Proof.
  unfold feed_nonsearchable_path, feed_total_path. split.
  - replace ("/" +:+ ALIAS +:+ "__feed_id_" +:+ feed_id +:+ "__*,-*" +:+ ALIAS +:+ "/_count")
      with (("/" +:+ ALIAS +:+ "__feed_id_" +:+ feed_id +:+ "__*,-*" +:+ ALIAS) +:+ "/_count").
    + apply endswith_app.
    + now rewrite !append_assoc.
  - replace ("/" +:+ ALIAS +:+ "__feed_id_" +:+ feed_id +:+ "__*/_count")
      with (("/" +:+ ALIAS +:+ "__feed_id_" +:+ feed_id +:+ "__*") +:+ "/_count").
    + apply endswith_app.
    + now rewrite !append_assoc.
Qed.

(** The per-feed totals when both counts are answered. *)
Lemma feed_totals_ok feed_id n t w :
  let w1 := set_trace (count_request (feed_nonsearchable_path feed_id) :: w_trace w) w in
  answers_count (w_env w (length (w_trace w))
                   (count_request (feed_nonsearchable_path feed_id))) n ->
  answers_count (w_env w (S (length (w_trace w)))
                   (count_request (feed_total_path feed_id))) t ->
  es_feed_activities_total feed_id w =
    (Ret (Z.max (t - n) 0, n),
     set_trace (count_request (feed_total_path feed_id) :: w_trace w1) w1).
Proof.
  intros w1 Hn Ht. unfold es_feed_activities_total.
  destruct (feed_paths_count feed_id) as [Hp1 Hp2].
  rewrite <- bind_assoc.
  unfold bind at 1.
  rewrite (maybe_unavailable_count_ok _ n w Hp1 Hn).
  rewrite <- bind_assoc. unfold bind at 1.
  fold w1. rewrite (maybe_unavailable_count_ok _ t w1 Hp2 Ht).
  reflexivity.
Qed.

(** C10: the searchable count of a feed is never negative.  Whatever the
    backend answers, a returned searchable count is at least zero; and when
    both counts are answered, with [n] documents outside the alias and [t]
    in all, the function returns [max (t - n) 0], which is zero when [n]
    exceeds [t]. *)
Theorem feed_searchable_never_negative (feed_id : string) (w : world) :
  (forall searchable nonsearchable w',
     es_feed_activities_total feed_id w = (Ret (searchable, nonsearchable), w') ->
     0 <= searchable) /\
  (forall n t,
     answers_count (w_env w (length (w_trace w))
                      (count_request (feed_nonsearchable_path feed_id))) n ->
     answers_count (w_env w (S (length (w_trace w)))
                      (count_request (feed_total_path feed_id))) t ->
     exists searchable,
       fst (es_feed_activities_total feed_id w) = Ret (searchable, n) /\
       searchable = Z.max (t - n) 0 /\ 0 <= searchable /\
       (t < n -> searchable = 0)).
Proof.
  split.
  - intros s ns w' H. unfold es_feed_activities_total in H.
    repeat (apply bind_ret_inv in H as (? & ? & _ & H)).
    unfold ret in H. injection H as <- _ _. lia.
  - intros n t Hn Ht. exists (Z.max (t - n) 0).
    rewrite (feed_totals_ok feed_id n t w Hn Ht). cbn [fst].
    repeat split; lia.
Qed.

Lemma feed_searchable_never_negative_witness :
  let w := world_of ∅ (calm_env (fun n => if (n =? 0)%nat then 5 else 3)) in
  answers_count (w_env w (length (w_trace w))
                   (count_request (feed_nonsearchable_path "F1"))) 5 /\
  answers_count (w_env w (S (length (w_trace w)))
                   (count_request (feed_total_path "F1"))) 3 /\
  exists searchable,
    fst (es_feed_activities_total "F1" w) = Ret (searchable, 5) /\
    searchable = Z.max (3 - 5) 0 /\ 0 <= searchable /\ (3 < 5 -> searchable = 0).
Proof.
  intros w.
  assert (H1 : answers_count (w_env w (length (w_trace w))
                                (count_request (feed_nonsearchable_path "F1"))) 5)
    by (repeat split; reflexivity).
  assert (H2 : answers_count (w_env w (S (length (w_trace w)))
                                (count_request (feed_total_path "F1"))) 3)
    by (repeat split; reflexivity).
  split; [exact H1|]. split; [exact H2|].
  exact (proj2 (feed_searchable_never_negative "F1" w) 5 3 H1 H2).
Defined.

(** ** The supervisor *)

Lemma py_index_in_range {A} (l : list A) (i : Z) :
  0 <= i < Z.of_nat (length l) -> exists x, py_index l i = Some x.
Proof.
  intros [H0 H1]. unfold py_index.
  assert (E : (0 <=? i) && (i <? Z.of_nat (length l)) = true).
  { apply andb_true_iff. split; [apply Z.leb_le | apply Z.ltb_lt]; lia. }
  rewrite E. apply lookup_lt_is_Some. lia.
Qed.

Lemma backoff_index_in_range (s : list Z) (n : Z) :
  s <> [] -> 0 <= n ->
  0 <= Z.min n (Z.of_nat (length s) - 1) < Z.of_nat (length s).
Proof. intros Hs Hn. destruct s; [congruence|]. cbn [length]. lia. Qed.

Lemma asyncio_sleep_trace interval w :
  w_trace (snd (asyncio_sleep interval w)) = CallSleep interval :: w_trace w.
Proof.
  unfold asyncio_sleep, bind, await. destruct (e_throw _); reflexivity.
Qed.

(** One turn in which the task fails, with the counter at [k]: the await
    that follows is the sleep of [s[min(k, len(s)-1)]] seconds, and when it
    goes through the loop goes round with the counter at [k+1]. *)
Lemma repeat_from_failure fuel s coroutine (k : nat) w e w1 :
  s <> [] -> coroutine w = (Raise e, w1) -> e <> CancelledError ->
  exists interval,
    py_index s (Z.min (Z.of_nat (S k) - 1) (Z.of_nat (length s) - 1)) = Some interval /\
    w_trace (snd (repeat_from 1 s coroutine (Z.of_nat k) w)) =
      CallSleep interval :: w_trace w1 /\
    forall w2, asyncio_sleep interval w1 = (Ret tt, w2) ->
      repeat_from (S fuel) s coroutine (Z.of_nat k) w =
        repeat_from fuel s coroutine (Z.of_nat (S k)) w2.
Proof.
  intros Hs Hrun Hne.
  replace (Z.of_nat (S k) - 1) with (Z.of_nat k) by lia.
  destruct (py_index_in_range s _ (backoff_index_in_range s (Z.of_nat k) Hs (Zle_0_nat k)))
    as [interval Hidx].
  exists interval. split; [exact Hidx|].
  pose proof (asyncio_sleep_trace interval w1) as Htr.
  split.
  - cbn [repeat_from]. unfold bind, loop_body. rewrite Hrun, Hidx.
    destruct e; try congruence;
      destruct (asyncio_sleep interval w1) as [[[] | e2 | ] w2]; cbn [snd] in *;
      try exact Htr; destruct e2; exact Htr.
  - intros w2 Hsleep. cbn [repeat_from]. unfold bind at 1. unfold loop_body.
    rewrite Hrun, Hidx, Hsleep.
    replace (Z.of_nat k + 1) with (Z.of_nat (S k)) by lia.
    destruct e; try congruence; reflexivity.
Qed.

(** One turn in which the task returns: the loop goes round at once, with
    the counter at zero. *)
Lemma repeat_from_success fuel s coroutine n w w1 :
  coroutine w = (Ret tt, w1) ->
  repeat_from (S fuel) s coroutine n w = repeat_from fuel s coroutine 0 w1.
Proof.
  intros Hrun. cbn [repeat_from]. unfold bind at 1. unfold loop_body.
  now rewrite Hrun.
Qed.

Lemma repeat_from_turns s coroutine turns :
  s <> [] ->
  forall k w k' w' fuel,
    turns_from s coroutine k w turns k' w' ->
    repeat_from (length turns + fuel) s coroutine (Z.of_nat k) w =
      repeat_from fuel s coroutine (Z.of_nat k') w'.
Proof.
  intros Hs. induction turns as [|[e|] turns IH]; intros k w k' w' fuel H;
    cbn [turns_from] in H.
  - destruct H as [-> ->]. reflexivity.
  - destruct H as (Hne & w1 & interval & w2 & Hrun & Hidx & Hsleep & H).
    cbn [length Nat.add].
    destruct (repeat_from_failure (length turns + fuel) s coroutine k w e w1 Hs Hrun Hne)
      as (interval' & Hidx' & _ & Hstep).
    rewrite Hidx in Hidx'. injection Hidx' as <-.
    rewrite (Hstep w2 Hsleep). now apply IH.
  - destruct H as (w1 & Hrun & H). cbn [length Nat.add].
    rewrite (repeat_from_success _ _ _ _ _ _ Hrun).
    now apply (IH 0%nat).
Qed.

(** C4: with a non-empty schedule [s], take any run of the supervisor, from
    its start, through turns in which the task failed or returned, each
    failure, the [j]-th in a row, having been followed by the sleep of
    [s[min(j-1, len(s)-1)]] seconds: the supervisor is then at the head of
    its loop with the counter at the number [k] of failures in a row, zero
    after a return of the task.  If the task fails once more, for the
    [k+1]-th time in a row, the next await of the supervisor is the sleep of
    [s[min((k+1)-1, len(s)-1)]] seconds, after which the counter is [k+1];
    if the task returns, the loop goes round at once with the counter at
    zero. *)
Theorem backoff_follows_schedule (s : list Z) (coroutine : M unit) (turns : list turn)
    (k : nat) (w w' : world) :
  s <> [] ->
  turns_from s coroutine 0 w turns k w' ->
  (forall fuel,
     async_repeat_until_cancelled (length turns + fuel) s coroutine w =
       repeat_from fuel s coroutine (Z.of_nat k) w') /\
  (forall e w1,
     coroutine w' = (Raise e, w1) -> e <> CancelledError ->
     exists interval,
       py_index s (Z.min (Z.of_nat (S k) - 1) (Z.of_nat (length s) - 1)) = Some interval /\
       w_trace (snd (async_repeat_until_cancelled (length turns + 1) s coroutine w)) =
         CallSleep interval :: w_trace w1 /\
       forall w2 fuel,
         asyncio_sleep interval w1 = (Ret tt, w2) ->
         async_repeat_until_cancelled (length turns + S fuel) s coroutine w =
           repeat_from fuel s coroutine (Z.of_nat (S k)) w2) /\
  (forall w1 fuel,
     coroutine w' = (Ret tt, w1) ->
     async_repeat_until_cancelled (length turns + S fuel) s coroutine w =
       repeat_from fuel s coroutine 0 w1).
Proof.
  intros Hs H. unfold async_repeat_until_cancelled.
  assert (Hturns : forall fuel,
            repeat_from (length turns + fuel) s coroutine 0 w =
              repeat_from fuel s coroutine (Z.of_nat k) w').
  { intros fuel. exact (repeat_from_turns s coroutine turns Hs 0%nat w k w' fuel H). }
  split; [exact Hturns|]. split.
  - intros e w1 Hrun Hne.
    destruct (repeat_from_failure 0 s coroutine k w' e w1 Hs Hrun Hne)
      as (interval & Hidx & Htr & _).
    exists interval. split; [exact Hidx|]. split; [now rewrite Hturns|].
    intros w2 fuel Hsleep. rewrite Hturns.
    destruct (repeat_from_failure fuel s coroutine k w' e w1 Hs Hrun Hne)
      as (interval' & Hidx' & _ & Hstep).
    rewrite Hidx in Hidx'. injection Hidx' as <-. exact (Hstep w2 Hsleep).
  - intros w1 fuel Hrun. rewrite Hturns. now apply repeat_from_success.
Qed.

Lemma backoff_follows_schedule_witness :
  let w := world_of ∅ (calm_env (fun _ => 0)) in
  let boom := Exception "boom" in
  let w' := set_trace (List.map CallSleep [1; 5; 2; 1]) w in
  EXCEPTION_INTERVALS <> [] /\
  turns_from EXCEPTION_INTERVALS example_task 0 w
    [Fails boom; Fails boom; Returns; Fails boom] 1 w' /\
  async_repeat_until_cancelled 4 EXCEPTION_INTERVALS example_task w = (Hang, w') /\
  w_trace (snd (async_repeat_until_cancelled 5 EXCEPTION_INTERVALS example_task w)) =
    List.map CallSleep [2; 1; 5; 2; 1].
Proof.
  intros w boom w'.
  assert (Hs : EXCEPTION_INTERVALS <> []) by discriminate.
  assert (Hne : boom <> CancelledError) by discriminate.
  assert (Ht : turns_from EXCEPTION_INTERVALS example_task 0 w
                 [Fails boom; Fails boom; Returns; Fails boom] 1 w').
  { cbn [turns_from].
    split; [exact Hne|]. eexists _, _, _. split; [reflexivity|].
    split; [reflexivity|]. split; [reflexivity|].
    split; [exact Hne|]. eexists _, _, _. split; [reflexivity|].
    split; [reflexivity|]. split; [reflexivity|].
    eexists. split; [reflexivity|].
    split; [exact Hne|]. eexists _, _, _. split; [reflexivity|].
    split; [reflexivity|]. split; [reflexivity|].
    split; reflexivity. }
  destruct (backoff_follows_schedule EXCEPTION_INTERVALS example_task _ 1 w w' Hs Ht)
    as (Hrun & Hfail & _).
  split; [exact Hs|]. split; [exact Ht|]. split; [exact (Hrun 0%nat)|].
  destruct (Hfail boom w' eq_refl Hne) as (interval & Hidx & Htr & _).
  injection Hidx as <-. exact Htr.
Defined.

(** Nine failures in a row under the schedule of the feeds' supervisors:
    the sleeps are of 1, 2, 4, 8, 16, 32, 64, 64 and 64 seconds. *)
Example nine_failures_in_a_row :
  w_trace (snd (async_repeat_until_cancelled 9 EXCEPTION_INTERVALS
                  (raise (Exception "boom")) (world_of ∅ (calm_env (fun _ => 0))))) =
  List.rev (List.map CallSleep [1; 2; 4; 8; 16; 32; 64; 64; 64]).
Proof. reflexivity. Qed.

(** The schedule of the feeds' supervisors: 1, 2, 4, ..., 64, 64, 64. *)
Example backoff_sequence :
  List.map (fun k => py_index EXCEPTION_INTERVALS
                       (Z.min (Z.of_nat k - 1) (Z.of_nat (length EXCEPTION_INTERVALS) - 1)))
    [1; 2; 3; 4; 5; 6; 7; 8; 9]%nat
  = List.map Some [1; 2; 4; 8; 16; 32; 64; 64; 64].
Proof. reflexivity. Qed.

(** C7: in any turn of the loop, whatever the counter and the world, a
    cancellation delivered while the task runs makes the supervisor return
    in the world the cancellation left, and so does a cancellation delivered
    during the backoff sleep: no task run, retry or sleep follows. *)
Theorem cancellation_ends_supervisor (s : list Z) (coroutine : M unit)
    (fuel : nat) (n : Z) (w : world) :
  (forall w1,
     coroutine w = (Raise CancelledError, w1) ->
     repeat_from (S fuel) s coroutine n w = (Ret tt, w1)) /\
  (forall e w1 interval w2,
     coroutine w = (Raise e, w1) -> e <> CancelledError ->
     py_index s (Z.min n (Z.of_nat (length s) - 1)) = Some interval ->
     asyncio_sleep interval w1 = (Raise CancelledError, w2) ->
     repeat_from (S fuel) s coroutine n w = (Ret tt, w2) /\
     w_trace w2 = CallSleep interval :: w_trace w1).
Proof.
  split.
  - intros w1 Hrun. cbn [repeat_from]. unfold bind, loop_body. rewrite Hrun. reflexivity.
  - intros e w1 interval w2 Hrun Hne Hidx Hsleep. split.
    + cbn [repeat_from]. unfold bind, loop_body. rewrite Hrun, Hidx, Hsleep.
      destruct e; try congruence; reflexivity.
    + pose proof (asyncio_sleep_trace interval w1) as H. now rewrite Hsleep in H.
Qed.

Lemma cancellation_ends_supervisor_witness :
  let w := world_of ∅ (calm_env (fun _ => 0)) in
  let task : M unit := raise CancelledError in
  task w = (Raise CancelledError, w) /\
  repeat_from 3 EXCEPTION_INTERVALS task 0 w = (Ret tt, w).
Proof.
  intros w task. split; [reflexivity|].
  exact (proj1 (cancellation_ends_supervisor EXCEPTION_INTERVALS task 2 0 w) w eq_refl).
Defined.

(** ** The signer *)

(** C9: two calls of the signer with the same inputs and the same clock
    reading return the same headers, whatever else differs around them; the
    headers are [x-amz-date] and [Authorization]. *)
Theorem signer_deterministic (sha256 : string -> string)
    (hmac_sha256 : string -> string -> string) (env1 env2 : signer_env)
    (access_key secret_key region host path payload : string) :
  utcnow env1 = utcnow env2 ->
  let run1 := es_bulk_auth_headers sha256 hmac_sha256 env1
                access_key secret_key region host path payload in
  let run2 := es_bulk_auth_headers sha256 hmac_sha256 env2
                access_key secret_key region host path payload in
  run1 = run2 /\
  header "x-amz-date" run1 = header "x-amz-date" run2 /\
  header "Authorization" run1 = header "Authorization" run2 /\
  header "x-amz-date" run1 = Some (strftime_amz (utcnow env1)) /\
  List.map fst run1 = ["x-amz-date"; "Authorization"]%string.
Proof.
  intros Hclock run1 run2.
  assert (E : run1 = run2).
  { unfold run1, run2, es_bulk_auth_headers. rewrite Hclock. reflexivity. }
  rewrite <- E. repeat split; reflexivity.
Qed.

Lemma signer_deterministic_witness :
  let now := {| dt_year := 2018; dt_month := 3; dt_day := 7;
                dt_hour := 9; dt_minute := 5; dt_second := 0 |} in
  let env1 := {| utcnow := now; se_entropy := "abc"; se_environ := [];
                 se_calls_so_far := 0 |} in
  let env2 := {| utcnow := now; se_entropy := "xyz"; se_environ := [("PORT", "8080")];
                 se_calls_so_far := 1 |} in
  utcnow env1 = utcnow env2 /\
  es_bulk_auth_headers (fun d => d) (fun k m => k +:+ m) env1
    "some-id" "aws-secret" "us-east-2" "127.0.0.1" "/_bulk" "{}"
  = es_bulk_auth_headers (fun d => d) (fun k m => k +:+ m) env2
      "some-id" "aws-secret" "us-east-2" "127.0.0.1" "/_bulk" "{}".
Proof.
  intros now env1 env2. split; [reflexivity|].
  exact (proj1 (signer_deterministic (fun d => d) (fun k m => k +:+ m) env1 env2
                  "some-id" "aws-secret" "us-east-2" "127.0.0.1" "/_bulk" "{}" eq_refl)).
Defined.

(** ** Traces of runs *)

Section Keeps.

Context (R : world -> world -> Prop) `{!PreOrder R}.

Lemma keeps_ret {A} (a : A) : keeps R (ret a).
Proof. intros w. reflexivity. Qed.

Lemma keeps_raise {A} e : keeps R (@raise A e).
Proof. intros w. reflexivity. Qed.

Lemma keeps_hang {A} : keeps R (@hang A).
Proof. intros w. reflexivity. Qed.

Lemma keeps_lift_option {A} e (o : option A) : keeps R (lift_option e o).
Proof. destruct o; [apply keeps_ret | apply keeps_raise]. Qed.

Lemma keeps_bind {A B} (m : M A) (k : A -> M B) :
  keeps R m -> (forall a, keeps R (k a)) -> keeps R (bind m k).
Proof.
  intros Hm Hk w. unfold bind. specialize (Hm w).
  destruct (m w) as [[a | e | ] w1]; cbn [snd] in *; try exact Hm.
  etransitivity; [exact Hm | apply Hk].
Qed.

Lemma keeps_for_each {A} (xs : list A) (body : A -> M unit) :
  (forall x, keeps R (body x)) -> keeps R (for_each xs body).
Proof.
  intros H. induction xs as [|x xs IH]; cbn [for_each].
  - apply keeps_ret.
  - apply keeps_bind; [apply H | intros _; exact IH].
Qed.

Lemma keeps_except {m : M unit} : keeps R m -> keeps R (except_metrics_unavailable m).
Proof.
  intros H w. unfold except_metrics_unavailable. specialize (H w).
  destruct (m w) as [[[] | [] | ] w1]; exact H.
Qed.

Lemma keeps_hoare {A} (m : M A) : keeps R m -> hoare R (fun _ => True) m (fun _ _ => True).
Proof. intros H w _. split; [apply H | trivial]. Qed.

Lemma hoare_bind {A B} (I : world -> Prop) (m : M A) (Q : A -> world -> Prop)
    (k : A -> M B) (Q' : B -> world -> Prop) :
  hoare R I m Q -> (forall a, hoare R (Q a) (k a) Q') -> hoare R I (bind m k) Q'.
Proof.
  intros Hm Hk w HI. destruct (Hm w HI) as [HR HQ]. unfold bind.
  destruct (m w) as [[a | e | ] w1] eqn:E; cbn [snd] in *.
  - destruct (Hk a w1 (HQ a w1 eq_refl)) as [HR' HQ']. split.
    + etransitivity; eassumption.
    + exact HQ'.
  - split; [exact HR | intros; discriminate].
  - split; [exact HR | intros; discriminate].
Qed.

Lemma hoare_weaken {A} (I I' : world -> Prop) (m : M A) (Q Q' : A -> world -> Prop) :
  hoare R I m Q -> (forall w, I' w -> I w) -> (forall a w, Q a w -> Q' a w) ->
  hoare R I' m Q'.
Proof.
  intros H HI HQ w Hw. destruct (H w (HI w Hw)) as [HR HQ0].
  split; [exact HR | intros a w' E; apply HQ, (HQ0 a w' E)].
Qed.

Lemma hoare_keeps {A} (I : world -> Prop) (m : M A) (Q : A -> world -> Prop) w :
  hoare R I m Q -> I w -> R w (snd (m w)).
Proof. intros H HI. apply (H w HI). Qed.

End Keeps.

Global Instance trace_extends_preorder P : PreOrder (trace_extends P).
Proof.
  split.
  - intros w. exists []. split; [reflexivity | constructor].
  - intros w1 w2 w3 (n1 & E1 & F1) (n2 & E2 & F2).
    exists (n2 ++ n1). split.
    + rewrite E2, E1. apply app_assoc.
    + apply Forall_app. split; assumption.
Qed.

Global Instance same_aliased_preorder : PreOrder same_aliased.
Proof.
  split.
  - intros w i als _. reflexivity.
  - intros w1 w2 w3 H12 H23 i als Hne.
    rewrite (H23 i als Hne). apply H12, Hne.
Qed.

Global Instance alias_untouched_preorder : PreOrder alias_untouched.
Proof.
  split.
  - intros w. split; reflexivity.
  - intros w1 w2 w3 [T12 S12] [T23 S23]. split; etransitivity; eassumption.
Qed.

(** One await adds its call to the trace and touches nothing else. *)
Lemma await_world c w :
  snd (await c w) = set_trace (c :: w_trace w) w.
Proof. unfold await. destruct (e_throw _); reflexivity. Qed.

Lemma trace_extends_one (P : call -> Prop) c w :
  P c -> trace_extends P w (set_trace (c :: w_trace w) w).
Proof. intros H. exists [c]. split; [reflexivity | repeat constructor; exact H]. Qed.

Lemma keeps_trace_await P c : P c -> keeps (trace_extends P) (await c).
Proof. intros H w. rewrite await_world. now apply trace_extends_one. Qed.

(** Steps that change the world but not its trace. *)
Lemma trace_extends_same P w w' : w_trace w' = w_trace w -> trace_extends P w w'.
Proof. intros E. exists []. split; [exact E | constructor]. Qed.

Lemma keeps_trace_es_request P method path query headers payload :
  P (CallEs {| rq_method := method; rq_path := path; rq_query := query;
               rq_headers := headers; rq_payload := payload |}) ->
  keeps (trace_extends P) (es_request method path query headers payload).
Proof.
  intros H w. exists [CallEs {| rq_method := method; rq_path := path; rq_query := query;
                                rq_headers := headers; rq_payload := payload |}].
  split; [apply es_request_trace | repeat constructor; exact H].
Qed.

Lemma keeps_trace_non_200 P method path query headers payload :
  P (CallEs {| rq_method := method; rq_path := path; rq_query := query;
               rq_headers := headers; rq_payload := payload |}) ->
  keeps (trace_extends P) (es_request_non_200_exception method path query headers payload).
Proof.
  intros H. unfold es_request_non_200_exception.
  apply keeps_bind; [apply _ | now apply keeps_trace_es_request |].
  intros r. destruct (negb _); [apply keeps_raise | apply keeps_ret]; apply _.
Qed.

Lemma keeps_trace_kv_set P key v : P (CallKvSet key) -> keeps (trace_extends P) (kv_set key v).
Proof.
  intros H. unfold kv_set. apply keeps_bind; [apply _ | now apply keeps_trace_await |].
  intros _ w. now apply trace_extends_same.
Qed.

Lemma keeps_trace_sleep P interval :
  P (CallSleep interval) -> keeps (trace_extends P) (sleep interval).
Proof.
  intros H. unfold sleep. apply keeps_bind; [apply _ | now apply keeps_trace_await |].
  intros _. apply keeps_ret, _.
Qed.

Lemma keeps_trace_enter P st : keeps (trace_extends P) (enter st).
Proof. intros w. now apply trace_extends_same. Qed.

Lemma refresh_path_long index_name other :
  (String.length other < 10)%nat ->
  String.eqb ("/" +:+ index_name +:+ "/_refresh") other = false.
Proof.
  intros H. destruct (String.eqb_spec ("/" +:+ index_name +:+ "/_refresh") other) as [E|];
    [|reflexivity].
  apply (f_equal String.length) in E. rewrite !length_app in E.
  cbn [String.length] in E. lia.
Qed.

(** ** The listing of indexes *)

Lemma select_listing (b : bool) (l : list (string * list string)) :
  exists res,
    select_indexes b
      (List.map (fun entry : string * list string =>
                   (fst entry,
                    JDict [("aliases",
                            JDict (List.map (fun a : string => (a, JDict [])) (snd entry)))]))
         l) = Some res /\
    forall x, x ∈ res <->
              exists als, (x, als) ∈ l /\ startswith x "activities_" = true /\
                          negb (bool_decide (als = [])) = b.
Proof.
  induction l as [|[name als] l (res & E & H)].
  - exists []. split; [reflexivity|]. intros x. split.
    + intros Hx. inversion Hx.
    + intros (a & Ha & _). inversion Ha.
  - cbn [List.map select_indexes fst snd]. rewrite E.
    change (ALIAS +:+ "_") with "activities_"%string.
    change (Json.get "aliases" (JDict [("aliases", ?v)])) with (Some v).
    destruct (startswith name "activities_") eqn:Hs.
    + set (v := JDict (List.map (fun a : string => (a, JDict [])) als)).
      assert (Ht : Json.truthy v = negb (bool_decide (als = []))).
      { unfold v. destruct als; reflexivity. }
      change (Json.get "aliases" (JDict [("aliases", v)])) with (Some v).
      cbv beta iota. rewrite Ht.
      destruct (Bool.eqb (negb (bool_decide (als = []))) b) eqn:Hb.
      * apply Bool.eqb_prop in Hb. eexists. split; [reflexivity|].
        intros x. rewrite elem_of_cons, H. split.
        -- intros [-> | (a & Ha & Hx)].
           ++ exists als. split; [left | split; assumption].
           ++ exists a. split; [right; exact Ha | exact Hx].
        -- intros (a & Ha & Hx & Hb'). apply elem_of_cons in Ha as [Ha | Ha].
           ++ injection Ha as -> ->. now left.
           ++ right. exists a. repeat split; assumption.
      * exists res. split; [reflexivity|].
        intros x. rewrite H. split.
        -- intros (a & Ha & Hx). exists a. split; [right; exact Ha | exact Hx].
        -- intros (a & Ha & Hx & Hb'). apply elem_of_cons in Ha as [Ha | Ha].
           ++ injection Ha as -> ->. rewrite Hb' in Hb.
              rewrite Bool.eqb_reflx in Hb. discriminate.
           ++ exists a. repeat split; assumption.
    + exists res. split; [reflexivity|].
      intros x. rewrite H. split.
      * intros (a & Ha & Hx). exists a. split; [right; exact Ha | exact Hx].
      * intros (a & Ha & Hx & Hb'). apply elem_of_cons in Ha as [Ha | Ha].
        -- injection Ha as -> ->. congruence.
        -- exists a. repeat split; assumption.
Qed.

(** A answered listing shows the backend as it is, and leaves it so. *)
Lemma non_200_listing w r w1 :
  es_request_non_200_exception "GET" "/_aliases" [] json_headers Empty w = (Ret r, w1) ->
  body r = listing (w_es w) /\ w_es w1 = w_es w.
Proof.
  unfold es_request_non_200_exception, es_request, bind, await.
  destruct (e_throw _); [discriminate|].
  destruct (e_status _ =? 200) eqn:Hst.
  - cbn. intros H. injection H as <- <-. split; reflexivity.
  - cbn. rewrite Hst. cbn. discriminate.
Qed.

Lemma listed_spec st (b : bool) x :
  x ∈ listed st b <->
  exists als, st !! x = Some als /\ startswith x "activities_" = true /\
              negb (bool_decide (als = [])) = b.
Proof.
  unfold listed. cbn [listing Json.items].
  destruct (select_listing b (map_to_list st)) as (res & E & H).
  rewrite E. cbn [default]. rewrite H.
  split; intros (als & Hin & Hx); exists als; (split; [|exact Hx]);
    now apply elem_of_map_to_list.
Qed.

Lemma listed_without st x :
  x ∈ listed st false <-> st !! x = Some [] /\ startswith x "activities_" = true.
Proof.
  rewrite listed_spec. split.
  - intros (als & Hl & Hs & Hb).
    apply negb_false_iff, bool_decide_eq_true in Hb. subst als. now split.
  - intros [Hl Hs]. exists []. repeat split; assumption.
Qed.

Lemma listed_with st x :
  x ∈ listed st true <->
  exists als, st !! x = Some als /\ als <> [] /\ startswith x "activities_" = true.
Proof.
  rewrite listed_spec. split.
  - intros (als & Hl & Hs & Hb).
    apply negb_true_iff, bool_decide_eq_false in Hb. exists als. now repeat split.
  - intros (als & Hl & Hne & Hs). exists als. repeat split; try assumption.
    apply negb_true_iff, bool_decide_eq_false. exact Hne.
Qed.

(** What [get_old_index_names] returns: the listing of the backend as it
    is, which it leaves as it is. *)
Lemma get_old_index_names_listed w names w' :
  get_old_index_names w = (Ret names, w') ->
  names = (listed (w_es w) false, listed (w_es w) true) /\ w_es w' = w_es w.
Proof.
  unfold get_old_index_names. intros H.
  apply bind_ret_inv in H as (r & w1 & Hreq & H).
  apply non_200_listing in Hreq as [Hbody Hes].
  rewrite Hbody in H. cbn [listing Json.items lift_option] in H.
  unfold bind at 1 in H. cbn [ret] in H.
  unfold listed. cbn [listing Json.items].
  destruct (select_listing false (map_to_list (w_es w))) as (r0 & E0 & H0).
  destruct (select_listing true (map_to_list (w_es w))) as (r1 & E1 & H1).
  unfold bind in H. rewrite E0, E1 in H |- *. cbn in H.
  injection H as <- <-. split; [reflexivity | exact Hes].
Qed.

Lemma elem_of_indexes_matching_feed names feed_unique_id x :
  x ∈ indexes_matching_feeds names [feed_unique_id] <->
  x ∈ names /\ str_in (feed_marker feed_unique_id) x = true.
Proof.
  unfold indexes_matching_feeds, flatten, indexes_matching_feed.
  cbn [List.map List.concat]. rewrite app_nil_r.
  rewrite !list_elem_of_In, filter_In. reflexivity.
Qed.

(** ** The fan-out of an updates pass *)

Section FanOut.

Context (feed : feed) (targets : list string).

Lemma not_bulk_fans_out c : is_bulk_post c = false -> bulk_fans_out_to feed targets c.
Proof. intros H Hb. congruence. Qed.

Lemma keeps_bind_lift_option (R : world -> world -> Prop) `{!PreOrder R}
    {A B} e (o : option A) (k : A -> M B) :
  (forall a, o = Some a -> keeps R (k a)) -> keeps R (bind (lift_option e o) k).
Proof.
  intros H w. destruct o as [a|]; cbn [lift_option]; unfold bind; cbn.
  - apply (H a eq_refl).
  - reflexivity.
Qed.

Lemma ingest_feed_page_fans_out href :
  keeps (trace_extends (bulk_fans_out_to feed targets)) (ingest_feed_page feed targets href).
Proof using Type.
  unfold ingest_feed_page, get_feed_contents.
  apply keeps_bind; [apply _ | |].
  { apply keeps_bind; [apply _ | |].
    - apply keeps_trace_await. now apply not_bulk_fans_out.
    - intros r. destruct (negb _); [apply keeps_raise | apply keeps_ret]; apply _. }
  intros feed_contents.
  apply keeps_bind_lift_option; [apply _|]. intros page _.
  apply keeps_bind_lift_option; [apply _|]. intros items Hconv.
  apply keeps_bind; [apply _ | | intros _; apply keeps_ret, _].
  unfold es_bulk. destruct items as [|item items]; [apply keeps_ret, _|].
  apply keeps_bind; [apply _ | | intros _; apply keeps_ret, _].
  apply keeps_trace_non_200. intros _. exists page, (item :: items). now split.
Qed.

Lemma updates_page_loop_fans_out fuel href updates_href :
  keeps (trace_extends (bulk_fans_out_to feed targets)) (updates_page_loop fuel feed targets href updates_href).
Proof using Type.
  revert href updates_href. induction fuel as [|fuel IH]; intros href updates_href;
    cbn [updates_page_loop]; destruct (href_truthy href) as [h|];
    try apply keeps_ret, _; try apply keeps_hang, _.
  apply keeps_bind; [apply _ | apply ingest_feed_page_fans_out |].
  intros next. apply IH.
Qed.

Lemma refresh_index_fans_out index_name :
  keeps (trace_extends (bulk_fans_out_to feed targets)) (refresh_index index_name).
Proof using Type.
  unfold refresh_index.
  apply keeps_bind; [apply _ | | intros _; apply keeps_ret, _].
  apply keeps_trace_non_200, not_bulk_fans_out.
  cbn [is_bulk_post rq_method rq_path]. rewrite refresh_path_long; [reflexivity|].
  cbn. lia.
Qed.

End FanOut.

Lemma get_feed_updates_url_es feed_id w :
  w_es (snd (get_feed_updates_url feed_id w)) = w_es w.
Proof.
  unfold get_feed_updates_url, bind, await.
  destruct (e_throw _); [reflexivity|]. cbn [set_trace w_kv].
  destruct (w_kv w !! FEED_UPDATES_URL feed_id) as [[href|]|];
    try reflexivity;
    destruct (w_kv w !! FEED_UPDATES_SEED_URL feed_id) as [[href2|]|]; try reflexivity;
    destruct (String.eqb _ NOT_SET); reflexivity.
Qed.

Lemma get_feed_updates_url_trace P feed_id :
  P (CallKvGet (FEED_UPDATES_URL feed_id)) ->
  keeps (trace_extends P) (get_feed_updates_url feed_id).
Proof.
  intros H. unfold get_feed_updates_url.
  apply keeps_bind; [apply _ | now apply keeps_trace_await |].
  intros _ w.
  destruct (w_kv w !! FEED_UPDATES_URL feed_id) as [[href|]|];
    try reflexivity;
    destruct (w_kv w !! FEED_UPDATES_SEED_URL feed_id) as [[href2|]|]; try reflexivity;
    destruct (String.eqb _ NOT_SET); reflexivity.
Qed.

Lemma non_200_no_hang method path query headers payload w :
  fst (es_request_non_200_exception method path query headers payload w) <> Hang.
Proof.
  unfold es_request_non_200_exception, es_request, bind, await.
  destruct (e_throw _); [discriminate|].
  destruct (e_status _ =? 200) eqn:Hst.
  - destruct (serve _ _ _) as [st' r]. cbn.
    destruct (negb (status r =? 200)); discriminate.
  - cbn. rewrite Hst. discriminate.
Qed.

Lemma get_old_index_names_trace w :
  w_trace (snd (get_old_index_names w)) = listing_request :: w_trace w /\
  fst (get_old_index_names w) <> Hang.
Proof.
  unfold get_old_index_names. rewrite bind_cases.
  pose proof (non_200_trace "GET" "/_aliases" [] json_headers Empty w) as Ht.
  pose proof (non_200_no_hang "GET" "/_aliases" [] json_headers Empty w) as Hh.
  destruct (es_request_non_200_exception _ _ _ _ _ w) as [[r | e | ] w1];
    cbn [fst snd] in *; [| split; [exact Ht | discriminate] | congruence].
  unfold bind, lift_option, ret, raise.
  destruct (Json.items (body r)) as [indexes|]; [| split; [exact Ht | discriminate]].
  destruct (select_indexes false indexes); [| split; [exact Ht | discriminate]].
  destruct (select_indexes true indexes); split; try exact Ht; discriminate.
Qed.

(** *** The environment is not touched *)

Global Instance same_env_preorder : PreOrder same_env.
Proof. split; [intros w; reflexivity | intros w1 w2 w3 H12 H23; congruence]. Qed.

Lemma await_env c : keeps same_env (await c).
Proof. intros w. rewrite await_world. reflexivity. Qed.

Lemma es_request_env method path query headers payload :
  keeps same_env (es_request method path query headers payload).
Proof.
  intros w. unfold same_env, es_request, bind, await.
  destruct (e_throw _); [reflexivity|].
  destruct (e_status _ =? 200); [|reflexivity].
  cbn [set_trace w_es]. destruct (serve _ _ _). reflexivity.
Qed.

Lemma non_200_env method path query headers payload :
  keeps same_env (es_request_non_200_exception method path query headers payload).
Proof.
  unfold es_request_non_200_exception.
  apply keeps_bind; [apply _ | apply es_request_env |].
  intros r. destruct (negb _); [apply keeps_raise | apply keeps_ret]; apply _.
Qed.

Lemma kv_set_env key v : keeps same_env (kv_set key v).
Proof.
  unfold kv_set. apply keeps_bind; [apply _ | apply await_env |].
  intros _ w. reflexivity.
Qed.

Lemma sleep_env interval : keeps same_env (sleep interval).
Proof.
  unfold sleep. apply keeps_bind; [apply _ | apply await_env |].
  intros _. apply keeps_ret, _.
Qed.

Lemma get_feed_updates_url_env feed_id : keeps same_env (get_feed_updates_url feed_id).
Proof.
  unfold get_feed_updates_url. apply keeps_bind; [apply _ | apply await_env |].
  intros _ w. unfold same_env.
  destruct (w_kv w !! FEED_UPDATES_URL feed_id) as [[href|]|];
    try reflexivity;
    destruct (w_kv w !! FEED_UPDATES_SEED_URL feed_id) as [[href2|]|]; try reflexivity;
    destruct (String.eqb _ NOT_SET); reflexivity.
Qed.

Lemma get_old_index_names_env : keeps same_env get_old_index_names.
Proof.
  unfold get_old_index_names.
  apply keeps_bind; [apply _ | apply non_200_env |].
  intros r. repeat (apply keeps_bind; [apply _ | apply keeps_lift_option, _ |]; intros ?).
  apply keeps_ret, _.
Qed.

Lemma refresh_index_env index_name : keeps same_env (refresh_index index_name).
Proof.
  unfold refresh_index.
  apply keeps_bind; [apply _ | apply non_200_env | intros _; apply keeps_ret, _].
Qed.

(** *** Every page is posted to the targets *)

Section PagesPosted.

Context (feed : feed) (targets : list string).

Lemma fanned_out_app env calls1 :
  forall n calls2,
    fanned_out feed targets env n calls1 ->
    fanned_out feed targets env (length calls1 + n) calls2 ->
    fanned_out feed targets env n (calls1 ++ calls2).
Proof using Type.
  intros n calls2 H. revert calls2.
  induction H as [n | n c calls Hf Hb H IH | n href calls Hp H IH
                 | n href items calls Hp H IH];
    intros calls2 H2; cbn [app length Nat.add] in *.
  - exact H2.
  - apply fanned_other; [exact Hf | exact Hb |]. apply IH.
    now rewrite Nat.add_succ_r.
  - apply fanned_nothing; [exact Hp|]. apply IH. now rewrite Nat.add_succ_r.
  - apply fanned_items; [exact Hp|]. apply IH. now rewrite !Nat.add_succ_r.
Qed.

Global Instance pages_posted_preorder : PreOrder (pages_posted feed targets).
Proof using Type.
  split.
  - intros w. split; [reflexivity|]. exists []. split; [reflexivity | constructor].
  - intros w1 w2 w3 (E12 & n1 & T1 & F1) (E23 & n2 & T2 & F2).
    split; [congruence|]. exists (n2 ++ n1). split.
    + rewrite T2, T1. apply app_assoc.
    + rewrite List.rev_app_distr. apply fanned_out_app; [exact F1|].
      rewrite List.length_rev. rewrite E12, T1, List.length_app in F2. exact F2.
Qed.

Lemma fanned_out_quiet env calls :
  forall n, Forall quiet calls -> fanned_out feed targets env n calls.
Proof using Type.
  induction calls as [|c calls IH]; intros n H; [constructor|].
  apply Forall_cons in H as [[Hf Hb] H].
  apply fanned_other; [exact Hf | exact Hb | now apply IH].
Qed.

Lemma keeps_quiet {A} (m : M A) :
  keeps (trace_extends quiet) m -> keeps same_env m -> keeps (pages_posted feed targets) m.
Proof using Type.
  intros Ht He w. destruct (Ht w) as (new & E & F). split; [apply He|].
  exists new. split; [exact E|]. apply fanned_out_quiet, List.Forall_rev, F.
Qed.

Lemma get_feed_updates_url_posted :
  keeps (pages_posted feed targets) (get_feed_updates_url (unique_id feed)).
Proof using Type.
  apply keeps_quiet; [|apply get_feed_updates_url_env].
  apply get_feed_updates_url_trace. split; reflexivity.
Qed.

Lemma get_old_index_names_posted : keeps (pages_posted feed targets) get_old_index_names.
Proof using Type.
  apply keeps_quiet; [|apply get_old_index_names_env].
  unfold get_old_index_names.
  apply keeps_bind; [apply _ | |].
  - apply keeps_trace_non_200. split; reflexivity.
  - intros r. repeat (apply keeps_bind; [apply _ | apply keeps_lift_option, _ |]; intros ?).
    apply keeps_ret, _.
Qed.

Lemma refresh_index_posted index_name :
  keeps (pages_posted feed targets) (refresh_index index_name).
Proof using Type.
  apply keeps_quiet; [|apply refresh_index_env].
  unfold refresh_index.
  apply keeps_bind; [apply _ | | intros _; apply keeps_ret, _].
  apply keeps_trace_non_200. split; [reflexivity|].
  cbn [is_bulk_post rq_method rq_path]. rewrite refresh_path_long; [reflexivity|].
  cbn. lia.
Qed.

(** One page: the fetch, and after it the bulk request with the conversion
    of the page for the targets, when there is something to post. *)
Lemma ingest_feed_page_trace href w :
  let fetch := CallFeed href (auth_headers feed href) in
  w_env (snd (ingest_feed_page feed targets href w)) = w_env w /\
  w_trace (snd (ingest_feed_page feed targets href w)) =
    match page_to_post feed targets (w_env w (length (w_trace w)) fetch) with
    | Some items => bulk_request items :: fetch :: w_trace w
    | None => fetch :: w_trace w
    end.
Proof using Type.
  cbv zeta. unfold ingest_feed_page, get_feed_contents, page_to_post, bind, await. cbv zeta.
  destruct (e_throw (w_env w (length (w_trace w)) (CallFeed href (auth_headers feed href))));
    [split; reflexivity|].
  destruct (e_status (w_env w (length (w_trace w)) (CallFeed href (auth_headers feed href)))
              =? 200); cbn [negb raise ret]; [|split; reflexivity].
  destruct (e_page (w_env w (length (w_trace w)) (CallFeed href (auth_headers feed href))))
    as [page|]; cbn [lift_option raise ret]; [|split; reflexivity].
  destruct (convert_to_bulk_es feed page targets) as [[|item items]|];
    cbn [lift_option raise ret es_bulk]; try (split; reflexivity).
  unfold bind.
  set (w1 := set_trace (CallFeed href (auth_headers feed href) :: w_trace w) w).
  pose proof (non_200_trace "POST" "/_bulk" [] [("Content-Type", "application/x-ndjson")]
                (NdJson (item :: items)) w1) as Ht.
  pose proof (non_200_env "POST" "/_bulk" [] [("Content-Type", "application/x-ndjson")]
                (NdJson (item :: items)) w1) as He.
  unfold same_env in He.
  destruct (es_request_non_200_exception _ _ _ _ _ w1) as [[r | e | ] w2];
    cbn [snd fst ret] in *; split; assumption.
Qed.

Lemma ingest_feed_page_posted href :
  keeps (pages_posted feed targets) (ingest_feed_page feed targets href).
Proof using Type.
  intros w. destruct (ingest_feed_page_trace href w) as [He Ht]. cbv zeta in Ht.
  split; [exact He|].
  destruct (page_to_post feed targets _) as [items|] eqn:Hp.
  - exists [bulk_request items; CallFeed href (auth_headers feed href)].
    split; [exact Ht|]. cbn [List.rev app].
    apply fanned_items; [exact Hp | constructor].
  - exists [CallFeed href (auth_headers feed href)].
    split; [exact Ht|]. cbn [List.rev app].
    apply fanned_nothing; [exact Hp | constructor].
Qed.

Lemma updates_page_loop_posted fuel href updates_href :
  keeps (pages_posted feed targets)
    (updates_page_loop fuel feed targets href updates_href).
Proof using Type.
  revert href updates_href. induction fuel as [|fuel IH]; intros href updates_href;
    cbn [updates_page_loop]; destruct (href_truthy href) as [h|];
    try apply keeps_ret, _; try apply keeps_hang, _.
  apply keeps_bind; [apply _ | apply ingest_feed_page_posted |].
  intros next. apply IH.
Qed.

(** What follows the page walk in an updates pass. *)
Lemma updates_tail_posted (live : list string) (updates_href : option string) :
  keeps (pages_posted feed targets)
    (bind (for_each live refresh_index)
       (fun _ => bind (lift_option UnboundLocalError updates_href)
          (fun updates_href0 =>
             bind (set_feed_updates_url (unique_id feed) updates_href0)
               (fun _ => sleep UPDATES_INTERVAL)))).
Proof using Type.
  apply keeps_bind; [apply _ | |].
  { apply keeps_for_each; [apply _|]. intros x. apply refresh_index_posted. }
  intros _. apply keeps_bind; [apply _ | apply keeps_lift_option, _ |].
  intros u. apply keeps_bind; [apply _ | |].
  - apply keeps_quiet; [|apply kv_set_env].
    apply keeps_trace_kv_set. split; reflexivity.
  - intros _. apply keeps_quiet; [|apply sleep_env].
    apply keeps_trace_sleep. split; reflexivity.
Qed.

Lemma bind_trace_grows {A B} (m : M A) (k : A -> M B) w :
  (forall a, keeps (pages_posted feed targets) (k a)) ->
  exists later, w_trace (snd (bind m k w)) = later ++ w_trace (snd (m w)).
Proof using Type.
  intros Hk. unfold bind. destruct (m w) as [[a | e | ] w1]; cbn [snd];
    try (now exists []).
  destruct (Hk a w1) as (_ & new & E & _). now exists new.
Qed.

End PagesPosted.

Lemma get_feed_updates_url_call feed_id w :
  w_trace (snd (get_feed_updates_url feed_id w)) =
    CallKvGet (FEED_UPDATES_URL feed_id) :: w_trace w.
Proof.
  unfold get_feed_updates_url, bind, await.
  destruct (e_throw _); [reflexivity|]. cbn [set_trace w_kv].
  destruct (w_kv w !! FEED_UPDATES_URL feed_id) as [[href|]|];
    try reflexivity;
    destruct (w_kv w !! FEED_UPDATES_SEED_URL feed_id) as [[href2|]|]; try reflexivity;
    destruct (String.eqb _ NOT_SET); reflexivity.
Qed.

(** C6: in every updates pass of a feed, the indexes the bulk items are
    fanned out to are exactly the listed indexes, without an alias or with
    one, whose names contain [activities__feed_id_<id>__].  The environment
    of the pass being that of its start, every fetch of the pass is a fetch
    of a page of the feed; each fetch that is answered with a page whose
    conversion for exactly those names is not empty is followed at once by
    the bulk request that carries that conversion, and the pass makes no
    other bulk request.  The pass does fetch: when the cursor is loaded and
    is not empty and the listing returns, the page at the cursor is fetched
    right after the listing, and its conversion for those names, when there
    is one, is posted next. *)
Theorem updates_fan_out_targets (fuel : nat) (feed : feed) (w : world) :
  let without_alias := listed (w_es w) false in
  let with_alias := listed (w_es w) true in
  let targets :=
    indexes_matching_feeds (without_alias ++ with_alias) [unique_id feed] in
  let run := ingest_feed_updates fuel feed w in
  (forall x, x ∈ without_alias <->
             w_es w !! x = Some [] /\ startswith x "activities_" = true) /\
  (forall x, x ∈ with_alias <->
             exists als, w_es w !! x = Some als /\ als <> [] /\
                         startswith x "activities_" = true) /\
  (forall x, x ∈ targets <->
             (x ∈ without_alias \/ x ∈ with_alias) /\
             str_in (feed_marker (unique_id feed)) x = true) /\
  trace_extends (bulk_fans_out_to feed targets) w (snd run) /\
  pages_posted feed targets w (snd run) /\
  (forall href w1 names w2,
     get_feed_updates_url (unique_id feed) w = (Ret href, w1) ->
     get_old_index_names w1 = (Ret names, w2) ->
     href <> EmptyString -> fuel <> 0%nat ->
     let fetch := CallFeed href (auth_headers feed href) in
     let before :=
       listing_request :: CallKvGet (FEED_UPDATES_URL (unique_id feed)) :: w_trace w in
     exists later,
       w_trace (snd run) =
         later ++ match page_to_post feed targets (w_env w (length before) fetch) with
                  | Some items => bulk_request items :: fetch :: before
                  | None => fetch :: before
                  end).
Proof.
  intros without_alias with_alias targets run.
  split; [apply listed_without|]. split; [apply listed_with|]. split.
  { intros x. unfold targets. rewrite elem_of_indexes_matching_feed, elem_of_app.
    reflexivity. }
  split.
  { set (P := bulk_fans_out_to feed targets).
    apply (hoare_keeps (trace_extends P) (fun w0 => w_es w0 = w_es w) _ (fun _ _ => True));
      [|reflexivity].
    unfold ingest_feed_updates.
    eapply hoare_bind with (Q := fun _ w0 => w_es w0 = w_es w); [apply _ | |].
    { intros w0 H0. split.
      - apply get_feed_updates_url_trace. now apply not_bulk_fans_out.
      - intros a w' E. rewrite <- H0, <- (get_feed_updates_url_es (unique_id feed) w0).
        now rewrite E. }
    intros href.
    eapply hoare_bind
      with (Q := fun names _ => names = (without_alias, with_alias)); [apply _ | |].
    { intros w0 H0. split.
      - unfold get_old_index_names.
        apply keeps_bind; [apply _ | |].
        + apply keeps_trace_non_200. now apply not_bulk_fans_out.
        + intros r.
          repeat (apply keeps_bind; [apply _ | apply keeps_lift_option, _ |]; intros ?).
          apply keeps_ret, _.
      - intros names w' E. apply get_old_index_names_listed in E as [-> _].
        unfold without_alias, with_alias. now rewrite H0. }
    intros names w0 ->. cbn [fst snd]. fold targets. split; [|trivial].
    revert w0. fold (keeps (trace_extends P)
      (bind (updates_page_loop fuel feed targets (Some href) None)
         (fun updates_href =>
            bind (for_each (indexes_matching_feeds with_alias [unique_id feed]) refresh_index)
              (fun _ => bind (lift_option UnboundLocalError updates_href)
                 (fun updates_href0 =>
                    bind (set_feed_updates_url (unique_id feed) updates_href0)
                      (fun _ => sleep UPDATES_INTERVAL)))))).
    apply keeps_bind; [apply _ | apply updates_page_loop_fans_out |].
    intros updates_href.
    apply keeps_bind; [apply _ | |].
    { apply keeps_for_each; [apply _|]. intros x. apply refresh_index_fans_out. }
    intros _. apply keeps_bind; [apply _ | apply keeps_lift_option, _ |].
    intros u. apply keeps_bind; [apply _ | |].
    - apply keeps_trace_kv_set. now apply not_bulk_fans_out.
    - intros _. apply keeps_trace_sleep. now apply not_bulk_fans_out. }
  split.
  { apply (hoare_keeps (pages_posted feed targets) (fun w0 => w_es w0 = w_es w) _
             (fun _ _ => True)); [|reflexivity].
    unfold ingest_feed_updates.
    eapply hoare_bind with (Q := fun _ w0 => w_es w0 = w_es w); [apply _ | |].
    { intros w0 H0. split.
      - apply get_feed_updates_url_posted.
      - intros a w' E. rewrite <- H0, <- (get_feed_updates_url_es (unique_id feed) w0).
        now rewrite E. }
    intros href.
    eapply hoare_bind
      with (Q := fun names _ => names = (without_alias, with_alias)); [apply _ | |].
    { intros w0 H0. split.
      - apply get_old_index_names_posted.
      - intros names w' E. apply get_old_index_names_listed in E as [-> _].
        unfold without_alias, with_alias. now rewrite H0. }
    intros names w0 ->. cbn [fst snd]. fold targets. split; [|trivial].
    revert w0. fold (keeps (pages_posted feed targets)
      (bind (updates_page_loop fuel feed targets (Some href) None)
         (fun updates_href =>
            bind (for_each (indexes_matching_feeds with_alias [unique_id feed]) refresh_index)
              (fun _ => bind (lift_option UnboundLocalError updates_href)
                 (fun updates_href0 =>
                    bind (set_feed_updates_url (unique_id feed) updates_href0)
                      (fun _ => sleep UPDATES_INTERVAL)))))).
    apply keeps_bind; [apply _ | apply updates_page_loop_posted |].
    intros updates_href. apply updates_tail_posted. }
  intros href w1 names w2 H1 H2 Hne Hfuel fetch before.
  pose proof (get_feed_updates_url_call (unique_id feed) w) as Ht1.
  pose proof (get_feed_updates_url_env (unique_id feed) w) as He1.
  pose proof (get_feed_updates_url_es (unique_id feed) w) as Hs1.
  rewrite H1 in Ht1, He1, Hs1. cbn [snd] in Ht1, He1, Hs1.
  pose proof (proj1 (get_old_index_names_trace w1)) as Ht2.
  pose proof (get_old_index_names_env w1) as He2.
  rewrite H2 in Ht2, He2. cbn [snd] in Ht2, He2. unfold same_env in He1, He2.
  apply get_old_index_names_listed in H2 as H2'. destruct H2' as [-> _].
  unfold run, ingest_feed_updates.
  rewrite (bind_step _ _ _ _ _ H1), (bind_step _ _ _ _ _ H2). cbn [fst snd].
  rewrite Hs1. fold without_alias with_alias targets.
  destruct fuel as [|fuel]; [contradiction|]. cbn [updates_page_loop].
  assert (href_truthy (Some href) = Some href) as ->.
  { unfold href_truthy. destruct (String.eqb_spec href EmptyString); [contradiction|].
    reflexivity. }
  rewrite bind_assoc.
  destruct (bind_trace_grows feed targets (ingest_feed_page feed targets href)
              (fun next =>
                 bind (updates_page_loop fuel feed targets next (Some href))
                   (fun updates_href =>
                      bind (for_each (indexes_matching_feeds with_alias [unique_id feed])
                              refresh_index)
                        (fun _ => bind (lift_option UnboundLocalError updates_href)
                           (fun updates_href0 =>
                              bind (set_feed_updates_url (unique_id feed) updates_href0)
                                (fun _ => sleep UPDATES_INTERVAL))))) w2)
    as (later & Hlater).
  { intros next. apply keeps_bind; [apply _ | apply updates_page_loop_posted |].
    intros updates_href. apply updates_tail_posted. }
  exists later. rewrite Hlater.
  destruct (ingest_feed_page_trace feed targets href w2) as [_ Htp]. cbv zeta in Htp.
  rewrite Htp, He2, He1, Ht2, Ht1. reflexivity.
Qed.

Lemma updates_fan_out_targets_witness :
  let w := snd (ingest_feed_full 5 example_feed (world_of example_backend (example_env 100))) in
  let run := ingest_feed_updates 5 example_feed w in
  let old_index := "activities__feed_id_F1__old"%string in
  let new_index :=
    "activities__feed_id_F1__date_2018-03-07__timestamp_1520400000__batch_id_6162636465__"%string in
  let item_in index_name :=
    {| action_and_metadata :=
         JDict [("index", JDict [("_id", JStr "c"); ("_index", JStr index_name);
                                 ("_type", JStr "_doc")])];
       source := JDict [("id", JStr "c")] |} in
  listed (w_es w) false = [old_index] /\
  listed (w_es w) true = [new_index] /\
  exists later,
    w_trace (snd run) =
      later ++ bulk_request [item_in old_index; item_in new_index]
            :: CallFeed "http://feed/2" [("Authorization", "Hawk")]
            :: listing_request :: CallKvGet "feed_updates_url:F1" :: w_trace w.
Proof.
  intros w run old_index new_index item_in.
  split; [vm_compute; reflexivity|]. split; [vm_compute; reflexivity|].
  assert (H1 : fst (get_feed_updates_url "F1" w) = Ret "http://feed/2"%string)
    by (vm_compute; reflexivity).
  set (w1 := snd (get_feed_updates_url "F1" w)).
  assert (H2 : fst (get_old_index_names w1) = Ret ([old_index], [new_index]))
    by (vm_compute; reflexivity).
  destruct (updates_fan_out_targets 5 example_feed w) as (_ & _ & _ & _ & _ & Hfetch).
  destruct (Hfetch "http://feed/2"%string w1 ([old_index], [new_index])
              (snd (get_old_index_names w1))) as (later & Hlater).
  - rewrite <- H1. apply surjective_pairing.
  - rewrite <- H2. apply surjective_pairing.
  - discriminate.
  - discriminate.
  - exists later. unfold run. rewrite Hlater. reflexivity.
Defined.

(** ** A full ingest that fails before the cutover *)

Lemma es_request_es method path query headers payload w :
  let rq := {| rq_method := method; rq_path := path; rq_query := query;
               rq_headers := headers; rq_payload := payload |} in
  w_es (snd (es_request method path query headers payload w)) = w_es w \/
  w_es (snd (es_request method path query headers payload w)) =
    fst (serve (w_es w) (w_env w (length (w_trace w)) (CallEs rq)) rq).
Proof.
  intros rq. unfold es_request, bind, await. fold rq.
  destruct (e_throw _); [left; reflexivity|].
  destruct (e_status _ =? 200); [|left; reflexivity].
  right. cbn [w_es set_trace]. destruct (serve _ _ _). reflexivity.
Qed.

Lemma non_200_es method path query headers payload w :
  w_es (snd (es_request_non_200_exception method path query headers payload w)) =
    w_es (snd (es_request method path query headers payload w)).
Proof.
  unfold es_request_non_200_exception, bind.
  destruct (es_request method path query headers payload w) as [[r | e | ] w1];
    try reflexivity.
  destruct (negb _); reflexivity.
Qed.

(** What a served request does to the indexes that are in an alias. *)
Lemma serve_same_aliased st e rq i als :
  is_alias_post (CallEs rq) = false ->
  (rq_method rq = "DELETE"%string ->
   st !! index_of_path (rq_path rq) = Some [] \/ st !! index_of_path (rq_path rq) = None) ->
  als <> [] ->
  (fst (serve st e rq) !! i = Some als <-> st !! i = Some als).
Proof.
  intros Hpost Hdel Hne. unfold serve. cbn [is_alias_post] in Hpost.
  destruct (String.eqb (rq_method rq) "GET").
  { destruct (String.eqb (rq_path rq) "/_aliases"); [reflexivity|].
    destruct (endswith _ _); reflexivity. }
  destruct (String.eqb_spec (rq_method rq) "DELETE") as [Hm|_].
  { specialize (Hdel Hm).
    destruct (st !! index_of_path (rq_path rq)) as [a|] eqn:E; cbn [fst]; [|reflexivity].
    destruct (decide (i = index_of_path (rq_path rq))) as [->|Hi].
    - rewrite lookup_delete_eq, E. destruct Hdel as [Hd|Hd]; [|discriminate].
      injection Hd as ->. split; [discriminate | congruence].
    - now rewrite lookup_delete_ne. }
  destruct (String.eqb (rq_method rq) "PUT").
  { destruct (st !! index_of_path (rq_path rq)) as [a|] eqn:E; cbn [fst]; [reflexivity|].
    destruct (decide (i = index_of_path (rq_path rq))) as [->|Hi].
    - rewrite lookup_insert_eq, E. split; [congruence | discriminate].
    - now rewrite lookup_insert_ne. }
  rewrite Hpost. reflexivity.
Qed.

Lemma es_request_untouched method path query headers payload w :
  let rq := {| rq_method := method; rq_path := path; rq_query := query;
               rq_headers := headers; rq_payload := payload |} in
  is_alias_post (CallEs rq) = false ->
  (method = "DELETE"%string ->
   w_es w !! index_of_path path = Some [] \/ w_es w !! index_of_path path = None) ->
  alias_untouched w (snd (es_request_non_200_exception method path query headers payload w)).
Proof.
  intros rq Hpost Hdel. split.
  - apply keeps_trace_non_200. exact Hpost.
  - intros i als Hne. rewrite non_200_es.
    destruct (es_request_es method path query headers payload w) as [-> | ->];
      [reflexivity|].
    now apply serve_same_aliased.
Qed.

Lemma same_world_untouched w w' :
  w_trace w' = w_trace w -> w_es w' = w_es w -> alias_untouched w w'.
Proof.
  intros Ht He. split.
  - now apply trace_extends_same.
  - intros i als _. now rewrite He.
Qed.

Lemma await_untouched c : is_alias_post c = false -> keeps alias_untouched (await c).
Proof.
  intros H w. rewrite await_world. split.
  - now apply trace_extends_one.
  - intros i als _. reflexivity.
Qed.

Lemma kv_set_untouched key v : keeps alias_untouched (kv_set key v).
Proof.
  unfold kv_set. apply keeps_bind; [apply _ | now apply await_untouched |].
  intros _ w. now apply same_world_untouched.
Qed.

Lemma sleep_untouched interval : keeps alias_untouched (sleep interval).
Proof.
  unfold sleep. apply keeps_bind; [apply _ | now apply await_untouched |].
  intros _. apply keeps_ret, _.
Qed.

Lemma enter_untouched st : keeps alias_untouched (enter st).
Proof. intros w. now apply same_world_untouched. Qed.

Lemma unit_request_untouched method path query headers payload :
  is_alias_post (CallEs {| rq_method := method; rq_path := path; rq_query := query;
                           rq_headers := headers; rq_payload := payload |}) = false ->
  method <> "DELETE"%string ->
  keeps alias_untouched
    (bind (es_request_non_200_exception method path query headers payload)
       (fun _ => ret tt)).
Proof.
  intros Hpost Hm. apply keeps_bind; [apply _ | | intros _; apply keeps_ret, _].
  intros w. apply es_request_untouched; [exact Hpost | congruence].
Qed.

Lemma create_index_untouched index_name : keeps alias_untouched (create_index index_name).
Proof. apply unit_request_untouched; [reflexivity | discriminate]. Qed.

Lemma refresh_index_untouched index_name : keeps alias_untouched (refresh_index index_name).
Proof.
  apply unit_request_untouched; [|discriminate].
  cbn [is_alias_post rq_method rq_path]. rewrite refresh_path_long; [reflexivity|].
  cbn. lia.
Qed.

Lemma es_bulk_untouched items : keeps alias_untouched (es_bulk items).
Proof.
  unfold es_bulk. destruct items; [apply keeps_ret, _|].
  apply unit_request_untouched; [reflexivity | discriminate].
Qed.

Lemma ingest_feed_page_untouched feed index_names href :
  keeps alias_untouched (ingest_feed_page feed index_names href).
Proof.
  unfold ingest_feed_page, get_feed_contents.
  apply keeps_bind; [apply _ | |].
  { apply keeps_bind; [apply _ | now apply await_untouched |].
    intros r. destruct (negb _); [apply keeps_raise | apply keeps_ret]; apply _. }
  intros c. apply keeps_bind; [apply _ | apply keeps_lift_option, _ |].
  intros page. apply keeps_bind; [apply _ | apply keeps_lift_option, _ |].
  intros items. apply keeps_bind; [apply _ | apply es_bulk_untouched |].
  intros _. apply keeps_ret, _.
Qed.

Lemma full_page_loop_untouched fuel feed index_name href updates_href :
  keeps alias_untouched (full_page_loop fuel feed index_name href updates_href).
Proof.
  revert href updates_href. induction fuel as [|fuel IH]; intros href updates_href;
    cbn [full_page_loop]; destruct (href_truthy href) as [h|];
    try apply keeps_ret, _; try apply keeps_hang, _.
  apply keeps_bind; [apply _ | apply ingest_feed_page_untouched |].
  intros next. apply keeps_bind; [apply _ | apply sleep_untouched |].
  intros _. apply IH.
Qed.

(** Deleting indexes that have no alias leaves the aliased ones alone. *)
Lemma delete_indexes_untouched index_names w :
  (forall x, x ∈ index_names -> w_es w !! x = Some [] \/ w_es w !! x = None) ->
  alias_untouched w (snd (delete_indexes index_names w)).
Proof.
  revert w. induction index_names as [|name names IH]; intros w H;
    cbn [delete_indexes for_each].
  - reflexivity.
  - unfold bind at 1.
    set (m := bind (es_request_non_200_exception "DELETE" ("/" +:+ name) [] json_headers Empty)
                (fun _ => ret tt)).
    assert (Hm : alias_untouched w (snd (m w)) /\
                 forall x, w_es (snd (m w)) !! x = w_es w !! x \/
                           w_es (snd (m w)) !! x = None).
    { assert (Hw : snd (m w) =
                   snd (es_request_non_200_exception "DELETE" ("/" +:+ name) []
                          json_headers Empty w)).
      { unfold m, bind. destruct (es_request_non_200_exception _ _ _ _ _ w) as [[?|?|] ?];
          reflexivity. }
      rewrite Hw. split.
      - apply es_request_untouched; [reflexivity|]. intros _.
        apply H. left.
      - intros x. rewrite non_200_es.
        destruct (es_request_es "DELETE" ("/" +:+ name) [] json_headers Empty w)
          as [-> | ->]; [now left|].
        unfold serve. cbn [rq_method rq_path String.eqb Ascii.eqb Bool.eqb index_of_path
                             String.append].
        destruct (w_es w !! name) eqn:E; cbn [fst]; [|now left].
        destruct (decide (x = name)) as [->|Hx].
        + right. apply lookup_delete_eq.
        + left. now apply lookup_delete_ne. }
    destruct Hm as [Hu Hl].
    destruct (m w) as [[[] | e | ] w1]; cbn [snd] in *; try exact Hu.
    etransitivity; [exact Hu|]. apply IH.
    intros x Hx. destruct (Hl x) as [-> | ->]; [|now right].
    apply H. now right.
Qed.

(** The scrub: list, then delete the feed's indexes that have no alias. *)
Lemma scrub_untouched feed_unique_id :
  keeps alias_untouched
    (bind get_old_index_names
       (fun names => delete_indexes (indexes_matching_feeds (fst names) [feed_unique_id]))).
Proof.
  intros w. unfold bind.
  assert (Hl : alias_untouched w (snd (get_old_index_names w))).
  { unfold get_old_index_names.
    apply keeps_bind; [apply _ | |].
    - intros w0. apply es_request_untouched; [reflexivity | discriminate].
    - intros r. repeat (apply keeps_bind; [apply _ | apply keeps_lift_option, _ |]; intros ?).
      apply keeps_ret, _. }
  destruct (get_old_index_names w) as [[names | e | ] w1] eqn:E; cbn [snd] in *;
    try exact Hl.
  etransitivity; [exact Hl|].
  apply get_old_index_names_listed in E as [-> Hes].
  apply delete_indexes_untouched. intros x Hx. cbn [fst] in Hx.
  apply elem_of_indexes_matching_feed in Hx as [Hx _].
  apply listed_without in Hx as [Hx _]. left. now rewrite Hes.
Qed.

Global Instance stays_late_preorder : PreOrder stays_late.
Proof.
  split.
  - intros w H. exact H.
  - intros w1 w2 w3 H12 H23 H. apply H23, H12, H.
Qed.

Lemma same_stage_late w w' : w_stage w' = w_stage w -> stays_late w w'.
Proof. intros E H. now rewrite E. Qed.

Lemma non_200_stage method path query headers payload w :
  w_stage (snd (es_request_non_200_exception method path query headers payload w)) =
    w_stage w.
Proof.
  unfold es_request_non_200_exception, es_request, bind, await.
  destruct (e_throw _); [reflexivity|].
  destruct (e_status _ =? 200) eqn:Hs.
  - destruct (serve _ _ _) as [st r]. cbn. destruct (negb _); reflexivity.
  - cbn. rewrite Hs. reflexivity.
Qed.

(** From the cutover on, the stage stays at or past it. *)
Lemma cutover_onwards_late index_name feed_unique_id (updates_href : option string) :
  keeps stays_late
    (bind (add_remove_aliases_atomically index_name feed_unique_id)
       (fun _ => bind (enter StRecordCursor)
          (fun _ => bind (lift_option UnboundLocalError updates_href)
             (fun updates_href0 => set_feed_updates_seed_url feed_unique_id updates_href0)))).
Proof.
  apply keeps_bind; [apply _ | |].
  { unfold add_remove_aliases_atomically.
    apply keeps_bind; [apply _ | | intros _; apply keeps_ret, _].
    intros w. apply same_stage_late, non_200_stage. }
  intros _. apply keeps_bind; [apply _ | |].
  { intros w _. reflexivity. }
  intros _. apply keeps_bind; [apply _ | apply keeps_lift_option, _ |].
  intros u. unfold set_feed_updates_seed_url, kv_set.
  apply keeps_bind; [apply _ | |].
  - intros w. apply same_stage_late. rewrite await_world. reflexivity.
  - intros _ w. now apply same_stage_late.
Qed.

(** A computation that, when it raises with the stage before the cutover,
    has left the alias alone. *)
Lemma early_raise_bind {A B} (m : M A) (k : A -> M B) :
  keeps alias_untouched m ->
  (forall a w e w', k a w = (Raise e, w') -> before_cutover (w_stage w') = true ->
                    alias_untouched w w') ->
  forall w e w', bind m k w = (Raise e, w') -> before_cutover (w_stage w') = true ->
                 alias_untouched w w'.
Proof.
  intros Hm Hk w e w' H Hst. specialize (Hm w).
  apply bind_raise_inv in H as [H | (a & w1 & H1 & H2)].
  - now rewrite H in Hm.
  - rewrite H1 in Hm. cbn [snd] in Hm.
    etransitivity; [exact Hm|]. apply (Hk a w1 e w' H2 Hst).
Qed.

(** C2: if a full ingest raises while its stage is before the cutover, that
    is during init, scrub, create, the page loop or the refresh, then no
    alias operation was issued in the run and the indexes that are in an
    alias are those that were: the live index of the feed is still the
    aliased one, and the index being built is not in the alias. *)
Theorem full_ingest_failure_leaves_alias (fuel : nat) (feed : feed) (w w' : world)
    (e : exn) :
  ingest_feed_full fuel feed w = (Raise e, w') ->
  before_cutover (w_stage w') = true ->
  alias_untouched w w'.
Proof.
  unfold ingest_feed_full. revert w e w'.
  apply early_raise_bind; [apply enter_untouched | intros _].
  apply early_raise_bind; [apply kv_set_untouched | intros _].
  apply early_raise_bind; [apply enter_untouched | intros _].
  intros w e w' H. rewrite <- bind_assoc in H. revert w e w' H.
  apply early_raise_bind; [apply scrub_untouched | intros _].
  apply early_raise_bind; [apply enter_untouched | intros _].
  apply early_raise_bind; [intros w; now apply same_world_untouched | intros index_name].
  apply early_raise_bind; [apply create_index_untouched | intros _].
  apply early_raise_bind; [apply enter_untouched | intros _].
  apply early_raise_bind; [apply full_page_loop_untouched | intros updates_href].
  apply early_raise_bind; [apply enter_untouched | intros _].
  apply early_raise_bind; [apply refresh_index_untouched | intros _].
  intros w e w' H Hst. exfalso.
  pose proof (cutover_onwards_late index_name (unique_id feed) updates_href
                (set_stage StCutover w) eq_refl) as Hlate.
  unfold bind at 1 in H. cbn [enter] in H. rewrite H in Hlate. cbn [snd] in Hlate.
  congruence.
Qed.

Lemma full_ingest_failure_leaves_alias_witness :
  let w := world_of example_backend (example_env 2) in
  let run := ingest_feed_full 5 example_feed w in
  fst run = Raise (Exception "boom") /\
  before_cutover (w_stage (snd run)) = true /\
  alias_untouched w (snd run).
Proof.
  intros w run.
  assert (H1 : fst run = Raise (Exception "boom")) by (vm_compute; reflexivity).
  assert (H2 : before_cutover (w_stage (snd run)) = true) by (vm_compute; reflexivity).
  split; [exact H1|]. split; [exact H2|].
  refine (full_ingest_failure_leaves_alias 5 example_feed w (snd run)
            (Exception "boom") _ H2).
  rewrite <- H1. apply surjective_pairing.
Defined.

(** A full ingest that goes through: three items pushed in two bulk
    requests, the alias moved to the new index, the cursor recorded. *)
Example happy_full_ingest :
  let run := ingest_feed_full 5 example_feed (world_of example_backend (example_env 100)) in
  fst run = Ret tt /\
  map_to_list (w_es (snd run)) =
    [("activities__feed_id_F1__old"%string, []);
     ("activities__feed_id_F1__date_2018-03-07__timestamp_1520400000__batch_id_6162636465__"%string,
      ["activities"%string])] /\
  w_kv (snd run) !! "feed_updates_seed_url:F1"%string = Some (KvStr "http://feed/2") /\
  length (List.filter is_alias_post (w_trace (snd run))) = 1%nat /\
  length (List.filter is_bulk_post (w_trace (snd run))) = 2%nat.
Proof. vm_compute. repeat split; reflexivity. Qed.
(** ** The metrics sampler *)








(* ===================================================================== *)
(** * Further properties *)
(* ===================================================================== *)

(** ** Index names and the feeds they belong to *)

Lemma elem_of_indexes_matching_feeds names ids x :
  x ∈ indexes_matching_feeds names ids <->
  x ∈ names /\ exists f, f ∈ ids /\ str_in (feed_marker f) x = true.
Proof.
  unfold indexes_matching_feeds, flatten, indexes_matching_feed.
  rewrite list_elem_of_In, in_concat. split.
  - intros (l & Hl & Hx). apply in_map_iff in Hl as (f & <- & Hf).
    apply filter_In in Hx as [Hx Hm]. split; [now apply list_elem_of_In|].
    exists f. split; [now apply list_elem_of_In | exact Hm].
  - intros (Hx & f & Hf & Hm). eexists. split.
    + apply in_map_iff. exists f. split; [reflexivity | now apply list_elem_of_In].
    + apply filter_In. split; [now apply list_elem_of_In | exact Hm].
Qed.

Lemma elem_of_indexes_matching_no_feeds names ids x :
  x ∈ indexes_matching_no_feeds names ids <->
  x ∈ names /\ forall f, f ∈ ids -> str_in (feed_marker f) x = false.
Proof.
  unfold indexes_matching_no_feeds. cbv zeta.
  rewrite list_elem_of_In, filter_In, <- list_elem_of_In, negb_true_iff,
    bool_decide_eq_false, elem_of_indexes_matching_feeds.
  split.
  - intros [Hx Hno]. split; [exact Hx|]. intros f Hf.
    destruct (str_in (feed_marker f) x) eqn:E; [|reflexivity].
    exfalso. apply Hno. split; [exact Hx|]. now exists f.
  - intros [Hx Hno]. split; [exact Hx|]. intros (_ & f & Hf & Hm).
    rewrite (Hno f Hf) in Hm. discriminate.
Qed.

(** X1.  [indexes_matching_feeds] and [indexes_matching_no_feeds] split the
    names they are given: a name is among the first exactly when the marker
    of one of the feeds occurs in it, among the second exactly when the
    marker of none does, and so every name is in one of the two and never in
    both. *)
Theorem matching_feeds_partition (names ids : list string) (x : string) :
  (x ∈ indexes_matching_feeds names ids <->
   x ∈ names /\ exists f, f ∈ ids /\ str_in (feed_marker f) x = true) /\
  (x ∈ indexes_matching_no_feeds names ids <->
   x ∈ names /\ forall f, f ∈ ids -> str_in (feed_marker f) x = false) /\
  (x ∈ names <->
   x ∈ indexes_matching_feeds names ids \/ x ∈ indexes_matching_no_feeds names ids) /\
  ~ (x ∈ indexes_matching_feeds names ids /\ x ∈ indexes_matching_no_feeds names ids).
Proof.
  split; [apply elem_of_indexes_matching_feeds|].
  split; [apply elem_of_indexes_matching_no_feeds|].
  rewrite elem_of_indexes_matching_feeds, elem_of_indexes_matching_no_feeds.
  split; [split|].
  - intros Hx.
    destruct (existsb (fun f => str_in (feed_marker f) x) ids) eqn:E.
    + left. split; [exact Hx|]. apply existsb_exists in E as (f & Hf & Hm).
      exists f. split; [now apply list_elem_of_In | exact Hm].
    + right. split; [exact Hx|]. intros f Hf.
      destruct (str_in (feed_marker f) x) eqn:Em; [|reflexivity].
      assert (existsb (fun f => str_in (feed_marker f) x) ids = true) as E'.
      { apply existsb_exists. exists f. split; [now apply list_elem_of_In | exact Em]. }
      rewrite E' in E. discriminate.
  - intros [[Hx _] | [Hx _]]; exact Hx.
  - intros [(_ & f & Hf & Hm) (_ & Hno)]. rewrite (Hno f Hf) in Hm. discriminate.
Qed.

Lemma startswith_refl_app s t : startswith (s +:+ t) s = true.
Proof.
  induction s as [|c s IH]; [destruct t; reflexivity|].
  cbn [String.append]. rewrite startswith_cons, Ascii.eqb_refl. exact IH.
Qed.

Lemma startswith_str_in t s : startswith s t = true -> str_in t s = true.
Proof. intros H. destruct s; cbn [str_in]; rewrite H; reflexivity. Qed.

(** X2.  A name made by [get_new_index_name] for a feed, whatever the id of
    the feed, starts with [activities_], so the listing of
    [get_old_index_names] keeps it, and has the marker of its own feed in
    it, so [indexes_matching_feeds] finds it for that feed and
    [indexes_matching_no_feeds] never returns it while the feed is
    configured. *)
Theorem new_index_name_is_found (env : name_env) (f : string) (names ids : list string) :
  let index_name := get_new_index_name env f in
  startswith index_name (ALIAS +:+ "_") = true /\
  str_in (feed_marker f) index_name = true /\
  (index_name ∈ names <-> index_name ∈ indexes_matching_feeds names [f]) /\
  (f ∈ ids -> index_name ∉ indexes_matching_no_feeds names ids).
Proof.
  cbv zeta.
  assert (str_in (feed_marker f) (get_new_index_name env f) = true) as Hm.
  { apply startswith_str_in. unfold get_new_index_name, feed_marker. cbv zeta.
    change (ALIAS +:+ "__" +:+ "feed_id_" +:+ f +:+ "__" +:+ ?r)
      with ("activities__feed_id_" +:+ (f +:+ "__" +:+ r)).
    change (ALIAS +:+ "__feed_id_" +:+ f +:+ "__")
      with ("activities__feed_id_" +:+ (f +:+ "__")).
    rewrite startswith_app.
    rewrite <- (append_assoc f "__"). apply startswith_refl_app. }
  split; [reflexivity|]. split; [exact Hm|]. split.
  - rewrite elem_of_indexes_matching_feeds. split.
    + intros H. split; [exact H|]. exists f. split; [apply list_elem_of_here | exact Hm].
    + intros [H _]. exact H.
  - intros Hf Hin. apply elem_of_indexes_matching_no_feeds in Hin as [_ Hno].
    rewrite (Hno f Hf) in Hm. discriminate.
Qed.

Lemma append_inj_l s a b : s +:+ a = s +:+ b -> a = b.
Proof.
  induction s as [|c s IH]; cbn [String.append]; [trivial|].
  intros H. injection H as H. exact (IH H).
Qed.

Lemma append_sep_inj c a b t u :
  has_char c a = false -> has_char c b = false ->
  a +:+ String c t = b +:+ String c u -> a = b.
Proof.
  revert b. induction a as [|x a IH]; intros [|y b] Ha Hb H; cbn [String.append] in H.
  - reflexivity.
  - injection H as H _. subst y. rewrite has_char_cons, Ascii.eqb_refl in Hb. discriminate.
  - injection H as H _. subst x. rewrite has_char_cons, Ascii.eqb_refl in Ha. discriminate.
  - injection H as Hxy H. subst y. rewrite has_char_cons in Ha, Hb.
    apply orb_false_iff in Ha as [_ Ha]. apply orb_false_iff in Hb as [_ Hb].
    f_equal. exact (IH b Ha Hb H).
Qed.

Lemma hex_digit_inj (a b : N) :
  (a < 16)%N -> (b < 16)%N -> hex_digit a = hex_digit b -> a = b.
Proof.
  intros Ha Hb.
  assert (a = 0 \/ a = 1 \/ a = 2 \/ a = 3 \/ a = 4 \/ a = 5 \/ a = 6 \/ a = 7 \/
          a = 8 \/ a = 9 \/ a = 10 \/ a = 11 \/ a = 12 \/ a = 13 \/ a = 14 \/ a = 15)%N
    as Ca by lia.
  assert (b = 0 \/ b = 1 \/ b = 2 \/ b = 3 \/ b = 4 \/ b = 5 \/ b = 6 \/ b = 7 \/
          b = 8 \/ b = 9 \/ b = 10 \/ b = 11 \/ b = 12 \/ b = 13 \/ b = 14 \/ b = 15)%N
    as Cb by lia.
  clear Ha Hb.
  repeat (destruct Ca as [-> | Ca]); try subst a;
    repeat (destruct Cb as [-> | Cb]); try subst b;
    intros H; solve [reflexivity | discriminate H].
Qed.

Lemma hex_inj a b : hex a = hex b -> a = b.
Proof.
  revert b. induction a as [|x a IH]; intros [|y b] H; cbn [hex] in H;
    try discriminate; [reflexivity|].
  cbv zeta in H. injection H as H1 H2 H3.
  assert (N_of_ascii x < 256)%N as Hx by apply N_ascii_bounded.
  assert (N_of_ascii y < 256)%N as Hy by apply N_ascii_bounded.
  apply hex_digit_inj in H1;
    [| apply N.Div0.div_lt_upper_bound; lia | apply N.Div0.div_lt_upper_bound; lia].
  apply hex_digit_inj in H2; [| apply N.mod_lt; lia | apply N.mod_lt; lia].
  assert (N_of_ascii x = N_of_ascii y) as Hxy.
  { rewrite (N.div_mod (N_of_ascii x) 16), (N.div_mod (N_of_ascii y) 16) by lia.
    now rewrite H1, H2. }
  f_equal; [|exact (IH b H3)].
  rewrite <- (ascii_N_embedding x), <- (ascii_N_embedding y). now rewrite Hxy.
Qed.

(** X3.  Two names made for the same feed on the same date and in the same
    second differ as soon as the random bytes differ: the batch id, the
    hexadecimal form of the bytes, tells them apart. *)
Theorem new_index_names_differ_by_batch (env1 env2 : name_env) (f : string) :
  env_today env1 = env_today env2 ->
  env_timestamp env1 = env_timestamp env2 ->
  env_urandom env1 <> env_urandom env2 ->
  get_new_index_name env1 f <> get_new_index_name env2 f.
Proof.
  intros Hd Ht Hr H. apply Hr. unfold get_new_index_name in H. cbv zeta in H.
  rewrite Hd, Ht in H.
  repeat (apply append_inj_l in H).
  apply hex_inj.
  apply (append_sep_inj "_" _ _ "_" "_"); [apply has_char_hex | apply has_char_hex | exact H];
    reflexivity.
Qed.

Lemma new_index_names_differ_by_batch_witness :
  let env1 := {| env_today := {| year := 2018; month := 3; day := 7 |};
                 env_timestamp := 1520400000; env_urandom := "abcde" |} in
  let env2 := {| env_today := {| year := 2018; month := 3; day := 7 |};
                 env_timestamp := 1520400000; env_urandom := "abcdf" |} in
  get_new_index_name env1 "F1" <> get_new_index_name env2 "F1".
Proof.
  cbv zeta. apply new_index_names_differ_by_batch; [reflexivity | reflexivity |].
  simpl. intros H. discriminate H.
Defined.

(** ** The listing of [get_old_index_names] *)





(** ** The bytes of a JSON body *)

Lemma ascii_only_app a b : ascii_only (a +:+ b) = ascii_only a && ascii_only b.
Proof.
  induction a as [|c a IH]; [reflexivity|].
  cbn [String.append ascii_only]. now rewrite IH, andb_assoc.
Qed.

Lemma escape_char_ascii c : ascii_only (Json.escape_char c) = true.
Proof. destruct c as [[] [] [] [] [] [] [] []]; reflexivity. Qed.

Lemma escape_ascii s : ascii_only (Json.escape s) = true.
Proof.
  induction s as [|c s IH]; [reflexivity|].
  cbn [Json.escape]. now rewrite ascii_only_app, escape_char_ascii, IH.
Qed.

Lemma encode_str_ascii s : ascii_only (Json.encode_str s) = true.
Proof.
  unfold Json.encode_str. cbn [ascii_only].
  rewrite ascii_only_app, escape_ascii. reflexivity.
Qed.

Lemma uint_ascii (u : Decimal.uint) : ascii_only (NilEmpty.string_of_uint u) = true.
Proof. induction u; cbn [NilEmpty.string_of_uint ascii_only]; rewrite ?IHu; reflexivity. Qed.

Lemma str_of_Z_ascii z : ascii_only (str_of_Z z) = true.
Proof.
  unfold str_of_Z, NilZero.string_of_int.
  destruct (Z.to_int z) as [u | u]; cbn [ascii_only]; unfold NilZero.string_of_uint;
    destruct u; try reflexivity; apply (uint_ascii (_ _)) || (cbn [ascii_only];
    try apply (uint_ascii (_ _))).
Qed.

Lemma join_ascii sep parts :
  ascii_only sep = true -> Forall (fun p => ascii_only p = true) parts ->
  ascii_only (join sep parts) = true.
Proof.
  intros Hsep H. induction H as [|p ps Hp Hps IH]; [reflexivity|].
  destruct ps as [|q ps]; [exact Hp|].
  change (join sep (p :: q :: ps)) with (p +:+ sep +:+ join sep (q :: ps)).
  now rewrite !ascii_only_app, Hp, Hsep, IH.
Qed.

Lemma render_ascii v : ascii_only (Json.render v) = true.
Proof.
  induction v as [ | b | z | s | xs IH | items IH] using json_ind_nested.
  - reflexivity.
  - destruct b; reflexivity.
  - apply str_of_Z_ascii.
  - apply encode_str_ascii.
  - cbn [Json.render]. rewrite !ascii_only_app, join_ascii; [reflexivity..|].
    apply Forall_map. exact IH.
  - cbn [Json.render]. rewrite !ascii_only_app, join_ascii; [reflexivity..|].
    apply Forall_map. eapply Forall_impl; [exact IH|].
    intros [k x] Hx. cbn [fst snd] in *.
    now rewrite !ascii_only_app, encode_str_ascii, Hx.
Qed.

Lemma utf8_encode_ascii s : ascii_only s = true -> utf8_encode s = s.
Proof.
  induction s as [|c s IH]; [reflexivity|].
  cbn [ascii_only utf8_encode]. intros H. apply andb_true_iff in H as [Hc Hs].
  unfold utf8_char. cbv zeta. rewrite Hc. cbn [String.append]. now rewrite IH.
Qed.

Lemma es_bulk_str_ascii items : ascii_only (es_bulk_str items) = true.
Proof.
  unfold es_bulk_str. rewrite ascii_only_app, join_ascii; [reflexivity..|].
  rewrite bulk_lines_render. apply Forall_map, Forall_forall. intros v _.
  apply render_ascii.
Qed.

(** X5.  What [json.dumps] writes is ASCII, whatever the strings of the
    value hold, so encoding it as UTF-8 changes nothing: the bytes
    [es_bulk_contents] sends are, one for one, the characters of the string
    [es_bulk] of core/app.py builds, and the bytes of any JSON payload are
    the characters of its [json.dumps]. *)
Theorem bulk_body_is_ascii (items : list bulk_item) (v : json) :
  ascii_only (es_bulk_str items) = true /\
  es_bulk_contents items = es_bulk_str items /\
  ascii_only (Json.dumps v) = true /\
  ascii_only (Json.dumps_sorted v) = true /\
  payload_bytes (JsonBody v) = Json.dumps v.
Proof.
  split; [apply es_bulk_str_ascii|].
  split; [apply utf8_encode_ascii, es_bulk_str_ascii|].
  split; [apply render_ascii|].
  split; [apply render_ascii|].
  apply utf8_encode_ascii, render_ascii.
Qed.

Lemma sorted_by_key_unique (l1 : list (string * json)) :
  forall l2,
    StronglySorted Json.key_le l1 -> StronglySorted Json.key_le l2 ->
    Permutation l1 l2 -> NoDup (List.map fst l1) -> l1 = l2.
Proof.
  induction l1 as [|x l1 IH]; intros l2 H1 H2 HP Hnd.
  - apply Permutation_nil in HP. now subst.
  - destruct l2 as [|y l2]; [symmetry in HP; now apply Permutation_nil in HP|].
    apply StronglySorted_inv in H1 as [H1 Hx].
    apply StronglySorted_inv in H2 as [H2 Hy].
    cbn [List.map] in Hnd. apply NoDup_cons in Hnd as [Hx1 Hnd].
    assert (x = y) as ->.
    { assert (x ∈ y :: l2) as Hin by (rewrite <- HP; apply list_elem_of_here).
      assert (y ∈ x :: l1) as Hin' by (rewrite HP; apply list_elem_of_here).
      apply elem_of_cons in Hin as [Hin | Hin]; [exact Hin|].
      apply elem_of_cons in Hin' as [Hin' | Hin']; [now symmetry|].
      exfalso. apply Hx1.
      rewrite Forall_forall in Hx, Hy.
      assert (fst x = fst y) as ->.
      { apply (anti_symm String.le); [apply (Hx y Hin') | apply (Hy x Hin)]. }
      apply (list_elem_of_fmap_2 fst) in Hin'. exact Hin'. }
    f_equal. apply IH; [exact H1 | exact H2 | | exact Hnd].
    eapply Permutation_cons_inv. exact HP.
Qed.

#[local] Instance key_le_trans : Transitive Json.key_le.
Proof. intros a b c. unfold Json.key_le. apply transitivity. Qed.

Lemma sort_items_perm items1 items2 :
  Permutation items1 items2 -> NoDup (List.map fst items1) ->
  Json.sort_items items1 = Json.sort_items items2.
Proof.
  intros HP Hnd. unfold Json.sort_items. apply sorted_by_key_unique.
  - apply Sorted_StronglySorted; [apply _|]. apply Sorted_merge_sort. apply _.
  - apply Sorted_StronglySorted; [apply _|]. apply Sorted_merge_sort. apply _.
  - now rewrite !merge_sort_Permutation.
  - apply NoDup_ListNoDup. eapply Permutation_NoDup; [|apply NoDup_ListNoDup, Hnd].
    symmetry. apply Permutation_map. apply merge_sort_Permutation.
Qed.

(** X6.  With [sort_keys=True] the order in which the members of a dict
    were inserted does not reach the output: two dicts with the same
    members, under distinct keys, are written as the same string. *)
Theorem dumps_sorted_ignores_member_order (items1 items2 : list (string * json)) :
  Permutation items1 items2 -> NoDup (List.map fst items1) ->
  Json.dumps_sorted (JDict items1) = Json.dumps_sorted (JDict items2).
Proof.
  intros HP Hnd. unfold Json.dumps_sorted. cbn [Json.sort_keys]. do 2 f_equal.
  apply sort_items_perm.
  - apply Permutation_map. exact HP.
  - rewrite List.map_map. cbn [fst]. exact Hnd.
Qed.

Lemma dumps_sorted_ignores_member_order_witness :
  Json.dumps_sorted (JDict [("type", JStr "Create"); ("id", JStr "a")]) =
  Json.dumps_sorted (JDict [("id", JStr "a"); ("type", JStr "Create")]).
Proof.
  apply dumps_sorted_ignores_member_order.
  - apply perm_swap.
  - cbn [List.map fst]. apply NoDup_cons. split.
    + intros H. apply list_elem_of_singleton in H. discriminate H.
    + apply NoDup_singleton.
Defined.

(** ** Deleting indexes, and the start-up of the ingestion *)

Lemma delete_indexes_cons index_name rest w :
  delete_indexes (index_name :: rest) w =
  match es_request_non_200_exception "DELETE" ("/" +:+ index_name) [] json_headers Empty w with
  | (Ret _, w1) => delete_indexes rest w1
  | (Raise e, w1) => (Raise e, w1)
  | (Hang, w1) => (Hang, w1)
  end.
Proof.
  unfold delete_indexes. cbn [for_each]. unfold bind at 1 2.
  destruct (es_request_non_200_exception _ _ _ _ _ w) as [[r | e | ] w1]; reflexivity.
Qed.

(** One deletion, by the answer of the environment and the state of the
    backend. *)
Lemma delete_one_returns index_name w :
  let answer := w_env w (length (w_trace w)) (delete_request index_name) in
  (exists results w1,
     es_request_non_200_exception "DELETE" ("/" +:+ index_name) [] json_headers Empty w =
       (Ret results, w1)) <->
  e_throw answer = None /\ e_status answer = 200 /\ is_Some (w_es w !! index_name).
Proof.
  cbv zeta. unfold delete_request.
  unfold es_request_non_200_exception, es_request, bind, await. cbv zeta.
  destruct (e_throw _) as [ex|].
  { split; [intros (r & w1 & H); discriminate | intros [H _]; discriminate]. }
  cbn [set_trace w_es].
  destruct (e_status _ =? 200) eqn:Hst.
  - apply Z.eqb_eq in Hst. unfold serve.
    cbn [rq_method rq_path String.eqb Ascii.eqb Bool.eqb index_of_path String.append].
    destruct (w_es w !! index_name) as [als|] eqn:Hl; cbn [ok failed status negb Z.eqb].
    + split; [intros _; repeat split; [exact Hst | now exists als] |].
      intros _. eexists _, _. reflexivity.
    + split; [intros (r & w1 & H); discriminate|].
      intros (_ & _ & [x Hx]). discriminate.
  - cbn [status]. rewrite Hst. cbn [negb].
    split; [intros (r & w1 & H); discriminate|].
    intros (_ & H & _). apply Z.eqb_neq in Hst. contradiction.
Qed.

Lemma delete_indexes_returns index_names :
  forall w w', delete_indexes index_names w = (Ret tt, w') <-> deletes_return index_names w w'.
Proof.
  induction index_names as [|name names IH]; intros w w'.
  - cbn. split; [intros H; now injection H | intros ->; reflexivity].
  - rewrite delete_indexes_cons. cbn [deletes_return].
    destruct (es_request_non_200_exception _ _ _ _ _ w) as [[r | e | ] w1].
    + rewrite IH. split; [intros H; now exists r, w1|].
      intros (r' & w1' & E & H). now injection E as _ <-.
    + split; [discriminate | intros (r' & w1' & E & _); discriminate].
    + split; [discriminate | intros (r' & w1' & E & _); discriminate].
Qed.

Lemma delete_indexes_raises index_names :
  forall w e w',
    delete_indexes index_names w = (Raise e, w') <->
    exists done index_name rest w0,
      index_names = done ++ index_name :: rest /\
      deletes_return done w w0 /\
      es_request_non_200_exception "DELETE" ("/" +:+ index_name) [] json_headers Empty w0 =
        (Raise e, w').
Proof.
  induction index_names as [|name names IH]; intros w e w'.
  - cbn. split; [discriminate|].
    intros (done & n & rest & w0 & H & _). now destruct done.
  - rewrite delete_indexes_cons.
    destruct (es_request_non_200_exception _ _ _ _ _ w) as [[r | e1 | ] w1] eqn:E.
    + rewrite IH. split.
      * intros (done & n & rest & w0 & -> & Hd & Hr).
        exists (name :: done), n, rest, w0. split; [reflexivity|].
        split; [|exact Hr]. cbn [deletes_return]. now exists r, w1.
      * intros (done & n & rest & w0 & Hn & Hd & Hr).
        destruct done as [|d done]; cbn [app] in Hn; injection Hn as <- ->.
        -- cbn [deletes_return] in Hd. subst w0. rewrite E in Hr. discriminate.
        -- cbn [deletes_return] in Hd. destruct Hd as (r' & w1' & E' & Hd).
           rewrite E in E'. injection E' as _ <-.
           now exists done, n, rest, w0.
    + split.
      * intros H. injection H as <- <-. exists [], name, names, w.
        repeat split. exact E.
      * intros (done & n & rest & w0 & Hn & Hd & Hr).
        destruct done as [|d done]; cbn [app] in Hn; injection Hn as <- ->.
        -- cbn [deletes_return] in Hd. subst w0. rewrite E in Hr.
           injection Hr as Hr1 Hr2. now subst.
        -- cbn [deletes_return] in Hd. destruct Hd as (r' & w1' & E' & _).
           rewrite E in E'. discriminate.
    + split; [discriminate|].
      intros (done & n & rest & w0 & Hn & Hd & Hr).
      destruct done as [|d done]; cbn [app] in Hn; injection Hn as <- ->.
      * cbn [deletes_return] in Hd. subst w0. rewrite E in Hr. discriminate.
      * cbn [deletes_return] in Hd. destruct Hd as (r' & w1' & E' & _).
        rewrite E in E'. discriminate.
Qed.

Lemma deletes_return_trace index_names :
  forall w w', deletes_return index_names w w' ->
    w_trace w' = List.rev (List.map delete_request index_names) ++ w_trace w.
Proof.
  induction index_names as [|name names IH]; intros w w' H; cbn [deletes_return] in H.
  - now subst.
  - destruct H as (r & w1 & E & H). apply IH in H. rewrite H.
    pose proof (non_200_trace "DELETE" ("/" +:+ name) [] json_headers Empty w) as Ht.
    rewrite E in Ht. cbn [snd] in Ht. rewrite Ht.
    cbn [List.map List.rev]. now rewrite <- app_assoc.
Qed.

Lemma delete_indexes_no_hang index_names :
  forall w, fst (delete_indexes index_names w) <> Hang.
Proof.
  induction index_names as [|name names IH]; intros w; [discriminate|].
  rewrite delete_indexes_cons.
  pose proof (non_200_no_hang "DELETE" ("/" +:+ name) [] json_headers Empty w) as Hh.
  destruct (es_request_non_200_exception _ _ _ _ _ w) as [[r | e | ] w1]; cbn [fst] in *;
    [apply IH | discriminate | congruence].
Qed.

(** X7.  [delete_indexes] asks for the indexes one at a time, in the order
    of the list, with one [DELETE] each and nothing else.  It returns
    exactly when every one of these requests returns, and then all of them
    were made.  It raises exactly when one of them raises, the requests
    before it having returned: what it raises is what that request raised,
    in the world that request left, so that the names after the failing one
    are never asked for.  A request returns when the environment answers it
    with 200 and the index is there.  [delete_indexes] never hangs, and
    with an empty list it awaits nothing. *)
Theorem delete_indexes_in_order (index_names : list string) (w : world) :
  (forall w',
     delete_indexes index_names w = (Ret tt, w') <-> deletes_return index_names w w') /\
  (forall e w',
     delete_indexes index_names w = (Raise e, w') <->
     exists done index_name rest w0,
       index_names = done ++ index_name :: rest /\
       deletes_return done w w0 /\
       es_request_non_200_exception "DELETE" ("/" +:+ index_name) [] json_headers Empty w0 =
         (Raise e, w') /\
       w_trace w' =
         List.rev (List.map delete_request (done ++ [index_name])) ++ w_trace w) /\
  (forall done w0,
     deletes_return done w w0 ->
     w_trace w0 = List.rev (List.map delete_request done) ++ w_trace w) /\
  (forall index_name w0,
     let answer := w_env w0 (length (w_trace w0)) (delete_request index_name) in
     (exists results w1,
        es_request_non_200_exception "DELETE" ("/" +:+ index_name) [] json_headers Empty w0 =
          (Ret results, w1)) <->
     e_throw answer = None /\ e_status answer = 200 /\ is_Some (w_es w0 !! index_name)) /\
  fst (delete_indexes index_names w) <> Hang /\
  delete_indexes [] w = (Ret tt, w).
Proof.
  split; [apply delete_indexes_returns|]. split.
  { intros e w'. rewrite delete_indexes_raises. split.
    - intros (done & n & rest & w0 & Hn & Hd & Hr).
      exists done, n, rest, w0. repeat split; try assumption.
      pose proof (non_200_trace "DELETE" ("/" +:+ n) [] json_headers Empty w0) as Ht.
      rewrite Hr in Ht. cbn [snd] in Ht. rewrite Ht, (deletes_return_trace _ _ _ Hd).
      rewrite List.map_app, List.rev_app_distr. reflexivity.
    - intros (done & n & rest & w0 & Hn & Hd & Hr & _). now exists done, n, rest, w0. }
  split; [intros done w0; apply deletes_return_trace|].
  split; [intros index_name w0; apply delete_one_returns|].
  split; [apply delete_indexes_no_hang | reflexivity].
Qed.

Lemma delete_indexes_in_order_witness :
  let st : gmap string (list string) :=
    {[ "activities_a"%string := []; "activities_b"%string := [];
       "activities_c"%string := [] ]} in
  let w := world_of st (example_env 1) in
  let run := delete_indexes ["activities_a"; "activities_b"; "activities_c"]%string w in
  fst run = Raise (Exception "boom") /\
  w_trace (snd run) = [delete_request "activities_b"; delete_request "activities_a"] /\
  w_es (snd run) !! "activities_a"%string = None /\
  w_es (snd run) !! "activities_b"%string = Some [] /\
  w_es (snd run) !! "activities_c"%string = Some [].
Proof.
  intros st w run.
  set (w0 := snd (es_request_non_200_exception "DELETE" "/activities_a" [] json_headers
                    Empty w)).
  set (w' := snd (es_request_non_200_exception "DELETE" "/activities_b" [] json_headers
                    Empty w0)).
  destruct (delete_indexes_in_order ["activities_a"; "activities_b"; "activities_c"]%string w)
    as (_ & Hraise & _).
  assert (Hrun : run = (Raise (Exception "boom"), w')).
  { apply Hraise. exists ["activities_a"%string], "activities_b"%string,
      ["activities_c"%string], w0.
    split; [reflexivity|]. split.
    - cbn [deletes_return]. exists (ok (JDict [])), w0.
      split; [vm_compute; reflexivity | reflexivity].
    - split; vm_compute; reflexivity. }
  rewrite Hrun. cbn [fst snd]. repeat split; vm_compute; reflexivity.
Defined.

Lemma unclaimed_spec st ids x :
  x ∈ indexes_matching_no_feeds (listed st false ++ listed st true) ids <->
  (exists als, st !! x = Some als) /\ startswith x "activities_" = true /\
  forall f, f ∈ ids -> str_in (feed_marker f) x = false.
Proof.
  rewrite elem_of_indexes_matching_no_feeds, elem_of_app, listed_without, listed_with.
  split.
  - intros [[[Hl Hs] | (als & Hl & _ & Hs)] Hno]; (split; [eauto | split; assumption]).
  - intros ((als & Hl) & Hs & Hno). split; [|exact Hno].
    destruct als as [|a als]; [left; now split | right].
    exists (a :: als). repeat split; [exact Hl | discriminate | exact Hs].
Qed.

(** X8.  At start-up [ingest_feeds] lists the indexes once and deletes
    those of the namespace whose name has the marker of no configured feed
    in it, and only those: an index outside the namespace, or one that
    matches a configured feed, is never asked to be deleted.  When the
    listing returns and every one of these deletions returns, the loops of
    the feeds are started in the world the last deletion left, after the
    listing and the deletions and nothing else.  When the listing raises, or
    a deletion raises, the requests before it having returned, that
    exception leaves [ingest_feeds] in the world the failing request left:
    no loop is started and no further deletion is asked for.  Nothing else
    can happen. *)
Theorem startup_deletes_unclaimed_indexes (feed_endpoints : list feed)
    (feed_loops : M unit) (w : world) :
  let unclaimed :=
    indexes_matching_no_feeds (listed (w_es w) false ++ listed (w_es w) true)
      (feed_unique_ids feed_endpoints) in
  let start := ingest_feeds feed_endpoints feed_loops w in
  (forall x, x ∈ unclaimed <->
             (exists als, w_es w !! x = Some als) /\
             startswith x "activities_" = true /\
             forall f, f ∈ feed_endpoints -> str_in (feed_marker (unique_id f)) x = false) /\
  (forall e w1, get_old_index_names w = (Raise e, w1) ->
     start = (Raise e, w1) /\ w_trace w1 = listing_request :: w_trace w) /\
  (forall names w1, get_old_index_names w = (Ret names, w1) ->
     names = (listed (w_es w) false, listed (w_es w) true) /\
     w_trace w1 = listing_request :: w_trace w /\
     (forall w2, deletes_return unclaimed w1 w2 ->
        start = feed_loops w2 /\
        w_trace w2 =
          List.rev (List.map delete_request unclaimed) ++ listing_request :: w_trace w) /\
     (forall done index_name rest w0 e w2,
        unclaimed = done ++ index_name :: rest ->
        deletes_return done w1 w0 ->
        es_request_non_200_exception "DELETE" ("/" +:+ index_name) [] json_headers Empty w0 =
          (Raise e, w2) ->
        start = (Raise e, w2) /\
        w_trace w2 =
          List.rev (List.map delete_request (done ++ [index_name]))
            ++ listing_request :: w_trace w)) /\
  ((exists names w1 w2,
      get_old_index_names w = (Ret names, w1) /\ deletes_return unclaimed w1 w2 /\
      start = feed_loops w2) \/
   (exists e w1, start = (Raise e, w1) /\
      (get_old_index_names w = (Raise e, w1) \/
       exists names w0, get_old_index_names w = (Ret names, w0) /\
                        delete_indexes unclaimed w0 = (Raise e, w1)))).
Proof.
  cbv zeta.
  set (unclaimed := indexes_matching_no_feeds _ _).
  destruct (get_old_index_names_trace w) as [Ht Hh].
  split.
  { intros x. unfold unclaimed. rewrite unclaimed_spec. unfold feed_unique_ids.
    split; intros (Hl & Hs & Hno); (split; [exact Hl|]; split; [exact Hs|]).
    - intros f Hf. apply Hno. apply list_elem_of_In, in_map, list_elem_of_In, Hf.
    - intros id Hid. apply list_elem_of_In, in_map_iff in Hid as (f & <- & Hf).
      apply Hno, list_elem_of_In, Hf. }
  split.
  { intros e w1 E. rewrite E in Ht. cbn [snd] in Ht. split; [|exact Ht].
    unfold ingest_feeds. cbv zeta. rewrite bind_cases, E. reflexivity. }
  split.
  { intros names w1 E. rewrite E in Ht. cbn [snd] in Ht.
    pose proof E as E'. apply get_old_index_names_listed in E' as [-> Hes].
    split; [reflexivity|]. split; [exact Ht|].
    assert (Hstart : ingest_feeds feed_endpoints feed_loops w =
                     bind (delete_indexes unclaimed) (fun _ => feed_loops) w1).
    { unfold ingest_feeds. cbv zeta. rewrite bind_cases, E. reflexivity. }
    split.
    - intros w2 Hd. rewrite Hstart, bind_cases.
      pose proof (deletes_return_trace _ _ _ Hd) as Htr.
      apply delete_indexes_returns in Hd. rewrite Hd.
      split; [reflexivity | now rewrite Htr, Ht].
    - intros done n rest w0 e w2 Hn Hd Hr. rewrite Hstart, bind_cases.
      assert (Hraise : delete_indexes unclaimed w1 = (Raise e, w2)).
      { apply delete_indexes_raises. now exists done, n, rest, w0. }
      rewrite Hraise. split; [reflexivity|].
      pose proof (non_200_trace "DELETE" ("/" +:+ n) [] json_headers Empty w0) as Hq.
      rewrite Hr in Hq. cbn [snd] in Hq.
      rewrite Hq, (deletes_return_trace _ _ _ Hd), Ht.
      rewrite List.map_app, List.rev_app_distr, <- app_assoc. reflexivity. }
  unfold ingest_feeds. cbv zeta. rewrite bind_cases.
  destruct (get_old_index_names w) as [[names | e | ] w1] eqn:E; cbn [fst] in Hh.
  - pose proof E as E'. apply get_old_index_names_listed in E' as [-> Hes].
    cbn [fst snd]. fold unclaimed. rewrite bind_cases.
    pose proof (delete_indexes_no_hang unclaimed w1) as Hnh.
    destruct (delete_indexes unclaimed w1) as [[[] | e | ] w2] eqn:Ed; cbn [fst] in Hnh.
    + left. exists (listed (w_es w) false, listed (w_es w) true), w1, w2.
      split; [reflexivity|]. split; [now apply delete_indexes_returns | reflexivity].
    + right. exists e, w2. split; [reflexivity|]. right.
      now exists (listed (w_es w) false, listed (w_es w) true), w1.
    + congruence.
  - right. exists e, w1. split; [reflexivity | now left].
  - congruence.
Qed.

Lemma startup_deletes_unclaimed_indexes_witness :
  let gone := "activities__feed_id_GONE__1"%string in
  let st : gmap string (list string) :=
    {[ "activities__feed_id_F1__old"%string := ["activities"%string]; gone := [] ]} in
  let w := world_of st (example_env 1) in
  let start := ingest_feeds [example_feed] (sleep 9) w in
  fst start = Raise (Exception "boom") /\
  w_trace (snd start) = [delete_request gone; listing_request] /\
  w_es (snd start) !! gone = Some [].
Proof.
  intros gone st w start.
  set (w1 := snd (get_old_index_names w)).
  set (w2 := snd (es_request_non_200_exception "DELETE" ("/" +:+ gone) [] json_headers
                    Empty w1)).
  destruct (startup_deletes_unclaimed_indexes [example_feed] (sleep 9) w)
    as (_ & _ & Hlisted & _).
  assert (Hlist : get_old_index_names w =
                  (Ret ([gone], ["activities__feed_id_F1__old"%string]), w1))
    by (vm_compute; reflexivity).
  destruct (Hlisted _ _ Hlist) as (_ & _ & _ & Hfails).
  destruct (Hfails [] gone [] w1 (Exception "boom") w2) as [Hstart _].
  - vm_compute. reflexivity.
  - reflexivity.
  - vm_compute. reflexivity.
  - unfold start. rewrite Hstart. cbn [fst snd]. repeat split; vm_compute; reflexivity.
Defined.

(** ** The counts of a feed *)

(** X9.  When the first count of a feed, that of its documents outside the
    alias, is answered with 503, [es_feed_activities_total] raises
    [ESMetricsUnavailable] at once: the second count is never asked for. *)
Theorem feed_totals_stop_at_first_503 (feed_id : string) (w : world) :
  answers_503 (w_env w (length (w_trace w))
                 (count_request (feed_nonsearchable_path feed_id))) ->
  es_feed_activities_total feed_id w =
    (Raise ESMetricsUnavailable,
     set_trace (count_request (feed_nonsearchable_path feed_id) :: w_trace w) w).
Proof.
  intros H. unfold es_feed_activities_total.
  rewrite <- bind_assoc.
  apply bind_raise_step. now apply maybe_unavailable_count_503.
Qed.

Lemma feed_totals_stop_at_first_503_witness :
  let w := world_of ∅ (fun _ => example_answers) in
  fst (es_feed_activities_total "F1" w) = Raise ESMetricsUnavailable /\
  w_trace (snd (es_feed_activities_total "F1" w)) =
    [count_request (feed_nonsearchable_path "F1")].
Proof.
  cbv zeta.
  rewrite (feed_totals_stop_at_first_503 "F1" (world_of ∅ (fun _ => example_answers))).
  - split; reflexivity.
  - split; reflexivity.
Defined.

(** ** One page of a feed *)

Lemma ingest_feed_page_cases (feed : feed) (index_names : list string)
    (href : string) (w : world) :
  let fetch := CallFeed href (auth_headers feed href) in
  let answer := w_env w (length (w_trace w)) fetch in
  let run := ingest_feed_page feed index_names href w in
  (w_trace (snd run) = fetch :: w_trace w \/
   exists page items,
     e_throw answer = None /\ e_status answer = 200 /\ e_page answer = Some page /\
     convert_to_bulk_es feed page index_names = Some items /\ items <> [] /\
     w_trace (snd run) = bulk_request items :: fetch :: w_trace w) /\
  (e_throw answer = None -> e_status answer <> 200 ->
   run = (Raise (Exception (e_text answer)), set_trace (fetch :: w_trace w) w)) /\
  (forall next w', run = (Ret next, w') ->
     exists page, e_page answer = Some page /\ next = next_href feed page).
Proof.
  cbv zeta. unfold ingest_feed_page, get_feed_contents, bind, await. cbv zeta.
  destruct (e_throw (w_env w (length (w_trace w)) (CallFeed href (auth_headers feed href))))
    as [ex|] eqn:Hthrow.
  { split; [left; reflexivity|]. split; [discriminate|]. discriminate. }
  destruct (e_status (w_env w (length (w_trace w)) (CallFeed href (auth_headers feed href)))
              =? 200) eqn:Hst; cbn [negb raise ret].
  2:{ split; [left; reflexivity|]. split; [reflexivity|]. discriminate. }
  apply Z.eqb_eq in Hst.
  destruct (e_page (w_env w (length (w_trace w)) (CallFeed href (auth_headers feed href))))
    as [page|] eqn:Hpage; cbn [lift_option raise ret].
  2:{ split; [left; reflexivity|]. split; [congruence|]. discriminate. }
  destruct (convert_to_bulk_es feed page index_names) as [items|] eqn:Hconv;
    cbn [lift_option raise ret].
  2:{ split; [left; reflexivity|]. split; [congruence|]. discriminate. }
  destruct items as [|item items].
  { cbn [es_bulk ret]. split; [left; reflexivity|]. split; [congruence|].
    intros next w' H. injection H as <- _. now exists page. }
  cbn [es_bulk]. unfold bind.
  pose proof (non_200_trace "POST" "/_bulk" [] [("Content-Type", "application/x-ndjson")]
                (NdJson (item :: items))
                (set_trace (CallFeed href (auth_headers feed href) :: w_trace w) w)) as Ht.
  split; [right | split; [congruence|]].
  - exists page, (item :: items). repeat split; try assumption; [discriminate|].
    destruct (es_request_non_200_exception _ _ _ _ _ _) as [[r | e | ] w1];
      cbn [snd fst ret] in *; exact Ht.
  - intros next w' H.
    destruct (es_request_non_200_exception _ _ _ _ _ _) as [[r | e | ] w1];
      cbn [ret] in H; try discriminate.
    injection H as <- _. now exists page.
Qed.

(** X10.  A page costs one fetch of the feed and at most one bulk request:
    the bulk request is issued only when the feed answered with 200, the
    page could be read and its conversion is not empty, and it carries that
    conversion.  If the feed answers with another status the page raises an
    [Exception] with the text of the answer and the backend is not
    reached. *)
Theorem page_is_one_fetch_and_at_most_one_bulk (feed : feed) (index_names : list string)
    (href : string) (w : world) :
  let fetch := CallFeed href (auth_headers feed href) in
  let answer := w_env w (length (w_trace w)) fetch in
  let run := ingest_feed_page feed index_names href w in
  (w_trace (snd run) = fetch :: w_trace w \/
   exists page items,
     e_throw answer = None /\ e_status answer = 200 /\ e_page answer = Some page /\
     convert_to_bulk_es feed page index_names = Some items /\ items <> [] /\
     w_trace (snd run) = bulk_request items :: fetch :: w_trace w) /\
  (e_throw answer = None -> e_status answer <> 200 ->
   run = (Raise (Exception (e_text answer)), set_trace (fetch :: w_trace w) w)) /\
  (forall next w', run = (Ret next, w') ->
     exists page, e_page answer = Some page /\ next = next_href feed page).
Proof. apply ingest_feed_page_cases. Qed.

(** ** The full ingest from end to end *)

Global Instance same_stage_kv_preorder : PreOrder same_stage_kv.
Proof.
  split.
  - intros w. split; reflexivity.
  - intros a b c [H1 H2] [H3 H4]. split; congruence.
Qed.

Lemma await_stage_kv c : keeps same_stage_kv (await c).
Proof. intros w. rewrite await_world. split; reflexivity. Qed.

Lemma es_request_stage_kv method path query headers payload :
  keeps same_stage_kv (es_request method path query headers payload).
Proof.
  unfold es_request. apply keeps_bind; [apply _ | apply await_stage_kv |].
  intros e w. destruct (e_status e =? 200); [|split; reflexivity].
  destruct (serve _ _ _). split; reflexivity.
Qed.

Lemma non_200_stage_kv method path query headers payload :
  keeps same_stage_kv (es_request_non_200_exception method path query headers payload).
Proof.
  unfold es_request_non_200_exception.
  apply keeps_bind; [apply _ | apply es_request_stage_kv |].
  intros r. destruct (negb _); [apply keeps_raise | apply keeps_ret]; apply _.
Qed.

Lemma unit_request_stage_kv method path query headers payload :
  keeps same_stage_kv
    (bind (es_request_non_200_exception method path query headers payload)
       (fun _ => ret tt)).
Proof.
  apply keeps_bind; [apply _ | apply non_200_stage_kv |].
  intros _. apply keeps_ret, _.
Qed.

Lemma get_old_index_names_stage_kv : keeps same_stage_kv get_old_index_names.
Proof.
  unfold get_old_index_names.
  apply keeps_bind; [apply _ | apply non_200_stage_kv |].
  intros r. repeat (apply keeps_bind; [apply _ | apply keeps_lift_option, _ |]; intros ?).
  apply keeps_ret, _.
Qed.

Lemma delete_indexes_stage_kv index_names : keeps same_stage_kv (delete_indexes index_names).
Proof.
  unfold delete_indexes. apply keeps_for_each; [apply _|].
  intros x. apply unit_request_stage_kv.
Qed.

Lemma sleep_stage_kv interval : keeps same_stage_kv (sleep interval).
Proof.
  unfold sleep. apply keeps_bind; [apply _ | apply await_stage_kv |].
  intros _. apply keeps_ret, _.
Qed.

Lemma es_bulk_stage_kv items : keeps same_stage_kv (es_bulk items).
Proof.
  destruct items; cbn [es_bulk]; [apply keeps_ret, _ | apply unit_request_stage_kv].
Qed.

Lemma ingest_feed_page_stage_kv feed index_names href :
  keeps same_stage_kv (ingest_feed_page feed index_names href).
Proof.
  unfold ingest_feed_page, get_feed_contents.
  apply keeps_bind; [apply _ | |].
  { apply keeps_bind; [apply _ | apply await_stage_kv |].
    intros r. destruct (negb _); [apply keeps_raise | apply keeps_ret]; apply _. }
  intros feed_contents.
  apply keeps_bind; [apply _ | apply keeps_lift_option, _ |]. intros page.
  apply keeps_bind; [apply _ | apply keeps_lift_option, _ |]. intros items.
  apply keeps_bind; [apply _ | apply es_bulk_stage_kv |].
  intros _. apply keeps_ret, _.
Qed.

Lemma full_page_loop_stage_kv fuel feed index_name href updates_href :
  keeps same_stage_kv (full_page_loop fuel feed index_name href updates_href).
Proof.
  revert href updates_href. induction fuel as [|fuel IH]; intros href updates_href;
    cbn [full_page_loop]; destruct (href_truthy href) as [h|];
    try apply keeps_ret, _; try apply keeps_hang, _.
  apply keeps_bind; [apply _ | apply ingest_feed_page_stage_kv |].
  intros next. apply keeps_bind; [apply _ | apply sleep_stage_kv |].
  intros _. apply IH.
Qed.

Lemma bind_enter {A} st (k : unit -> M A) w :
  bind (enter st) k w = k tt (set_stage st w).
Proof. reflexivity. Qed.

Section LateRaise.

Context (feed_id : string).

Lemma late_bind {A B} (m : M A) (k : A -> M B) :
  keeps same_stage_kv m ->
  (forall a, late_raise_is_unbound feed_id (k a)) ->
  late_raise_is_unbound feed_id (bind m k).
Proof.
  intros Hm Hk w e w' Hst Hkv H Hst'.
  destruct (Hm w) as [Hs Hv].
  apply bind_raise_inv in H as [H | (a & w1 & H1 & H2)].
  - rewrite H in Hs. cbn [snd] in Hs. congruence.
  - rewrite H1 in Hs, Hv. cbn [snd] in Hs, Hv.
    apply (Hk a w1 e w'); [congruence | congruence | exact H2 | exact Hst'].
Qed.

Lemma late_bind_ret {A B} (m : M A) (k : A -> M B) a0 :
  (forall w, m w = (Ret a0, w)) ->
  late_raise_is_unbound feed_id (k a0) ->
  late_raise_is_unbound feed_id (bind m k).
Proof.
  intros Hm Hk w e w' Hst Hkv H Hst'.
  rewrite (bind_step m k w a0 w (Hm w)) in H.
  exact (Hk w e w' Hst Hkv H Hst').
Qed.

Lemma late_enter {A} st (k : M A) :
  st <> StRecordCursor ->
  late_raise_is_unbound feed_id k ->
  late_raise_is_unbound feed_id (bind (enter st) (fun _ => k)).
Proof.
  intros Hne Hk w e w' Hst Hkv H Hst'. rewrite bind_enter in H.
  exact (Hk (set_stage st w) e w' Hne Hkv H Hst').
Qed.

Lemma add_remove_trace index_name w :
  w_trace (snd (add_remove_aliases_atomically index_name feed_id w)) =
  aliases_request ("activities__feed_id_" +:+ feed_id +:+ "__*") index_name :: w_trace w.
Proof.
  unfold add_remove_aliases_atomically. cbv zeta. rewrite bind_cases.
  pose proof (non_200_trace "POST" "/_aliases" [] json_headers
                (JsonBody (alias_actions_json (ALIAS +:+ "__feed_id_" +:+ feed_id +:+ "__*")
                             index_name)) w) as Ht.
  destruct (es_request_non_200_exception _ _ _ _ _ w) as [[r | e | ] w1];
    cbn [snd ret] in *; exact Ht.
Qed.

Lemma add_remove_stage_kv index_name :
  keeps same_stage_kv (add_remove_aliases_atomically index_name feed_id).
Proof. unfold add_remove_aliases_atomically. apply unit_request_stage_kv. Qed.

Lemma late_cutover_unbound index_name :
  late_raise_is_unbound feed_id
    (bind (add_remove_aliases_atomically index_name feed_id)
       (fun _ => bind (enter StRecordCursor)
          (fun _ => bind (lift_option UnboundLocalError None)
             (fun updates_href => set_feed_updates_seed_url feed_id updates_href)))).
Proof.
  intros w e w' Hst Hkv H Hst'.
  destruct (add_remove_stage_kv index_name w) as [Hs Hv].
  pose proof (add_remove_trace index_name w) as Ht.
  apply bind_raise_inv in H as [H | (a & w1 & H1 & H2)].
  - rewrite H in Hs. cbn [snd] in Hs. congruence.
  - rewrite H1 in Hs, Hv, Ht. cbn [snd] in Hs, Hv, Ht.
    rewrite bind_enter in H2. cbn in H2. injection H2 as <- <-.
    split; [reflexivity|]. split.
    + exists index_name. cbn [set_stage w_trace]. rewrite Ht. reflexivity.
    + cbn [set_stage w_kv]. congruence.
Qed.

End LateRaise.

Lemma full_page_loop_no_seed fuel feed index_name w :
  seed feed = EmptyString ->
  full_page_loop fuel feed index_name (Some (seed feed)) None w = (Ret None, w).
Proof. intros ->. destruct fuel; reflexivity. Qed.

Lemma ingest_feed_full_no_seed_late fuel feed :
  seed feed = EmptyString ->
  late_raise_is_unbound (unique_id feed)
    (bind (enter StScrub)
       (fun _ =>
          bind get_old_index_names
            (fun names =>
               bind (delete_indexes (indexes_matching_feeds (fst names) [unique_id feed]))
                 (fun _ =>
                    bind (enter StCreate)
                      (fun _ =>
                         bind (new_index_name (unique_id feed))
                           (fun index_name =>
                              bind (create_index index_name)
                                (fun _ =>
                                   bind (enter StPageLoop)
                                     (fun _ =>
                                        bind (full_page_loop fuel feed index_name
                                                (Some (seed feed)) None)
                                          (fun updates_href =>
                                             bind (enter StRefresh)
                                               (fun _ =>
                                                  bind (refresh_index index_name)
                                                    (fun _ =>
                                                       bind (enter StCutover)
                                                         (fun _ =>
                                                            bind (add_remove_aliases_atomically
                                                                    index_name (unique_id feed))
                                                              (fun _ =>
                                                                 bind (enter StRecordCursor)
                                                                   (fun _ =>
                                                                      bind (lift_option
                                                                              UnboundLocalError
                                                                              updates_href)
                                                                        (fun updates_href0 =>
                                                                           set_feed_updates_seed_url
                                                                             (unique_id feed)
                                                                             updates_href0))))))))))))))).
Proof.
  intros Hseed.
  apply late_enter; [discriminate|].
  apply late_bind; [apply get_old_index_names_stage_kv | intros names].
  apply late_bind; [apply delete_indexes_stage_kv | intros _].
  apply late_enter; [discriminate|].
  apply late_bind; [intros w; split; reflexivity | intros index_name].
  apply late_bind; [apply unit_request_stage_kv | intros _].
  apply late_enter; [discriminate|].
  apply (late_bind_ret _ _ _ None); [intros w; now apply full_page_loop_no_seed|].
  apply late_enter; [discriminate|].
  apply late_bind; [apply unit_request_stage_kv | intros _].
  apply late_enter; [discriminate|].
  apply late_cutover_unbound.
Qed.

(** X11.  A feed whose seed is the empty string: the page loop of the full
    ingest does not run once, so [updates_href] is never bound.  The full
    ingest then never returns; and when everything up to the cutover goes
    through, it raises [UnboundLocalError] after the alias has been moved to
    the new, empty index, with the seed cursor still at the unset
    sentinel. *)
Theorem full_ingest_without_seed (fuel : nat) (feed : feed) (w : world) :
  seed feed = EmptyString ->
  (forall w', ingest_feed_full fuel feed w <> (Ret tt, w')) /\
  (forall e w',
     ingest_feed_full fuel feed w = (Raise e, w') -> w_stage w' = StRecordCursor ->
     e = UnboundLocalError /\
     (exists index_name,
        hd_error (w_trace w') =
          Some (aliases_request ("activities__feed_id_" +:+ unique_id feed +:+ "__*")
                  index_name)) /\
     w_kv w' !! FEED_UPDATES_SEED_URL (unique_id feed) = Some (KvStr NOT_SET)).
Proof.
  intros Hseed. split.
  - intros w' H. unfold ingest_feed_full in H.
    rewrite bind_enter in H.
    apply bind_ret_inv in H as (_ & w1 & _ & H). rewrite bind_enter in H.
    apply bind_ret_inv in H as (names & w2 & _ & H).
    apply bind_ret_inv in H as (_ & w3 & _ & H). rewrite bind_enter in H.
    apply bind_ret_inv in H as (index_name & w4 & _ & H).
    apply bind_ret_inv in H as (_ & w5 & _ & H). rewrite bind_enter in H.
    apply bind_ret_inv in H as (updates_href & w6 & Hloop & H).
    rewrite full_page_loop_no_seed in Hloop by exact Hseed.
    injection Hloop as <- _.
    rewrite bind_enter in H.
    apply bind_ret_inv in H as (_ & w7 & _ & H). rewrite bind_enter in H.
    apply bind_ret_inv in H as (_ & w8 & _ & H). rewrite bind_enter in H.
    apply bind_ret_inv in H as (u & w9 & Hu & _). discriminate Hu.
  - intros e w' H Hst. unfold ingest_feed_full in H.
    rewrite bind_enter in H.
    apply bind_raise_inv in H as [H | ([] & w1 & H1 & H2)].
    + exfalso.
      pose proof (await_world (CallKvSet (FEED_UPDATES_SEED_URL (unique_id feed)))
                    (set_stage StInit w)) as Hw.
      unfold set_feed_updates_seed_url_init, kv_set in H. rewrite bind_cases in H.
      destruct (await _ _) as [[r | ex | ] w0]; cbn [snd] in Hw; try discriminate.
      injection H as _ <-. rewrite Hw in Hst. discriminate Hst.
    + assert (w_stage w1 = StInit /\
              w_kv w1 !! FEED_UPDATES_SEED_URL (unique_id feed) = Some (KvStr NOT_SET))
        as [Hs1 Hk1].
      { pose proof (await_world (CallKvSet (FEED_UPDATES_SEED_URL (unique_id feed)))
                      (set_stage StInit w)) as Hw.
        unfold set_feed_updates_seed_url_init, kv_set in H1. rewrite bind_cases in H1.
        destruct (await _ _) as [[r | ex | ] w0]; cbn [snd] in Hw; try discriminate.
        injection H1 as <-. rewrite Hw. split; [reflexivity|].
        cbn [set_kv w_kv]. apply lookup_insert_eq. }
      apply (ingest_feed_full_no_seed_late fuel feed Hseed w1 e w');
        [rewrite Hs1; discriminate | exact Hk1 | exact H2 | exact Hst].
Qed.

Lemma full_ingest_without_seed_witness :
  let w := world_of example_backend (example_env 100) in
  let run := ingest_feed_full 5 example_feed_no_seed w in
  fst run = Raise UnboundLocalError /\
  w_kv (snd run) !! FEED_UPDATES_SEED_URL "F1" = Some (KvStr NOT_SET).
Proof.
  intros w run.
  assert (H1 : fst run = Raise UnboundLocalError) by (vm_compute; reflexivity).
  assert (H2 : w_stage (snd run) = StRecordCursor) by (vm_compute; reflexivity).
  split; [exact H1|].
  refine (proj2 (proj2 (proj2 (full_ingest_without_seed 5 example_feed_no_seed w eq_refl)
                          UnboundLocalError (snd run) _ H2))).
  rewrite <- H1. apply surjective_pairing.
Defined.

Lemma sleep_ret interval w w' :
  sleep interval w = (Ret tt, w') -> w' = set_trace (CallSleep interval :: w_trace w) w.
Proof.
  unfold sleep. rewrite bind_cases.
  pose proof (await_world (CallSleep interval) w) as Hw.
  destruct (await (CallSleep interval) w) as [[r | e | ] w1]; cbn [snd ret] in *;
    try discriminate.
  intros H. injection H as <-. exact Hw.
Qed.

Lemma kv_set_ret key v w w' :
  kv_set key v w = (Ret tt, w') ->
  w_trace w' = CallKvSet key :: w_trace w /\ w_kv w' !! key = Some v.
Proof.
  unfold kv_set. rewrite bind_cases.
  pose proof (await_world (CallKvSet key) w) as Hw.
  destruct (await (CallKvSet key) w) as [[r | e | ] w1]; cbn [snd] in *; try discriminate.
  intros H. injection H as <-. subst w1. split; [reflexivity|].
  cbn [set_kv w_kv]. apply lookup_insert_eq.
Qed.

Lemma unit_request_trace method path query headers payload w :
  w_trace (snd (bind (es_request_non_200_exception method path query headers payload)
                  (fun _ => ret tt) w)) =
  CallEs {| rq_method := method; rq_path := path; rq_query := query;
            rq_headers := headers; rq_payload := payload |} :: w_trace w.
Proof.
  rewrite bind_cases.
  pose proof (non_200_trace method path query headers payload w) as Ht.
  destruct (es_request_non_200_exception _ _ _ _ _ w) as [[r | e | ] w1];
    cbn [snd ret] in *; exact Ht.
Qed.

Lemma href_truthy_some href h : href_truthy href = Some h -> h <> EmptyString.
Proof.
  unfold href_truthy. destruct href as [s|]; [|discriminate].
  destruct (String.eqb s EmptyString) eqn:E; [discriminate|].
  intros H. injection H as <-. now apply String.eqb_neq.
Qed.

Lemma href_truthy_eq href h : href_truthy href = Some h -> href = Some h.
Proof.
  unfold href_truthy. destruct href as [s|]; [|discriminate].
  destruct (String.eqb s EmptyString); [discriminate|]. trivial.
Qed.

Lemma full_page_loop_last_fetch fuel feed index_name :
  forall href u w r w',
    full_page_loop fuel feed index_name href u w = (Ret r, w') ->
    (forall h0, u = Some h0 -> h0 <> EmptyString /\ last_fetch (w_trace w) = Some h0) ->
    forall h, r = Some h -> h <> EmptyString /\ last_fetch (w_trace w') = Some h.
Proof.
  induction fuel as [|fuel IH]; intros href u w r w' H Hu h Hr;
    cbn [full_page_loop] in H; destruct (href_truthy href) as [h1|] eqn:Eh;
    try discriminate;
    try (injection H as <- <-; now apply Hu).
  apply bind_ret_inv in H as (next & w1 & Hp & H).
  apply bind_ret_inv in H as ([] & w2 & Hs & H).
  apply (IH next (Some h1) w2 r w' H); [|exact Hr].
  intros h0 E. injection E as <-. split; [exact (href_truthy_some _ _ Eh)|].
  apply sleep_ret in Hs. subst w2. cbn [set_trace w_trace last_fetch].
  destruct (ingest_feed_page_cases feed [index_name] h1 w) as [Hc _].
  cbv zeta in Hc. rewrite Hp in Hc. cbn [snd] in Hc.
  destruct Hc as [-> | (page & items & _ & _ & _ & _ & _ & ->)]; reflexivity.
Qed.

Lemma lift_option_ret {A} e (o : option A) w a w' :
  lift_option e o w = (Ret a, w') -> o = Some a /\ w' = w.
Proof. destruct o; cbn; [|discriminate]. intros H. injection H as <- <-. now split. Qed.

(** X12.  A full ingest that returns has done this, in this order: the
    awaits of init and scrub, the creation of the new index, the awaits of
    the page loop, the refresh of the new index, one request to [/_aliases]
    for that same index, and the write of the seed cursor.  No other alias
    operation is in the run, and the cursor that is stored is not empty and
    is the href of the last page that was fetched. *)
Theorem full_ingest_success_shape (fuel : nat) (feed : feed) (w w' : world) :
  ingest_feed_full fuel feed w = (Ret tt, w') ->
  exists index_name updates_href pages before,
    w_trace w' =
      CallKvSet (FEED_UPDATES_SEED_URL (unique_id feed))
        :: aliases_request ("activities__feed_id_" +:+ unique_id feed +:+ "__*") index_name
        :: refresh_request index_name
        :: pages ++ create_request index_name :: before ++ w_trace w /\
    Forall (fun c => is_alias_post c = false) (pages ++ before) /\
    w_kv w' !! FEED_UPDATES_SEED_URL (unique_id feed) = Some (KvStr updates_href) /\
    updates_href <> EmptyString /\
    last_fetch (w_trace w') = Some updates_href.
Proof.
  intros H. unfold ingest_feed_full in H.
  rewrite bind_enter in H.
  apply bind_ret_inv in H as ([] & w1 & H1 & H). rewrite bind_enter in H.
  apply bind_ret_inv in H as (names & w2 & H2 & H).
  apply bind_ret_inv in H as ([] & w3 & H3 & H). rewrite bind_enter in H.
  apply bind_ret_inv in H as (index_name & w4 & H4 & H).
  apply bind_ret_inv in H as ([] & w5 & H5 & H). rewrite bind_enter in H.
  apply bind_ret_inv in H as (updates_href & w6 & H6 & H). rewrite bind_enter in H.
  apply bind_ret_inv in H as ([] & w7 & H7 & H). rewrite bind_enter in H.
  apply bind_ret_inv in H as ([] & w8 & H8 & H). rewrite bind_enter in H.
  apply bind_ret_inv in H as (href & w9 & H9 & H).
  apply lift_option_ret in H9 as [-> ->].
  (* init and scrub *)
  assert (trace_extends (fun c => is_alias_post c = false) w w3) as (before & Hb & Fb).
  { transitivity (set_stage StInit w); [now apply trace_extends_same|].
    transitivity w1.
    { pose proof (kv_set_untouched (FEED_UPDATES_SEED_URL (unique_id feed)) (KvStr NOT_SET)
                    (set_stage StInit w)) as [Hk _].
      unfold set_feed_updates_seed_url_init in H1. now rewrite H1 in Hk. }
    transitivity (set_stage StScrub w1); [now apply trace_extends_same|].
    pose proof (scrub_untouched (unique_id feed) (set_stage StScrub w1)) as [Hk _].
    rewrite (bind_step _ _ _ _ _ H2), H3 in Hk. exact Hk. }
  (* create *)
  unfold new_index_name in H4. injection H4 as Hname <-.
  assert (w_trace w5 = create_request index_name :: w_trace w3) as Hc.
  { pose proof (unit_request_trace "PUT" ("/" +:+ index_name) [] json_headers
                  (JsonBody index_definition) (set_stage StCreate w3)) as Ht.
    unfold create_index in H5. now rewrite H5 in Ht. }
  (* the pages *)
  assert (trace_extends (fun c => is_alias_post c = false) w5 w6) as (pages & Hp & Fp).
  { transitivity (set_stage StPageLoop w5); [now apply trace_extends_same|].
    pose proof (full_page_loop_untouched fuel feed index_name (Some (seed feed)) None
                  (set_stage StPageLoop w5)) as [Hk _].
    now rewrite H6 in Hk. }
  destruct (full_page_loop_last_fetch fuel feed index_name _ _ _ _ _ H6
              ltac:(discriminate) href eq_refl) as [Hne Hlast].
  (* refresh, cutover, cursor *)
  assert (w_trace w7 = refresh_request index_name :: w_trace w6) as Hr.
  { pose proof (unit_request_trace "POST" ("/" +:+ index_name +:+ "/_refresh") []
                  json_headers Empty (set_stage StRefresh w6)) as Ht.
    unfold refresh_index in H7. now rewrite H7 in Ht. }
  assert (w_trace w8 =
          aliases_request ("activities__feed_id_" +:+ unique_id feed +:+ "__*") index_name
            :: w_trace w7) as Ha.
  { pose proof (add_remove_trace (unique_id feed) index_name (set_stage StCutover w7)) as Ht.
    now rewrite H8 in Ht. }
  unfold set_feed_updates_seed_url in H. apply kv_set_ret in H as [Ht Hkv].
  cbn [set_stage w_trace] in Ht.
  exists index_name, href, pages, before.
  assert (w_trace w' =
          CallKvSet (FEED_UPDATES_SEED_URL (unique_id feed))
            :: aliases_request ("activities__feed_id_" +:+ unique_id feed +:+ "__*") index_name
            :: refresh_request index_name
            :: pages ++ create_request index_name :: before ++ w_trace w) as Htrace.
  { rewrite Ht, Ha, Hr, Hp. cbn [set_stage w_trace]. rewrite Hc, Hb. reflexivity. }
  split; [exact Htrace|]. split; [now apply Forall_app|].
  split; [exact Hkv|]. split; [exact Hne|].
  rewrite Ht, Ha, Hr. exact Hlast.
Qed.

Lemma full_ingest_success_shape_witness :
  let w := world_of example_backend (example_env 100) in
  let run := ingest_feed_full 5 example_feed w in
  fst run = Ret tt /\
  exists index_name updates_href pages before,
    w_trace (snd run) =
      CallKvSet (FEED_UPDATES_SEED_URL "F1")
        :: aliases_request ("activities__feed_id_" +:+ "F1" +:+ "__*") index_name
        :: refresh_request index_name
        :: pages ++ create_request index_name :: before ++ w_trace w /\
    Forall (fun c => is_alias_post c = false) (pages ++ before) /\
    w_kv (snd run) !! FEED_UPDATES_SEED_URL "F1" = Some (KvStr updates_href) /\
    updates_href <> EmptyString /\
    last_fetch (w_trace (snd run)) = Some updates_href.
Proof.
  intros w run.
  assert (H1 : fst run = Ret tt) by (vm_compute; reflexivity).
  split; [exact H1|].
  apply (full_ingest_success_shape 5 example_feed w (snd run)).
  rewrite <- H1. apply surjective_pairing.
Defined.

(** ** What an updates pass asks of the backend *)

Lemma keeps_for_each_in (R : world -> world -> Prop) `{!PreOrder R} {A}
    (xs : list A) (body : A -> M unit) :
  (forall x, x ∈ xs -> keeps R (body x)) -> keeps R (for_each xs body).
Proof.
  induction xs as [|x xs IH]; intros H; cbn [for_each].
  - apply keeps_ret, _.
  - apply keeps_bind; [apply _ | apply H, list_elem_of_here |].
    intros _. apply IH. intros y Hy. apply H. now apply list_elem_of_further.
Qed.

Section UpdatesRequests.

Context (feed : feed) (live : list string).

Lemma quiet_not_request c :
  (forall rq, c <> CallEs rq) ->
  refreshes_only live c /\ leaves_index_set c = true.
Proof.
  intros H. split.
  - intros rq E. now destruct (H rq).
  - destruct c; try reflexivity. now destruct (H rq).
Qed.

Lemma quiet_bulk items :
  refreshes_only live (bulk_request items) /\ leaves_index_set (bulk_request items) = true.
Proof.
  split; [|reflexivity].
  intros rq E _ Hend. injection E as <-. cbn in Hend. discriminate.
Qed.

Lemma quiet_listing :
  refreshes_only live listing_request /\ leaves_index_set listing_request = true.
Proof.
  split; [|reflexivity].
  intros rq E Hm. injection E as <-. cbn in Hm. discriminate.
Qed.

Lemma quiet_refresh index_name :
  index_name ∈ live ->
  refreshes_only live (refresh_request index_name) /\
  leaves_index_set (refresh_request index_name) = true.
Proof.
  intros Hin. split.
  - intros rq _ _ _. now exists index_name.
  - unfold leaves_index_set, refresh_request, is_alias_post.
    cbn [rq_method rq_path]. rewrite refresh_path_long by (cbn; lia). reflexivity.
Qed.

Lemma ingest_feed_page_quiet targets href :
  keeps (trace_extends (fun c => refreshes_only live c /\ leaves_index_set c = true))
    (ingest_feed_page feed targets href).
Proof using Type.
  unfold ingest_feed_page, get_feed_contents.
  apply keeps_bind; [apply _ | |].
  { apply keeps_bind; [apply _ | |].
    - apply keeps_trace_await. now apply quiet_not_request.
    - intros r. destruct (negb _); [apply keeps_raise | apply keeps_ret]; apply _. }
  intros feed_contents.
  apply keeps_bind; [apply _ | apply keeps_lift_option, _ |]. intros page.
  apply keeps_bind; [apply _ | apply keeps_lift_option, _ |]. intros items.
  apply keeps_bind; [apply _ | | intros _; apply keeps_ret, _].
  unfold es_bulk. destruct items as [|item items]; [apply keeps_ret, _|].
  apply keeps_bind; [apply _ | | intros _; apply keeps_ret, _].
  apply keeps_trace_non_200. apply quiet_bulk.
Qed.

Lemma updates_page_loop_quiet fuel targets href updates_href :
  keeps (trace_extends (fun c => refreshes_only live c /\ leaves_index_set c = true))
    (updates_page_loop fuel feed targets href updates_href).
Proof using Type.
  revert href updates_href. induction fuel as [|fuel IH]; intros href updates_href;
    cbn [updates_page_loop]; destruct (href_truthy href) as [h|];
    try apply keeps_ret, _; try apply keeps_hang, _.
  apply keeps_bind; [apply _ | apply ingest_feed_page_quiet |].
  intros next. apply IH.
Qed.

Lemma refresh_index_quiet index_name :
  index_name ∈ live ->
  keeps (trace_extends (fun c => refreshes_only live c /\ leaves_index_set c = true))
    (refresh_index index_name).
Proof using Type.
  intros Hin. unfold refresh_index.
  apply keeps_bind; [apply _ | | intros _; apply keeps_ret, _].
  apply keeps_trace_non_200. now apply quiet_refresh.
Qed.

End UpdatesRequests.

Lemma updates_pass_requests fuel feed w :
  trace_extends
    (fun c => refreshes_only (indexes_matching_feeds (listed (w_es w) true) [unique_id feed]) c
              /\ leaves_index_set c = true)
    w (snd (ingest_feed_updates fuel feed w)).
Proof.
  set (live := indexes_matching_feeds (listed (w_es w) true) [unique_id feed]).
  set (P := fun c => refreshes_only live c /\ leaves_index_set c = true).
  apply (hoare_keeps (trace_extends P) (fun w0 => w_es w0 = w_es w) _ (fun _ _ => True));
    [|reflexivity].
  unfold ingest_feed_updates.
  eapply hoare_bind with (Q := fun _ w0 => w_es w0 = w_es w); [apply _ | |].
  { intros w0 H0. split.
    - apply get_feed_updates_url_trace. now apply quiet_not_request.
    - intros a w' E. rewrite <- H0, <- (get_feed_updates_url_es (unique_id feed) w0).
      now rewrite E. }
  intros href.
  eapply hoare_bind
    with (Q := fun names _ => names = (listed (w_es w) false, listed (w_es w) true));
    [apply _ | |].
  { intros w0 H0. split.
    - unfold get_old_index_names.
      apply keeps_bind; [apply _ | |].
      + apply keeps_trace_non_200. apply quiet_listing.
      + intros r. repeat (apply keeps_bind; [apply _ | apply keeps_lift_option, _ |]; intros ?).
        apply keeps_ret, _.
    - intros names w' E. apply get_old_index_names_listed in E as [-> _].
      now rewrite H0. }
  intros names w0 ->. cbn [fst snd]. fold live. split; [|trivial].
  revert w0.
  fold (keeps (trace_extends P)
    (bind (updates_page_loop fuel feed
             (indexes_matching_feeds (listed (w_es w) false ++ listed (w_es w) true)
                [unique_id feed]) (Some href) None)
       (fun updates_href =>
          bind (for_each live refresh_index)
            (fun _ => bind (lift_option UnboundLocalError updates_href)
               (fun updates_href0 =>
                  bind (set_feed_updates_url (unique_id feed) updates_href0)
                    (fun _ => sleep UPDATES_INTERVAL)))))).
  apply keeps_bind; [apply _ | apply updates_page_loop_quiet |].
  intros updates_href.
  apply keeps_bind; [apply _ | |].
  { apply keeps_for_each_in; [apply _|]. intros x Hx. now apply refresh_index_quiet. }
  intros _. apply keeps_bind; [apply _ | apply keeps_lift_option, _ |].
  intros u. apply keeps_bind; [apply _ | |].
  - apply keeps_trace_kv_set. now apply quiet_not_request.
  - intros _. apply keeps_trace_sleep. now apply quiet_not_request.
Qed.

(** X13.  An updates pass never creates or deletes an index and never
    touches an alias: it issues no [PUT], no [DELETE] and no request to
    [/_aliases].  The refreshes it asks for are of the indexes of the feed
    that were in an alias when the pass listed them, and of no other. *)
Theorem updates_pass_only_refreshes_live (fuel : nat) (feed : feed) (w : world) :
  let live := indexes_matching_feeds (listed (w_es w) true) [unique_id feed] in
  (forall x, x ∈ live <->
             (exists als, w_es w !! x = Some als /\ als <> [] /\
                          startswith x "activities_" = true) /\
             str_in (feed_marker (unique_id feed)) x = true) /\
  trace_extends (fun c => refreshes_only live c /\ leaves_index_set c = true)
    w (snd (ingest_feed_updates fuel feed w)).
Proof.
  cbv zeta. split; [|apply updates_pass_requests].
  intros x. rewrite elem_of_indexes_matching_feed, listed_with. reflexivity.
Qed.

(** ** The supervisors *)

Lemma py_index_nil {A} (i : Z) : py_index (@nil A) i = None.
Proof.
  unfold py_index. cbn [length]. change (Z.of_nat 0) with 0. change (- 0) with 0.
  destruct (Z.leb_spec 0 i), (Z.ltb_spec i 0); cbn [andb]; try reflexivity; lia.
Qed.

(** X14.  With an empty schedule the supervisor does not supervise: the
    first failure of the task that is not a cancellation makes the lookup of
    the interval raise [IndexError], which leaves the loop at once, with no
    sleep and no restart. *)
Theorem empty_schedule_raises_index_error (fuel : nat) (coroutine : M unit) (n : Z)
    (w w1 : world) (e : exn) :
  coroutine w = (Raise e, w1) -> e <> CancelledError ->
  repeat_from (S fuel) [] coroutine n w = (Raise IndexError, w1).
Proof.
  intros Hc He. cbn [repeat_from]. rewrite bind_cases. unfold loop_body.
  rewrite Hc, py_index_nil. destruct e; try reflexivity. now destruct He.
Qed.

Lemma empty_schedule_raises_index_error_witness :
  let w := world_of ∅ (calm_env (fun _ => 0)) in
  async_repeat_until_cancelled 3 [] (raise (Exception "boom")) w = (Raise IndexError, w).
Proof.
  cbv zeta. unfold async_repeat_until_cancelled.
  apply (empty_schedule_raises_index_error 2 (raise (Exception "boom")) 0 _ _
           (Exception "boom")); [reflexivity | discriminate].
Defined.

Lemma loop_body_break s coroutine n w w' :
  loop_body s coroutine n w = (Ret Break, w') ->
  coroutine w = (Raise CancelledError, w') \/
  exists w0 interval, asyncio_sleep interval w0 = (Raise CancelledError, w').
Proof.
  unfold loop_body.
  destruct (coroutine w) as [[[] | e | ] w1] eqn:Hc; try discriminate.
  destruct e; try (intros H; injection H as <-; now left);
    (destruct (py_index s _) as [interval|]; [|discriminate];
     destruct (asyncio_sleep interval w1) as [[[] | e2 | ] w2] eqn:Hs; try discriminate;
     destruct e2; try discriminate;
     intros H; injection H as <-; right; now exists w1, interval).
Qed.

Lemma repeat_from_returns fuel s coroutine :
  forall n w w',
    repeat_from fuel s coroutine n w = (Ret tt, w') ->
    exists w0,
      coroutine w0 = (Raise CancelledError, w') \/
      exists interval, asyncio_sleep interval w0 = (Raise CancelledError, w').
Proof.
  induction fuel as [|fuel IH]; intros n w w' H; cbn [repeat_from] in H; [discriminate|].
  apply bind_ret_inv in H as (step & w1 & Hb & H).
  destruct step as [n'|].
  - exact (IH n' w1 w' H).
  - injection H as <-. apply loop_body_break in Hb as [Hb | (w0 & interval & Hb)].
    + exists w. now left.
    + exists w0. right. now exists interval.
Qed.

(** X15.  The supervisor never stops of its own accord: whenever
    [async_repeat_until_cancelled] returns, the last thing that happened is
    a cancellation, raised either by the task or by the sleep between two
    runs of it. *)
Theorem supervisor_stops_only_on_cancellation (fuel : nat) (s : list Z)
    (coroutine : M unit) (w w' : world) :
  async_repeat_until_cancelled fuel s coroutine w = (Ret tt, w') ->
  exists w0,
    coroutine w0 = (Raise CancelledError, w') \/
    exists interval, asyncio_sleep interval w0 = (Raise CancelledError, w').
Proof. apply repeat_from_returns. Qed.

Lemma supervisor_stops_only_on_cancellation_witness :
  let w := world_of ∅ (calm_env (fun _ => 0)) in
  exists w0,
    (raise CancelledError : M unit) w0 = (Raise CancelledError, w) \/
    exists interval, asyncio_sleep interval w0 = (Raise CancelledError, w).
Proof.
  cbv zeta.
  apply (supervisor_stops_only_on_cancellation 3 EXCEPTION_INTERVALS
           (raise CancelledError) (world_of ∅ (calm_env (fun _ => 0)))).
  reflexivity.
Defined.

Lemma repeat_even_on_exception_step fuel coroutine w :
  CoreApp.repeat_even_on_exception (S fuel) coroutine w =
  match coroutine w with
  | (Hang, w1) => (Hang, w1)
  | (_, w1) =>
      bind (asyncio_sleep CoreApp.EXCEPTION_INTERVAL)
        (fun _ => CoreApp.repeat_even_on_exception fuel coroutine) w1
  end.
Proof. reflexivity. Qed.

Lemma repeat_even_on_exception_ends fuel coroutine :
  forall w,
    (forall w', CoreApp.repeat_even_on_exception fuel coroutine w <> (Ret tt, w')) /\
    (forall e w',
       CoreApp.repeat_even_on_exception fuel coroutine w = (Raise e, w') ->
       exists w0,
         asyncio_sleep CoreApp.EXCEPTION_INTERVAL w0 = (Raise e, w') /\
         hd_error (w_trace w') = Some (CallSleep 60)).
Proof.
  induction fuel as [|fuel IH]; intros w.
  - split; [intros w' H | intros e w' H]; discriminate H.
  - rewrite repeat_even_on_exception_step.
    assert (forall w1,
              (forall w',
                 bind (asyncio_sleep CoreApp.EXCEPTION_INTERVAL)
                   (fun _ => CoreApp.repeat_even_on_exception fuel coroutine) w1
                 <> (Ret tt, w')) /\
              (forall e w',
                 bind (asyncio_sleep CoreApp.EXCEPTION_INTERVAL)
                   (fun _ => CoreApp.repeat_even_on_exception fuel coroutine) w1
                 = (Raise e, w') ->
                 exists w0,
                   asyncio_sleep CoreApp.EXCEPTION_INTERVAL w0 = (Raise e, w') /\
                   hd_error (w_trace w') = Some (CallSleep 60))) as Hsleep.
    { intros w1. split.
      - intros w' H. apply bind_ret_inv in H as (_ & w2 & _ & H).
        now apply (proj1 (IH w2)) in H.
      - intros e w' H. apply bind_raise_inv in H as [H | (_ & w2 & _ & H)].
        + exists w1. split; [exact H|].
          pose proof (asyncio_sleep_trace CoreApp.EXCEPTION_INTERVAL w1) as Ht.
          rewrite H in Ht. cbn [snd] in Ht. now rewrite Ht.
        + exact (proj2 (IH w2) e w' H). }
    destruct (coroutine w) as [[[] | e0 | ] w1]; try apply Hsleep.
    split; [intros w' H | intros e w' H]; discriminate H.
Qed.

(** X16.  [repeat_even_on_exception] of core/app.py never returns, and no
    exception of the coroutine leaves it, a cancellation included: whatever
    the run of the coroutine did, the loop sleeps 60 seconds and starts it
    again.  Only what the sleep itself raises ends the loop. *)
Theorem repeat_even_on_exception_never_returns (fuel : nat) (coroutine : M unit)
    (w : world) :
  (forall w', CoreApp.repeat_even_on_exception fuel coroutine w <> (Ret tt, w')) /\
  (forall e w',
     CoreApp.repeat_even_on_exception fuel coroutine w = (Raise e, w') ->
     exists w0,
       asyncio_sleep CoreApp.EXCEPTION_INTERVAL w0 = (Raise e, w') /\
       hd_error (w_trace w') = Some (CallSleep 60)) /\
  (forall e w1,
     coroutine w = (Raise e, w1) ->
     CoreApp.repeat_even_on_exception (S fuel) coroutine w =
     bind (asyncio_sleep 60) (fun _ => CoreApp.repeat_even_on_exception fuel coroutine) w1).
Proof.
  split; [apply repeat_even_on_exception_ends|].
  split; [apply repeat_even_on_exception_ends|].
  intros e w1 H. rewrite repeat_even_on_exception_step, H. reflexivity.
Qed.

(** ** The read side: search results as a collection *)

Lemma subscript_ret v key w a w' :
  subscript v key w = (Ret a, w') -> Json.get key v = Some a /\ w' = w.
Proof.
  unfold subscript. destruct v; try discriminate. apply lift_option_ret.
Qed.

Lemma dict_get_default_ret v key d w a w' :
  dict_get_default v key d w = (Ret a, w') ->
  a = default d (Json.get key v) /\ w' = w.
Proof.
  unfold dict_get_default. destruct v; try discriminate.
  intros H. injection H as <- <-. now split.
Qed.

Lemma sources_of_ret items :
  forall w srcs w',
    sources_of items w = (Ret srcs, w') ->
    w' = w /\ Forall2 (fun item s => Json.get "_source" item = Some s) items srcs.
Proof.
  induction items as [|item items IH]; intros w srcs w' H; cbn [sources_of] in H.
  - injection H as <- <-. split; [reflexivity | constructor].
  - apply bind_ret_inv in H as (s & w1 & H1 & H).
    apply bind_ret_inv in H as (ss & w2 & H2 & H).
    injection H as <- <-.
    apply subscript_ret in H1 as [Hs ->]. apply IH in H2 as [-> Hss].
    split; [reflexivity | now constructor].
Qed.

Lemma activities_returns response (to_public_scroll_url : json -> M string) w result w' :
  activities response to_public_scroll_url w = (Ret result, w') ->
  exists hits_object hits scroll_id items srcs,
    Json.get "hits" response = Some hits_object /\
    hits = default (JList []) (Json.get "hits" hits_object) /\
    Json.get "_scroll_id" response = Some scroll_id /\
    iterate hits = Some items /\
    Forall2 (fun item s => Json.get "_source" item = Some s) items srcs /\
    if Json.truthy hits then
      exists url,
        to_public_scroll_url scroll_id w = (Ret url, w') /\
        result = JDict [("@context"%string, AS_CONTEXT);
                        ("orderedItems"%string, JList srcs);
                        ("type"%string, JStr "Collection");
                        ("next"%string, JStr url)]
    else
      w' = w /\
      result = JDict [("@context"%string, AS_CONTEXT);
                      ("orderedItems"%string, JList srcs);
                      ("type"%string, JStr "Collection")].
Proof.
  intros H. unfold activities in H.
  apply bind_ret_inv in H as (hits_object & w1 & H1 & H).
  apply bind_ret_inv in H as (hits & w2 & H2 & H).
  apply bind_ret_inv in H as (sid & w3 & H3 & H).
  apply bind_ret_inv in H as (next_dict & w4 & H4 & H).
  apply bind_ret_inv in H as (items & w5 & H5 & H).
  apply bind_ret_inv in H as (srcs & w6 & H6 & H).
  injection H as <- <-.
  apply subscript_ret in H1 as [Hh ->].
  apply dict_get_default_ret in H2 as [Hhits ->].
  apply subscript_ret in H3 as [Hsid ->].
  apply lift_option_ret in H5 as [Hit ->].
  apply sources_of_ret in H6 as [-> Hsrc].
  exists hits_object, hits, sid, items, srcs.
  repeat (split; [assumption|]).
  destruct (Json.truthy hits).
  - apply bind_ret_inv in H4 as (url & w5 & Hu & H4). injection H4 as <- <-.
    exists url. now split.
  - injection H4 as <- <-. now split.
Qed.

(** X17.  What [activities] makes of a search response, when it returns:
    a collection whose [orderedItems] are the [_source] of the hits, one
    for each and in their order; the link [next] is there exactly when there
    is a hit, and only then is the public scroll URL asked for, once, for
    the scroll id of the response.  A response without [_scroll_id] raises
    [KeyError] even when it has no hit and no link would be made. *)
Theorem activities_collection (response : json)
    (to_public_scroll_url : json -> M string) (w : world) :
  (forall result w',
     activities response to_public_scroll_url w = (Ret result, w') ->
     exists hits_object hits scroll_id items srcs,
       Json.get "hits" response = Some hits_object /\
       hits = default (JList []) (Json.get "hits" hits_object) /\
       Json.get "_scroll_id" response = Some scroll_id /\
       iterate hits = Some items /\
       Forall2 (fun item s => Json.get "_source" item = Some s) items srcs /\
       if Json.truthy hits then
         exists url,
           to_public_scroll_url scroll_id w = (Ret url, w') /\
           result = JDict [("@context"%string, AS_CONTEXT);
                           ("orderedItems"%string, JList srcs);
                           ("type"%string, JStr "Collection");
                           ("next"%string, JStr url)]
       else
         w' = w /\
         result = JDict [("@context"%string, AS_CONTEXT);
                         ("orderedItems"%string, JList srcs);
                         ("type"%string, JStr "Collection")]) /\
  (forall members hits_members,
     response = JDict members ->
     Json.get "hits" response = Some (JDict hits_members) ->
     Json.get "_scroll_id" response = None ->
     activities response to_public_scroll_url w = (Raise KeyError, w)).
Proof.
  split; [intros result w'; apply activities_returns|].
  intros members hits_members -> Hh Hs. unfold activities.
  unfold subscript at 1. rewrite Hh. cbn [lift_option]. rewrite bind_cases. cbn [ret].
  cbn [dict_get_default]. rewrite bind_cases. cbn [ret].
  unfold subscript. rewrite Hs. reflexivity.
Qed.

Lemma activities_collection_witness :
  let response :=
    JDict [("_scroll_id", JStr "s1");
           ("hits", JDict [("hits", JList [JDict [("_source", JDict [("id", JStr "a")])];
                                           JDict [("_source", JDict [("id", JStr "b")])]])])] in
  let to_public : json -> M string := fun _ => ret "http://public/next"%string in
  let w := world_of ∅ (calm_env (fun _ => 0)) in
  exists result,
    activities response to_public w = (Ret result, w) /\
    Json.get "orderedItems" result =
      Some (JList [JDict [("id", JStr "a")]; JDict [("id", JStr "b")]]) /\
    Json.get "next" result = Some (JStr "http://public/next").
Proof.
  cbv zeta. eexists. split; [reflexivity|].
  destruct (proj1 (activities_collection
                     (JDict [("_scroll_id", JStr "s1");
                             ("hits",
                              JDict [("hits",
                                      JList [JDict [("_source", JDict [("id", JStr "a")])];
                                             JDict [("_source",
                                                     JDict [("id", JStr "b")])]])])])
                     (fun _ => ret "http://public/next"%string)
                     (world_of ∅ (calm_env (fun _ => 0)))) _ _ eq_refl)
    as (ho & hits & sid & items & srcs & _).
  split; reflexivity.
Defined.

(** ** Dictionaries of core/app_utils.py *)

Lemma zip_lookups {V} (dictionary : gmap string V) keys extracted :
  Forall2 (fun key v => dictionary !! key = Some v) keys extracted ->
  forall k,
    (list_to_map (zip keys extracted) : gmap string V) !! k =
    if decide (k ∈ keys) then dictionary !! k else None.
Proof.
  induction 1 as [|key v keys extracted Hkv H IH]; intros k.
  - cbn. rewrite lookup_empty. destruct (decide (k ∈ [])) as [Hin|]; [|reflexivity].
    now apply not_elem_of_nil in Hin.
  - cbn [zip zip_with]. rewrite list_to_map_cons.
    destruct (decide (key = k)) as [->|Hne].
    + rewrite lookup_insert_eq. destruct (decide (k ∈ k :: keys)) as [|Hn]; [now symmetry|].
      destruct Hn. apply list_elem_of_here.
    + rewrite lookup_insert_ne by exact Hne. rewrite IH.
      destruct (decide (k ∈ keys)) as [Hin|Hnin], (decide (k ∈ key :: keys)) as [Hin'|Hnin'];
        try reflexivity.
      * destruct Hnin'. now apply list_elem_of_further.
      * apply elem_of_cons in Hin' as [-> | Hin']; [now destruct Hne | now destruct Hnin].
Qed.

Lemma without_keys_lookup {V} (dictionary : gmap string V) (keys : list string) k :
  filter (fun kv : string * V => fst kv ∉ keys) dictionary !! k =
  if decide (k ∈ keys) then None else dictionary !! k.
Proof.
  destruct (decide (k ∈ keys)) as [Hin|Hnin].
  - apply map_lookup_filter_None. right. intros v _ Hn. now apply Hn.
  - destruct (dictionary !! k) as [v|] eqn:E.
    + apply map_lookup_filter_Some. now split.
    + apply map_lookup_filter_None. now left.
Qed.

(** X19.  [extract_keys] loses nothing and mixes nothing up: it raises
    [KeyError] exactly when one of the keys is missing; otherwise the values
    it hands back are those of the keys, in the order of the keys, the
    dictionary it hands back has every other entry and none of the keys, and
    putting the two back together gives the dictionary it was given. *)
Theorem extract_keys_splits {V} (dictionary : gmap string V) (keys : list string) :
  (CoreAppUtils.extract_keys dictionary keys = None <->
   exists key, key ∈ keys /\ dictionary !! key = None) /\
  (forall without_keys extracted,
     CoreAppUtils.extract_keys dictionary keys = Some (without_keys, extracted) ->
     Forall2 (fun key v => dictionary !! key = Some v) keys extracted /\
     (forall k, without_keys !! k = if decide (k ∈ keys) then None else dictionary !! k) /\
     list_to_map (zip keys extracted) ∪ without_keys = dictionary).
Proof.
  unfold CoreAppUtils.extract_keys. split.
  - destruct (mapM (fun key => dictionary !! key) keys) as [extracted|] eqn:E.
    + split; [discriminate|]. intros (key & Hin & Hnone). exfalso.
      apply mapM_Some in E.
      apply list_elem_of_lookup in Hin as [i Hi].
      destruct (Forall2_lookup_l _ _ _ _ _ E Hi) as (v & _ & Hv). congruence.
    + split; [|reflexivity]. intros _. apply mapM_None, Exists_exists in E.
      destruct E as (key & Hin & Hnone). now exists key.
  - intros without_keys extracted H.
    destruct (mapM (fun key => dictionary !! key) keys) as [ex|] eqn:E; [|discriminate].
    cbv zeta in H. injection H as <- <-. apply mapM_Some in E.
    split; [exact E|]. split; [apply without_keys_lookup|].
    apply map_eq. intros k.
    rewrite lookup_union, (zip_lookups dictionary keys ex E), without_keys_lookup.
    destruct (decide (k ∈ keys)); [|now rewrite (left_id None _)].
    destruct (dictionary !! k); reflexivity.
Qed.

Lemma extract_keys_splits_witness :
  let kwargs : gmap string Z :=
    {[ "interval"%string := 60; "title"%string := 7; "port"%string := 8080 ]} in
  list_to_map (zip ["interval"; "title"]%string [60; 7]) ∪ {[ "port"%string := 8080 ]}
  = kwargs.
Proof.
  cbv zeta.
  apply (proj2 (extract_keys_splits
                  ({[ "interval"%string := 60; "title"%string := 7;
                      "port"%string := 8080 ]} : gmap string Z)
                  ["interval"; "title"]%string)
           {[ "port"%string := 8080 ]} [60; 7]).
  vm_compute. reflexivity.
Defined.

Lemma lower_char_idem c :
  CoreAppUtils.lower_char (CoreAppUtils.lower_char c) = CoreAppUtils.lower_char c.
Proof. destruct c as [[] [] [] [] [] [] [] []]; reflexivity. Qed.

Lemma lower_idem s : CoreAppUtils.lower (CoreAppUtils.lower s) = CoreAppUtils.lower s.
Proof.
  induction s as [|c s IH]; [reflexivity|].
  cbn [CoreAppUtils.lower]. now rewrite lower_char_idem, IH.
Qed.

Lemma sub_dict_lower_fold {V} (super_dict : gmap string V) keys :
  forall acc : option (gmap string V),
    let step := fun (acc : option (gmap string V)) key =>
                  match acc, super_dict !! key with
                  | Some d, Some v => Some (<[CoreAppUtils.lower key := v]> d)
                  | _, _ => None
                  end in
    match List.fold_left step keys acc with
    | None => acc = None \/ exists key, key ∈ keys /\ super_dict !! key = None
    | Some d =>
        exists d0, acc = Some d0 /\
          (forall key, key ∈ keys -> is_Some (super_dict !! key)) /\
          (forall k v, d !! k = Some v ->
             d0 !! k = Some v \/
             exists key, key ∈ keys /\ CoreAppUtils.lower key = k /\
                         super_dict !! key = Some v) /\
          (forall k, is_Some (d0 !! k) -> is_Some (d !! k)) /\
          (forall key, key ∈ keys -> is_Some (d !! CoreAppUtils.lower key))
    end.
Proof.
  induction keys as [|key keys IH]; intros acc step; cbn [List.fold_left].
  - destruct acc as [d0|]; [|now left].
    exists d0. split; [reflexivity|]. split; [intros key Hin; now apply not_elem_of_nil in Hin|].
    split; [intros k v Hk; now left|]. split; [trivial|].
    intros key Hin. now apply not_elem_of_nil in Hin.
  - specialize (IH (step acc key)). cbv zeta in IH. fold step in IH.
    destruct (List.fold_left step keys (step acc key)) as [d|].
    + destruct IH as (d1 & Hacc & Hall & Hfrom & Hkeep & Hdom).
      unfold step in Hacc. destruct acc as [d0|]; [|discriminate].
      destruct (super_dict !! key) as [v0|] eqn:E; [|discriminate].
      injection Hacc as <-. exists d0. split; [reflexivity|].
      split; [|split; [|split]].
      * intros key' Hin. apply elem_of_cons in Hin as [-> | Hin]; [now rewrite E | now apply Hall].
      * intros k v Hk. destruct (Hfrom k v Hk) as [H1 | (key' & Hin & Hl & Hs)].
        -- destruct (decide (CoreAppUtils.lower key = k)) as [Heq|Hne].
           ++ rewrite <- Heq, lookup_insert_eq in H1. injection H1 as <-.
              right. exists key. split; [apply list_elem_of_here | now split].
           ++ rewrite lookup_insert_ne in H1 by exact Hne. now left.
        -- right. exists key'. split; [now apply list_elem_of_further | now split].
      * intros k Hk. apply Hkeep.
        destruct (decide (CoreAppUtils.lower key = k)) as [<-|Hne].
        -- rewrite lookup_insert_eq. now eexists.
        -- now rewrite lookup_insert_ne.
      * intros key' Hin. apply elem_of_cons in Hin as [-> | Hin]; [|now apply Hdom].
        apply Hkeep. rewrite lookup_insert_eq. now eexists.
    + destruct IH as [Hacc | (key' & Hin & Hnone)].
      * unfold step in Hacc. destruct acc as [d0|]; [|now left].
        destruct (super_dict !! key) eqn:E; [discriminate|].
        right. exists key. split; [apply list_elem_of_here | exact E].
      * right. exists key'. split; [now apply list_elem_of_further | exact Hnone].
Qed.

(** X20.  [sub_dict_lower] raises [KeyError] exactly when one of the keys is
    missing from the dictionary.  Otherwise every key it was given is in
    the result under its lowercase form, every entry of the result is the
    value of one of those keys, and the keys of the result are all in
    lowercase. *)
Theorem sub_dict_lower_spec {V} (super_dict : gmap string V) (keys : list string) :
  (CoreAppUtils.sub_dict_lower super_dict keys = None <->
   exists key, key ∈ keys /\ super_dict !! key = None) /\
  (forall d,
     CoreAppUtils.sub_dict_lower super_dict keys = Some d ->
     (forall key, key ∈ keys -> is_Some (d !! CoreAppUtils.lower key)) /\
     (forall k v, d !! k = Some v ->
        exists key, key ∈ keys /\ CoreAppUtils.lower key = k /\
                    super_dict !! key = Some v) /\
     (forall k, is_Some (d !! k) -> CoreAppUtils.lower k = k)).
Proof.
  pose proof (sub_dict_lower_fold super_dict keys (Some ∅)) as H. cbv zeta in H.
  unfold CoreAppUtils.sub_dict_lower.
  destruct (List.fold_left _ keys (Some ∅)) as [d|].
  - destruct H as (d0 & Hacc & Hall & Hfrom & _ & Hdom). injection Hacc as <-.
    assert (forall k v, d !! k = Some v ->
              exists key, key ∈ keys /\ CoreAppUtils.lower key = k /\
                          super_dict !! key = Some v) as Hfrom'.
    { intros k v Hk. destruct (Hfrom k v Hk) as [H0 | H0]; [|exact H0].
      rewrite lookup_empty in H0. discriminate. }
    split.
    + split; [discriminate|]. intros (key & Hin & Hnone).
      destruct (Hall key Hin) as [v Hv]. congruence.
    + intros d' E. injection E as <-. split; [exact Hdom|]. split; [exact Hfrom'|].
      intros k [v Hk]. destruct (Hfrom' k v Hk) as (key & _ & <- & _). apply lower_idem.
  - destruct H as [H | H]; [discriminate|]. split; [|discriminate].
    split; [intros _; exact H | reflexivity].
Qed.

Lemma sub_dict_lower_spec_witness :
  is_Some (({[ "content-type"%string := 1 ]} : gmap string Z)
             !! CoreAppUtils.lower "Content-Type").
Proof.
  assert (CoreAppUtils.sub_dict_lower
            ({[ "Content-Type"%string := 1; "X-Other"%string := 2 ]} : gmap string Z)
            ["Content-Type"%string]
          = Some {[ "content-type"%string := 1 ]}) as H by (vm_compute; reflexivity).
  apply (proj1 (proj2 (sub_dict_lower_spec _ _) _ H) "Content-Type"%string).
  apply list_elem_of_here.
Defined.

(** ** Collecting until a condition holds (core/tests_utils.py) *)

Lemma appends_done {A} (condition : list A -> bool) datas (c : TestsUtils.collector A) :
  TestsUtils.future_done c = true -> TestsUtils.appends condition datas c = c.
Proof.
  intros Hd. induction datas as [|d ds IH]; [reflexivity|].
  unfold TestsUtils.appends in *. cbn [List.fold_left].
  assert (default c (TestsUtils.append condition d c) = c) as ->; [|exact IH].
  unfold TestsUtils.append. rewrite Hd. cbv zeta. rewrite Hd.
  destruct (condition (TestsUtils.all_data c)); reflexivity.
Qed.

Lemma appends_from {A} (condition : list A -> bool) datas :
  forall pre (c : TestsUtils.collector A),
    TestsUtils.future_done c = false -> TestsUtils.all_data c = pre ->
    let c' := TestsUtils.appends condition datas c in
    if TestsUtils.future_done c' then
      exists n, (0 < n <= length datas)%nat /\
                TestsUtils.all_data c' = pre ++ take n datas /\
                condition (pre ++ take n datas) = true /\
                forall m, (0 < m < n)%nat -> condition (pre ++ take m datas) = false
    else
      TestsUtils.all_data c' = pre ++ datas /\
      forall m, (0 < m <= length datas)%nat -> condition (pre ++ take m datas) = false.
Proof.
  induction datas as [|d ds IH]; intros pre c Hd Hpre; cbv zeta.
  - cbn. rewrite Hd. split; [now rewrite app_nil_r | intros m Hm; lia].
  - unfold TestsUtils.appends. cbn [List.fold_left].
    fold (TestsUtils.appends condition ds (default c (TestsUtils.append condition d c))).
    unfold TestsUtils.append. rewrite Hd. cbv zeta. cbn [TestsUtils.all_data TestsUtils.future_done].
    rewrite Hpre.
    destruct (condition (pre ++ [d])) eqn:Hc; cbn [default].
    + rewrite appends_done by reflexivity. cbn [TestsUtils.future_done TestsUtils.all_data].
      exists 1%nat. cbn [length take]. split; [lia|]. split; [reflexivity|].
      split; [exact Hc | intros m Hm; lia].
    + specialize (IH (pre ++ [d])
                    {| TestsUtils.all_data := pre ++ [d]; TestsUtils.future_done := false |}
                    eq_refl eq_refl).
      cbv zeta in IH.
      destruct (TestsUtils.future_done (TestsUtils.appends condition ds _)).
      * destruct IH as (n & Hn & Hall & Hcond & Hmin).
        exists (S n). cbn [length take]. split; [lia|].
        rewrite <- !app_assoc in Hall, Hcond. cbn [app] in Hall, Hcond.
        split; [exact Hall|]. split; [exact Hcond|].
        intros m Hm. destruct m as [|m]; [lia|]. cbn [take].
        destruct m as [|m]; [cbn [take]; exact Hc|].
        specialize (Hmin (S m) ltac:(lia)). rewrite <- app_assoc in Hmin. exact Hmin.
      * destruct IH as [Hall Hnone]. rewrite <- app_assoc in Hall. cbn [app] in Hall.
        split; [exact Hall|].
        intros m Hm. destruct m as [|m]; [lia|]. cbn [take].
        destruct m as [|m]; [cbn [take]; exact Hc|].
        cbn [length] in Hm. specialize (Hnone (S m) ltac:(lia)).
        rewrite <- app_assoc in Hnone. exact Hnone.
Qed.

(** X21.  [append_until] collects what it is given up to the first moment
    the condition holds, and no further: after any run of calls the future
    is done exactly when some non-empty prefix of the data satisfies the
    condition, its result is the shortest such prefix, and until then
    everything given is in the list.  Once the future is done a call of
    [append] adds nothing, and raises [InvalidStateError] from
    [set_result] as long as the condition holds of the result. *)
Theorem append_until_keeps_first_match {A} (condition : list A -> bool) (datas : list A) :
  (let c := TestsUtils.appends condition datas TestsUtils.append_until in
   if TestsUtils.future_done c then
     exists n, (0 < n <= length datas)%nat /\
               TestsUtils.all_data c = take n datas /\
               condition (take n datas) = true /\
               forall m, (0 < m < n)%nat -> condition (take m datas) = false
   else
     TestsUtils.all_data c = datas /\
     forall m, (0 < m <= length datas)%nat -> condition (take m datas) = false) /\
  (forall (c : TestsUtils.collector A) data,
     TestsUtils.future_done c = true ->
     condition (TestsUtils.all_data c) = true ->
     TestsUtils.append condition data c = None) /\
  (forall (c : TestsUtils.collector A) more,
     TestsUtils.future_done c = true ->
     TestsUtils.appends condition more c = c).
Proof.
  split; [|split].
  - exact (appends_from condition datas [] TestsUtils.append_until eq_refl eq_refl).
  - intros c data Hd Hc. unfold TestsUtils.append. rewrite Hd. cbv zeta. now rewrite Hc, Hd.
  - intros c more Hd. now apply appends_done.
Qed.

(** ** The cursor of an updates pass *)

Lemma updates_page_loop_returns fuel feed targets :
  forall href u w r w',
    updates_page_loop fuel feed targets href u w = (Ret r, w') ->
    (forall h0, u = Some h0 -> h0 <> EmptyString /\ last_fetch (w_trace w) = Some h0) ->
    (forall h, r = Some h -> h <> EmptyString /\ last_fetch (w_trace w') = Some h) /\
    (exists new, w_trace w' = new ++ w_trace w) /\
    (u = None -> forall h, r = Some h ->
       exists h1, href = Some h1 /\ CallFeed h1 (auth_headers feed h1) ∈ w_trace w').
Proof.
  induction fuel as [|fuel IH]; intros href u w r w' H Hu;
    cbn [updates_page_loop] in H; destruct (href_truthy href) as [h1|] eqn:Eh;
    try discriminate;
    try (injection H as <- <-; split; [exact Hu|]; split; [now exists []|];
         intros -> h Hh; discriminate Hh).
  apply bind_ret_inv in H as (next & w1 & Hp & H).
  destruct (ingest_feed_page_cases feed targets h1 w) as [Hc _].
  cbv zeta in Hc. rewrite Hp in Hc. cbn [snd] in Hc.
  assert (last_fetch (w_trace w1) = Some h1 /\
          CallFeed h1 (auth_headers feed h1) ∈ w_trace w1 /\
          exists new, w_trace w1 = new ++ w_trace w) as (Hl1 & Hin1 & new1 & Hn1).
  { destruct Hc as [-> | (page & items & _ & _ & _ & _ & _ & ->)].
    - split; [reflexivity|]. split; [apply list_elem_of_here|].
      now exists [CallFeed h1 (auth_headers feed h1)].
    - split; [reflexivity|]. split; [apply list_elem_of_further, list_elem_of_here|].
      now exists [bulk_request items; CallFeed h1 (auth_headers feed h1)]. }
  destruct (IH next (Some h1) w1 r w' H) as (Hlast & (new & Hn) & _).
  { intros h0 E. injection E as <-. split; [exact (href_truthy_some _ _ Eh) | exact Hl1]. }
  split; [exact Hlast|]. split.
  - exists (new ++ new1). now rewrite Hn, Hn1, app_assoc.
  - intros _ h Hh. exists h1. split; [exact (href_truthy_eq _ _ Eh)|].
    rewrite Hn. apply elem_of_app. now right.
Qed.

Lemma last_fetch_extends (w w' : world) :
  trace_extends (fun c => forall h hs, c <> CallFeed h hs) w w' ->
  last_fetch (w_trace w') = last_fetch (w_trace w) /\
  exists new, w_trace w' = new ++ w_trace w.
Proof.
  intros (new & Hn & Hall). split; [|now exists new]. rewrite Hn. clear Hn.
  induction Hall as [|c new Hc Hall IH]; [reflexivity|].
  cbn [app last_fetch]. destruct c; try exact IH. now destruct (Hc href headers).
Qed.

Lemma refreshes_no_fetch index_names :
  keeps (trace_extends (fun c => forall h hs, c <> CallFeed h hs))
    (for_each index_names refresh_index).
Proof.
  apply keeps_for_each; [apply _|]. intros x. unfold refresh_index.
  apply keeps_bind; [apply _ | | intros _; apply keeps_ret, _].
  apply keeps_trace_non_200. discriminate.
Qed.

(** X22.  An updates pass that returns started at the cursor it loaded:
    the page at that href is fetched again.  It ends by storing, under
    [feed_updates_url:<id>], the href of the last page it fetched, which is
    not empty, and then sleeping for the updates interval; the write of the
    cursor and the sleep are its last two awaits. *)
Theorem updates_pass_cursor (fuel : nat) (feed : feed) (w w' : world) :
  ingest_feed_updates fuel feed w = (Ret tt, w') ->
  exists start stop earlier,
    fst (get_feed_updates_url (unique_id feed) w) = Ret start /\
    w_trace w' =
      CallSleep UPDATES_INTERVAL :: CallKvSet (FEED_UPDATES_URL (unique_id feed)) :: earlier /\
    CallFeed start (auth_headers feed start) ∈ earlier /\
    last_fetch earlier = Some stop /\ stop <> EmptyString /\
    w_kv w' !! FEED_UPDATES_URL (unique_id feed) = Some (KvStr stop).
Proof.
  intros H. unfold ingest_feed_updates in H.
  apply bind_ret_inv in H as (href & w1 & H1 & H).
  apply bind_ret_inv in H as (names & w2 & H2 & H). cbv zeta in H.
  apply bind_ret_inv in H as (updates_href & w3 & H3 & H).
  apply bind_ret_inv in H as ([] & w4 & H4 & H).
  apply bind_ret_inv in H as (stop & w5 & H5 & H).
  apply bind_ret_inv in H as ([] & w6 & H6 & H).
  apply lift_option_ret in H5 as [-> ->].
  destruct (updates_page_loop_returns fuel feed _ _ _ _ _ _ H3 ltac:(discriminate))
    as (Hlast & _ & Hfirst).
  destruct (Hlast stop eq_refl) as [Hne Hl3].
  destruct (Hfirst eq_refl stop eq_refl) as (h1 & Eh & Hin3). injection Eh as <-.
  pose proof (refreshes_no_fetch
                (indexes_matching_feeds (snd names) [unique_id feed]) w3) as Hr.
  rewrite H4 in Hr. cbn [snd] in Hr.
  apply last_fetch_extends in Hr as [Hl4 (new & Hn4)].
  unfold set_feed_updates_url in H6. apply kv_set_ret in H6 as [Ht6 Hkv6].
  apply sleep_ret in H. subst w'. cbn [set_trace w_trace w_kv].
  exists href, stop, (w_trace w4).
  split; [now rewrite H1|]. split; [now rewrite Ht6|].
  split; [rewrite Hn4; apply elem_of_app; now right|].
  split; [now rewrite Hl4|]. split; [exact Hne | exact Hkv6].
Qed.

(** ** The two ways the gateway reads a status *)

(** X23.  A request that the backend answers with a status other than 200
    makes [es_request_non_200_exception] raise an [Exception] that carries
    the text of the answer, whatever the status, 503 included;
    [es_maybe_unvailable_metrics] raises [ESMetricsUnavailable] for 503 and
    the same [Exception] for any other status.  In both cases one request
    was made. *)
Theorem gateway_status_contract (method path : string) (query headers : list (string * string))
    (payload : payload) (w : world) :
  let rq := CallEs {| rq_method := method; rq_path := path; rq_query := query;
                      rq_headers := headers; rq_payload := payload |} in
  let answer := w_env w (length (w_trace w)) rq in
  e_throw answer = None -> e_status answer <> 200 ->
  es_request_non_200_exception method path query headers payload w =
    (Raise (Exception (e_text answer)), set_trace (rq :: w_trace w) w) /\
  es_maybe_unvailable_metrics method path query headers payload w =
    (Raise (if e_status answer =? 503 then ESMetricsUnavailable
            else Exception (e_text answer)),
     set_trace (rq :: w_trace w) w).
Proof.
  cbv zeta. intros Hthrow Hst. apply Z.eqb_neq in Hst.
  unfold es_request_non_200_exception, es_maybe_unvailable_metrics, es_request, bind, await.
  cbv zeta. rewrite Hthrow. cbn [set_trace w_es]. rewrite Hst.
  cbn [status text negb]. rewrite Hst. cbn [negb].
  split; [reflexivity|].
  destruct (e_status _ =? 503); reflexivity.
Qed.

Lemma gateway_status_contract_witness :
  let w := world_of ∅ (fun _ _ => {| e_throw := None; e_status := 503;
                                     e_text := "unavailable"; e_count := 0;
                                     e_max_published := None; e_page := None |}) in
  fst (es_request_non_200_exception "GET" "/activities/_count" count_query json_headers
         Empty w) = Raise (Exception "unavailable") /\
  fst (es_maybe_unvailable_metrics "GET" "/activities/_count" count_query json_headers
         Empty w) = Raise ESMetricsUnavailable.
Proof.
  cbv zeta.
  destruct (gateway_status_contract "GET" "/activities/_count" count_query json_headers Empty
              (world_of ∅ (fun _ _ => {| e_throw := None; e_status := 503;
                                         e_text := "unavailable"; e_count := 0;
                                         e_max_published := None; e_page := None |}))
              eq_refl ltac:(cbn; discriminate)) as [H1 H2].
  rewrite H1, H2. split; reflexivity.
Defined.

Lemma updates_pass_cursor_witness :
  let w := snd (ingest_feed_full 5 example_feed (world_of example_backend (example_env 100))) in
  let run := ingest_feed_updates 5 example_feed w in
  fst run = Ret tt /\
  exists start stop earlier,
    fst (get_feed_updates_url "F1" w) = Ret start /\
    w_trace (snd run) =
      CallSleep UPDATES_INTERVAL :: CallKvSet (FEED_UPDATES_URL "F1") :: earlier /\
    CallFeed start (auth_headers example_feed start) ∈ earlier /\
    last_fetch earlier = Some stop /\ stop <> EmptyString /\
    w_kv (snd run) !! FEED_UPDATES_URL "F1" = Some (KvStr stop).
Proof.
  intros w run.
  assert (H1 : fst run = Ret tt) by (vm_compute; reflexivity).
  split; [exact H1|].
  apply (updates_pass_cursor 5 example_feed w (snd run)).
  rewrite <- H1. apply surjective_pairing.
Defined.

(** ** The sampler as it is called *)




(** Three turns of the supervised sampler in a calm environment: the
    sleeps of 1, 2 and 4 seconds, and nothing else. *)
Example supervised_sampler_three_turns :
  w_trace (snd (async_repeat_until_cancelled 3 EXCEPTION_INTERVALS
                  (poll_metrics [example_feed]) (world_of ∅ (calm_env (fun _ => 0))))) =
  [CallSleep 4; CallSleep 2; CallSleep 1].
Proof. reflexivity. Qed.
